(** * doc-slurp: the incremental scrape engine ([src/lib/scraper.ts])

    A shallow embedding of [scrapeOrg] and of the types of [src/lib/types.ts].

    The engine is sequential: every [await] is a point where the program
    hands control to the [github] module and resumes with its answer, so
    the embedding is a state-and-exception monad over one [Machine]
    record.  The record holds the locals of [scrapeOrg] (the store under
    construction, [results], the three counters) together with what the run
    does to its surroundings: the events handed to [onProgress], the lines
    given to [console.warn], the requests made to the [github] module and
    the number of times the wall clock was read.

    The engine is embedded twice.  [scrapeOrg] treats the two stores as
    values; [Ref.scrapeOrg] keeps every object of both stores in a heap
    of references, so that aliasing and in-place mutation can be stated.
    [RefSim.run_sim] relates the two.

    Objects used as dictionaries ([Record<string, _>]) are finite maps on
    their own keys; properties inherited from [Object.prototype] are outside
    the model (full names contain a slash and Markdown paths end in [.md],
    so they never collide with them).

    Around the engine: [Cli] is the command line of [src/cli.ts]
    ([parseArgs] and the decisions of [main]), [Scrape] its scrape command
    ([runScrape], over the file system and the standard output),
    [OrgScraper] the form of the web page ([handleSubmit], over
    [localStorage]), [GithubTs] the [github] module ([src/lib/github.ts])
    over the answers of the REST client, and [RepoList] the grouping of the
    records ([src/components/RepoList.tsx]). *)

From Stdlib Require Import Ascii String Sorted.
From stdpp Require Import base numbers strings pretty list gmap.

Local Open Scope string_scope.
Local Open Scope nat_scope.
Local Open Scope list_scope.
Local Open Scope stdpp_scope.

(** ** Data model ([types.ts]) *)

Module FileEntry.
(** [lastFetched] is declared [number]; the engine guards it with [??],
    so a store read back from JSON may miss it: [None] is that case. *)
Record t := mk { sha : string; lastFetched : option Z }.
End FileEntry.

Module RepoCache.
Record t := mk { files : gmap string FileEntry.t }.
End RepoCache.

Module ScrapeState.
Record t := mk { repos : gmap string RepoCache.t; lastScrape : option string }.
End ScrapeState.

Module ScrapedFile.
Record t := mk { repo : string; path : string; content : string; sha : string }.
End ScrapedFile.

Module Phase.
Inductive t := repos | tree | files | done | error.
End Phase.

Module ScrapeProgress.
Record t := mk {
  phase : Phase.t;
  repo : option string;
  fetched : nat;
  skipped : nat;
  total : nat;
  message : option string
}.
End ScrapeProgress.

(** The argument of [emit]: [Partial<ScrapeProgress> & { phase }]. *)
Module PartialProgress.
Record t := mk {
  phase : Phase.t;
  repo : option string;
  fetched : option nat;
  skipped : option nat;
  total : option nat;
  message : option string
}.
End PartialProgress.

Module ScrapeConfig.
(** [repoFilter] is a [RegExp] used only through [test]; the callers
    build it with [new RegExp(source)], without the [g] and [y] flags, so
    [test] is a function of the string.  [onProgress] says whether a
    callback was supplied (the callback itself is the progress log of the
    machine). *)
Record t := mk {
  org : string;
  token : option string;
  repoFilter : option (string → bool);
  onProgress : bool
}.
End ScrapeConfig.

(** ** The [github] module as seen by the engine ([github.ts]) *)

Module Error.
Record t := mk { message : string }.
End Error.

Inductive outcome (A : Type) :=
  | Return (a : A)
  | Throw (e : Error.t).
Arguments Return {A} a.
Arguments Throw {A} e.

Module Repo.
Record t := mk { name : string; full_name : string; default_branch : string }.
End Repo.

Module TreeEntry.
Record t := mk { path : string; sha : string; type : string }.
End TreeEntry.

Record Octokit := { auth : option string }.

Definition createOctokit (token : option string) : Octokit := {| auth := token |}.

(** The three requests; each settles once, fulfilled or rejected.  The
    second and third take what [full_name.split('/')] destructures to, so a
    segment may be [undefined] ([None]). *)
Record GitHub := {
  listOrgRepos : Octokit → string → outcome (list Repo.t);
  getRepoTree : Octokit → option string → option string → string → outcome (list TreeEntry.t);
  getFileContent : Octokit → option string → option string → string → outcome string
}.

Inductive Call :=
  | CallListOrgRepos (org : string)
  | CallGetRepoTree (owner repo : option string) (branch : string)
  | CallGetFileContent (owner repo : option string) (path : string).

(** A use of [undefined] where an object is required: the property [key]
    of the value of the expression [object] is read or assigned, or the
    value of the expression is given to a function that needs an object,
    as [Object.keys] does. *)
Inductive Access :=
  | Reading (object key : string)
  | Assigning (object key : string)
  | Converting (object : string).

(** The surroundings of one process: the remote, the wall clock (its
    [n]-th reading), [Date.prototype.toISOString], and the [TypeError] the
    engine raises for a use of [undefined] as an object: its message names
    the key, and differs from one engine to another. *)
Record World := {
  github : GitHub;
  clock : nat → Z;
  toISOString : Z → string;
  typeError : Access → Error.t
}.

(** ** The machine *)

(** [mem] is the memory that holds the store under construction: the
    store itself in the value model, a heap and a reference into it in
    the reference model. *)
Record Machine (S : Type) := {
  mem : S;
  results : list ScrapedFile.t;
  totalFetched : nat;
  totalSkipped : nat;
  totalFiles : nat;
  progress : list ScrapeProgress.t;
  console : list string;
  calls : list Call;
  reads : nat
}.
Arguments mem {S} _.
Arguments results {S} _.
Arguments totalFetched {S} _.
Arguments totalSkipped {S} _.
Arguments totalFiles {S} _.
Arguments progress {S} _.
Arguments console {S} _.
Arguments calls {S} _.
Arguments reads {S} _.

Definition Eff (S A : Type) : Type := Machine S → outcome A * Machine S.

Declare Scope eff_scope.
Delimit Scope eff_scope with eff.

Section Monad.
Context {S : Type}.

Definition ret {A} (a : A) : Eff S A := λ m, (Return a, m).

Definition bind {A B} (c : Eff S A) (k : A → Eff S B) : Eff S B := λ m,
  match c m with
  | (Return a, m') => k a m'
  | (Throw e, m') => (Throw e, m')
  end.

Definition throw {A} (e : Error.t) : Eff S A := λ m, (Throw e, m).

Definition try_catch {A} (body : Eff S A) (handler : Error.t → Eff S A) : Eff S A := λ m,
  match body m with
  | (Return a, m') => (Return a, m')
  | (Throw e, m') => handler e m'
  end.

Definition modify (f : Machine S → Machine S) : Eff S unit := λ m, (Return tt, f m).

Definition gets {A} (f : Machine S → A) : Eff S A := λ m, (Return (f m), m).

(** Resume with the settled value of a promise. *)
Definition await {A} (p : outcome A) : Eff S A := λ m, (p, m).
End Monad.

Notation "x ← y ; z" := (bind y (λ x, z))
  (at level 20, y at level 100, z at level 200, only parsing) : eff_scope.
Notation "x ;; z" := (bind x (λ _, z))
  (at level 100, z at level 200, only parsing, right associativity) : eff_scope.
Local Open Scope eff_scope.

(** [for (const x of l) body] *)
Fixpoint for_of {S A} (l : list A) (body : A → Eff S unit) : Eff S unit :=
  match l with
  | [] => ret tt
  | x :: l' => body x ;; for_of l' body
  end.

(** *** Field updates *)

Section Updates.
Context {S : Type}.
Implicit Type m : Machine S.

Definition set_mem {S'} (f : S → S') m : Machine S' :=
  {| mem := f (mem m); results := results m;
     totalFetched := totalFetched m; totalSkipped := totalSkipped m;
     totalFiles := totalFiles m; progress := progress m;
     console := console m; calls := calls m; reads := reads m |}.

Definition set_results (f : list ScrapedFile.t → list ScrapedFile.t) m : Machine S :=
  {| mem := mem m; results := f (results m);
     totalFetched := totalFetched m; totalSkipped := totalSkipped m;
     totalFiles := totalFiles m; progress := progress m;
     console := console m; calls := calls m; reads := reads m |}.

Definition set_totalFetched (f : nat → nat) m : Machine S :=
  {| mem := mem m; results := results m;
     totalFetched := f (totalFetched m); totalSkipped := totalSkipped m;
     totalFiles := totalFiles m; progress := progress m;
     console := console m; calls := calls m; reads := reads m |}.

Definition set_totalSkipped (f : nat → nat) m : Machine S :=
  {| mem := mem m; results := results m;
     totalFetched := totalFetched m; totalSkipped := f (totalSkipped m);
     totalFiles := totalFiles m; progress := progress m;
     console := console m; calls := calls m; reads := reads m |}.

Definition set_totalFiles (f : nat → nat) m : Machine S :=
  {| mem := mem m; results := results m;
     totalFetched := totalFetched m; totalSkipped := totalSkipped m;
     totalFiles := f (totalFiles m); progress := progress m;
     console := console m; calls := calls m; reads := reads m |}.

Definition set_progress (f : list ScrapeProgress.t → list ScrapeProgress.t) m : Machine S :=
  {| mem := mem m; results := results m;
     totalFetched := totalFetched m; totalSkipped := totalSkipped m;
     totalFiles := totalFiles m; progress := f (progress m);
     console := console m; calls := calls m; reads := reads m |}.

Definition set_console (f : list string → list string) m : Machine S :=
  {| mem := mem m; results := results m;
     totalFetched := totalFetched m; totalSkipped := totalSkipped m;
     totalFiles := totalFiles m; progress := progress m;
     console := f (console m); calls := calls m; reads := reads m |}.

Definition set_calls (f : list Call → list Call) m : Machine S :=
  {| mem := mem m; results := results m;
     totalFetched := totalFetched m; totalSkipped := totalSkipped m;
     totalFiles := totalFiles m; progress := progress m;
     console := console m; calls := f (calls m); reads := reads m |}.

Definition set_reads (f : nat → nat) m : Machine S :=
  {| mem := mem m; results := results m;
     totalFetched := totalFetched m; totalSkipped := totalSkipped m;
     totalFiles := totalFiles m; progress := progress m;
     console := console m; calls := calls m; reads := f (reads m) |}.
End Updates.

(** ** Effects shared by both models *)

Section Effects.
Context {S : Type}.
Variable w : World.
Variable config : ScrapeConfig.t.

(** [emit]: the defaults [fetched: 0, skipped: 0, total: 0] are
    overridden by the fields present in [p]; nothing happens when no
    callback was supplied ([onProgress?.(...)]). *)
Definition emit (p : PartialProgress.t) : Eff S unit :=
  modify (λ m,
    if ScrapeConfig.onProgress config then
      set_progress (λ l, l ++ [
        {| ScrapeProgress.phase := PartialProgress.phase p;
           ScrapeProgress.repo := PartialProgress.repo p;
           ScrapeProgress.fetched := default 0 (PartialProgress.fetched p);
           ScrapeProgress.skipped := default 0 (PartialProgress.skipped p);
           ScrapeProgress.total := default 0 (PartialProgress.total p);
           ScrapeProgress.message := PartialProgress.message p |} ]) m
    else m).

(** [Date.now()] and [new Date()] read the wall clock. *)
Definition Date_now : Eff S Z := λ m,
  (Return (clock w (reads m)), set_reads Datatypes.S m).

(** [console.warn] *)
Definition console_warn (line : string) : Eff S unit :=
  modify (set_console (λ l, l ++ [line])).

(** A request to the [github] module: recorded, then awaited. *)
Definition request {A} (c : Call) (p : outcome A) : Eff S A :=
  modify (set_calls (λ l, l ++ [c])) ;; await p.
End Effects.

(** [s.split("/")]: never empty; an empty segment for each leading,
    trailing or doubled separator. *)
Fixpoint split (sep : Ascii.ascii) (s : string) : list string :=
  match s with
  | EmptyString => [EmptyString]
  | String c s' =>
      if decide (c = sep) then EmptyString :: split sep s'
      else match split sep s' with
           | seg :: segs => String c seg :: segs
           | [] => [String c EmptyString]
           end
  end.

(** [const [owner, repoName] = s.split("/")] *)
Definition destructure_full_name (s : string) : option string * option string :=
  let segments := split "/"%char s in (segments !! 0%nat, segments !! 1%nat).

(** ** The engine on stores as values *)

(** [prevState.repos[full_name]?.files[path]] *)
Definition lookup_prev (prevState : ScrapeState.t) (full_name path : string)
  : option FileEntry.t :=
  ScrapeState.repos prevState !! full_name ≫= λ cache, RepoCache.files cache !! path.

(** [prevEntry?.sha === file.sha] *)
Definition same_sha (prevEntry : option FileEntry.t) (file : TreeEntry.t) : bool :=
  bool_decide (FileEntry.sha <$> prevEntry = Some (TreeEntry.sha file)).

(** The [TypeError] of reading [files] of a bucket that is [undefined]. *)
Definition files_undefined (w : World) : Error.t :=
  typeError w (Reading "newState.repos[repo.full_name]" "files").

(** The store after [st.repos[full_name] = { files: {} }]. *)
Definition bucket_added (full_name : string) (st : ScrapeState.t) : ScrapeState.t :=
  {| ScrapeState.repos :=
       <[full_name := {| RepoCache.files := ∅ |}]> (ScrapeState.repos st);
     ScrapeState.lastScrape := ScrapeState.lastScrape st |}.

(** The store after [st.repos[full_name].files[path] = entry]: the
    bucket is updated in place. *)
Definition put (full_name path : string) (entry : FileEntry.t) (st : ScrapeState.t)
  : ScrapeState.t :=
  {| ScrapeState.repos :=
       alter (λ cache,
                {| RepoCache.files := <[path := entry]> (RepoCache.files cache) |})
             full_name (ScrapeState.repos st);
     ScrapeState.lastScrape := ScrapeState.lastScrape st |}.

Section Engine.
Variable w : World.
Variable config : ScrapeConfig.t.
Variable prevState : ScrapeState.t.

Local Abbreviation M := (Eff ScrapeState.t).

(** [emit({ phase, repo, fetched: totalFetched, skipped: totalSkipped,
    total: totalFiles, message })] *)
Definition emit_totals {S} (phase : Phase.t) (repo message : option string)
  : Eff S unit := λ m,
  emit config
    {| PartialProgress.phase := phase;
       PartialProgress.repo := repo;
       PartialProgress.fetched := Some (totalFetched m);
       PartialProgress.skipped := Some (totalSkipped m);
       PartialProgress.total := Some (totalFiles m);
       PartialProgress.message := message |} m.

(** [newState.repos[full_name] = { files: {} }] *)
Definition new_bucket (full_name : string) : M unit :=
  modify (set_mem (bucket_added full_name)).

(** The target of the assignment of line 62,
    [newState.repos[full_name].files]: reading [files] of a missing
    bucket is a [TypeError]. *)
Definition bucket_files (full_name : string) : M (gmap string FileEntry.t) := λ m,
  match ScrapeState.repos (mem m) !! full_name with
  | Some cache => (Return (RepoCache.files cache), m)
  | None => (Throw (files_undefined w), m)
  end.

(** [newState.repos[full_name].files[path] = entry], in place. *)
Definition put_entry (full_name path : string) (entry : FileEntry.t) : M unit :=
  modify (set_mem (put full_name path entry)).

(** The right-hand side of [lastFetched:] on line 64. *)
Definition lastFetched_of {S} (prevEntry : option FileEntry.t) (file : TreeEntry.t)
  : Eff S Z :=
  if same_sha prevEntry file then
    match prevEntry ≫= FileEntry.lastFetched with
    | Some stamp => ret stamp
    | None => Date_now w
    end
  else Date_now w.

(** What follows the store update in the body of the file loop (lines
    67 to 88); it is the same in both models. *)
Definition fetch_or_skip {S} (octokit : Octokit) (repo : Repo.t)
    (owner repoName : option string) (file : TreeEntry.t)
    (prevEntry : option FileEntry.t) : Eff S unit :=
  let full_name := Repo.full_name repo in
  let path := TreeEntry.path file in
  if same_sha prevEntry file then
    modify (set_totalSkipped Datatypes.S) ;;
    emit_totals Phase.files (Some full_name) None
  else
    emit_totals Phase.files (Some full_name)
      (Some ("Fetching " +:+ full_name +:+ "/" +:+ path)) ;;
    try_catch
      (content ← request (CallGetFileContent owner repoName path)
                   (getFileContent (github w) octokit owner repoName path);
       modify (set_results (λ l, l ++ [
         {| ScrapedFile.repo := full_name; ScrapedFile.path := path;
            ScrapedFile.content := content;
            ScrapedFile.sha := TreeEntry.sha file |} ])) ;;
       modify (set_totalFetched Datatypes.S))
      (λ err,
         console_warn ("Failed to fetch " +:+ full_name +:+ "/" +:+ path
                       +:+ ": " +:+ Error.message err)).

(** The body of [for (const file of mdFiles)]. *)
Definition scrapeFile (octokit : Octokit) (repo : Repo.t)
    (owner repoName : option string) (file : TreeEntry.t) : M unit :=
  let full_name := Repo.full_name repo in
  let path := TreeEntry.path file in
  let prevEntry := lookup_prev prevState full_name path in
  _ ← bucket_files full_name;
  lastFetched ← lastFetched_of prevEntry file;
  put_entry full_name path
    {| FileEntry.sha := TreeEntry.sha file;
       FileEntry.lastFetched := Some lastFetched |} ;;
  fetch_or_skip octokit repo owner repoName file prevEntry.

(** [try { mdFiles = await getRepoTree(...) } catch (err) { warn; continue }]:
    [None] stands for the [continue]. *)
Definition list_tree {S} (octokit : Octokit) (repo : Repo.t)
    (owner repoName : option string) : Eff S (option (list TreeEntry.t)) :=
  try_catch
    (mdFiles ← request (CallGetRepoTree owner repoName (Repo.default_branch repo))
                 (getRepoTree (github w) octokit owner repoName
                    (Repo.default_branch repo));
     ret (Some mdFiles))
    (λ err,
       console_warn ("Skipping " +:+ Repo.full_name repo +:+ ": "
                     +:+ Error.message err) ;;
       ret None).

(** The body of [for (const repo of repos)]. *)
Definition scrapeRepo (octokit : Octokit) (repo : Repo.t) : M unit :=
  let full_name := Repo.full_name repo in
  let '(owner, repoName) := destructure_full_name full_name in
  emit_totals Phase.tree (Some full_name) None ;;
  listing ← list_tree octokit repo owner repoName;
  match listing with
  | None => ret tt
  | Some mdFiles =>
      modify (set_totalFiles (λ n, n + length mdFiles)) ;;
      new_bucket full_name ;;
      for_of mdFiles (scrapeFile octokit repo owner repoName)
  end.

(** [repoFilter ? allRepos.filter((r) => repoFilter.test(r.name)) : allRepos] *)
Definition retained (allRepos : list Repo.t) : list Repo.t :=
  match ScrapeConfig.repoFilter config with
  | Some test => List.filter (λ r, test (Repo.name r)) allRepos
  | None => allRepos
  end.

(** Lines 30 to 41, the declarations of the locals. *)
Definition init_locals {S S'} (store : S') (m : Machine S) : Machine S' :=
  {| mem := store; results := [];
     totalFetched := 0; totalSkipped := 0; totalFiles := 0;
     progress := progress m; console := console m;
     calls := calls m; reads := reads m |}.

Definition scrapeOrg : M (list ScrapedFile.t * ScrapeState.t) :=
  let org := ScrapeConfig.org config in
  let octokit := createOctokit (ScrapeConfig.token config) in
  now ← Date_now w;
  modify (init_locals
    {| ScrapeState.repos := ∅;
       ScrapeState.lastScrape := Some (toISOString w now) |}) ;;
  emit config
    {| PartialProgress.phase := Phase.repos;
       PartialProgress.repo := None;
       PartialProgress.fetched := None;
       PartialProgress.skipped := None;
       PartialProgress.total := None;
       PartialProgress.message :=
         Some ("Listing repositories for " +:+ org +:+ "…") |} ;;
  allRepos ← request (CallListOrgRepos org) (listOrgRepos (github w) octokit org);
  for_of (retained allRepos) (scrapeRepo octokit) ;;
  emit_totals Phase.done None None ;;
  files ← gets results;
  state ← gets mem;
  ret (files, state).
End Engine.

(** A process that has read its clock [n] times and done nothing else. *)
Definition boot {S} (store : S) (n : nat) : Machine S :=
  {| mem := store; results := [];
     totalFetched := 0; totalSkipped := 0; totalFiles := 0;
     progress := []; console := []; calls := []; reads := n |}.

(** The default of the second parameter, [{ repos: {} }]. *)
Definition empty_state : ScrapeState.t :=
  {| ScrapeState.repos := ∅; ScrapeState.lastScrape := None |}.

(** One run of [scrapeOrg] in a fresh process. *)
Definition run (w : World) (config : ScrapeConfig.t) (prevState : ScrapeState.t)
    (n : nat) : outcome (list ScrapedFile.t * ScrapeState.t) * Machine ScrapeState.t :=
  scrapeOrg w config prevState (boot empty_state n).

(** * The engine on stores as objects

    Both stores now live in a heap of objects reached through references,
    as in the running program: the previous store is whatever object graph
    the caller passes, and [newState] is built by allocating objects and
    assigning properties in place. *)

Module Ref.

Definition loc := positive.

(** The four kinds of object of a store.  A [Record<string, _>] is a
    dictionary from property names to references. *)
Inductive obj :=
  | OState (repos : loc) (lastScrape : option string)
  | ODict (props : gmap string loc)
  | OCache (files : loc)
  | OEntry (sha : string) (lastFetched : option Z).

(** The object a property of [o] refers to.  [None] is [undefined]; it
    also stands for the properties that hold a string or a number
    ([lastScrape], [sha], [lastFetched]), which no key read here names. *)
Definition property (o : obj) (key : string) : option loc :=
  match o with
  | ODict props => props !! key
  | OState repos _ => if decide (key = "repos") then Some repos else None
  | OCache files => if decide (key = "files") then Some files else None
  | OEntry _ _ => None
  end.

Section Objects.
Variable w : World.
Implicit Type m : Machine (gmap loc obj).

(** An object literal: a new object at a reference not in use. *)
Definition alloc (o : obj) : Eff (gmap loc obj) loc := λ m,
  let l := fresh (dom (mem m)) in
  (Return l, set_mem (λ h, <[l := o]> h) m).

(** [o.repos], of an object: [None] is [undefined]. *)
Definition get_repos (l : loc) : Eff (gmap loc obj) (option loc) := λ m,
  (Return (mem m !! l ≫= λ o, property o "repos"), m).

(** [o.files], of an object. *)
Definition get_files (l : loc) : Eff (gmap loc obj) (option loc) := λ m,
  (Return (mem m !! l ≫= λ o, property o "files"), m).

(** [o[key]], where [o] is the value of the expression [object]: reading
    a property of [undefined] raises the [TypeError] of the engine. *)
Definition get_prop (object : string) (o : option loc) (key : string)
  : Eff (gmap loc obj) (option loc) := λ m,
  match o with
  | Some l => (Return (mem m !! l ≫= λ o, property o key), m)
  | None => (Throw (typeError w (Reading object key)), m)
  end.

(** [o[key] = v], in place, where [o] is the value of the expression
    [object].  The engine assigns to the dictionaries of the new store
    only; an assignment to [undefined] raises a [TypeError]. *)
Definition set_prop (object : string) (o : option loc) (key : string) (v : loc)
  : Eff (gmap loc obj) unit := λ m,
  match o with
  | Some l =>
      match mem m !! l with
      | Some (ODict props) =>
          (Return tt, set_mem (λ h, <[l := ODict (<[key := v]> props)]> h) m)
      | _ => (Throw (typeError w (Assigning object key)), m)
      end
  | None => (Throw (typeError w (Assigning object key)), m)
  end.

(** The fields of an entry: [e?.sha] and [e.lastFetched].  An object
    without [sha] compares as no entry does. *)
Definition read_entry (e : option loc) : Eff (gmap loc obj) (option FileEntry.t) := λ m,
  match e ≫= λ l, mem m !! l with
  | Some (OEntry sha lastFetched) =>
      (Return (Some {| FileEntry.sha := sha;
                       FileEntry.lastFetched := lastFetched |}), m)
  | _ => (Return None, m)
  end.
End Objects.

Section Engine.
Variable w : World.
Variable config : ScrapeConfig.t.
Variable prevState : loc.
Variable newState : loc.

(** [prevState.repos[full_name]?.files[path]] *)
Definition lookup_prev (full_name path : string) : Eff (gmap loc obj) (option loc) :=
  repos ← get_repos prevState;
  cache ← get_prop w "prevState.repos" repos full_name;
  match cache with
  | None => ret None
  | Some cache =>
      files ← get_files cache;
      get_prop w "prevState.repos[repo.full_name]?.files" files path
  end.

(** [newState.repos[full_name] = { files: {} }] *)
Definition new_bucket (full_name : string) : Eff (gmap loc obj) unit :=
  repos ← get_repos newState;
  files ← alloc (ODict ∅);
  cache ← alloc (OCache files);
  set_prop w "newState.repos" repos full_name cache.

(** The target of the assignment of line 62,
    [newState.repos[full_name].files]. *)
Definition bucket_files (full_name : string) : Eff (gmap loc obj) (option loc) :=
  repos ← get_repos newState;
  cache ← get_prop w "newState.repos" repos full_name;
  match cache with
  | None => throw (files_undefined w)
  | Some cache => get_files cache
  end.

(** The body of [for (const file of mdFiles)].  The fields of [prevEntry]
    are read where the source reads them: on line 64, before the
    assignment, and on line 67, after it. *)
Definition scrapeFile (octokit : Octokit) (repo : Repo.t)
    (owner repoName : option string) (file : TreeEntry.t) : Eff (gmap loc obj) unit :=
  let full_name := Repo.full_name repo in
  let path := TreeEntry.path file in
  prevEntry ← lookup_prev full_name path;
  target ← bucket_files full_name;
  before ← read_entry prevEntry;
  lastFetched ← lastFetched_of w before file;
  entry ← alloc (OEntry (TreeEntry.sha file) (Some lastFetched));
  set_prop w "newState.repos[repo.full_name].files" target path entry ;;
  after ← read_entry prevEntry;
  fetch_or_skip w config octokit repo owner repoName file after.

(** The body of [for (const repo of repos)]. *)
Definition scrapeRepo (octokit : Octokit) (repo : Repo.t) : Eff (gmap loc obj) unit :=
  let full_name := Repo.full_name repo in
  let '(owner, repoName) := destructure_full_name full_name in
  emit_totals config Phase.tree (Some full_name) None ;;
  listing ← list_tree w octokit repo owner repoName;
  match listing with
  | None => ret tt
  | Some mdFiles =>
      modify (set_totalFiles (λ n, n + length mdFiles)) ;;
      new_bucket full_name ;;
      for_of mdFiles (scrapeFile octokit repo owner repoName)
  end.
End Engine.

(** [scrapeOrg]: it returns the files and the reference [newState]. *)
Definition scrapeOrg (w : World) (config : ScrapeConfig.t) (prevState : loc)
  : Eff (gmap loc obj) (list ScrapedFile.t * loc) :=
  let org := ScrapeConfig.org config in
  let octokit := createOctokit (ScrapeConfig.token config) in
  repos ← alloc (ODict ∅);
  now ← Date_now w;
  newState ← alloc (OState repos (Some (toISOString w now)));
  modify (λ m, init_locals (mem m) m) ;;
  emit config
    {| PartialProgress.phase := Phase.repos;
       PartialProgress.repo := None;
       PartialProgress.fetched := None;
       PartialProgress.skipped := None;
       PartialProgress.total := None;
       PartialProgress.message :=
         Some ("Listing repositories for " +:+ org +:+ "…") |} ;;
  allRepos ← request (CallListOrgRepos org) (listOrgRepos (github w) octokit org);
  for_of (retained config allRepos) (scrapeRepo w config prevState newState octokit) ;;
  emit_totals config Phase.done None None ;;
  files ← gets results;
  ret (files, newState).

(** One run in a fresh process whose heap is [h]. *)
Definition run (w : World) (config : ScrapeConfig.t) (prevState : loc)
    (h : gmap loc obj) (n : nat)
  : outcome (list ScrapedFile.t * loc) * Machine (gmap loc obj) :=
  scrapeOrg w config prevState (boot h n).

(** ** Reading a store off the heap *)

(** [l] holds the entry [v]. *)
Definition rep_entry (h : gmap loc obj) (l : loc) (v : FileEntry.t) : Prop :=
  h !! l = Some (OEntry (FileEntry.sha v) (FileEntry.lastFetched v)).

(** [l] holds a bucket whose dictionary has the paths of [cache], each
    referring to its entry. *)
Definition rep_cache (h : gmap loc obj) (l : loc) (cache : RepoCache.t) : Prop :=
  ∃ files props,
    h !! l = Some (OCache files) ∧ h !! files = Some (ODict props) ∧
    map_Forall2 (λ _, rep_entry h) props (RepoCache.files cache).

(** [l] holds the store [st]. *)
Definition rep_state (h : gmap loc obj) (l : loc) (st : ScrapeState.t) : Prop :=
  ∃ repos props,
    h !! l = Some (OState repos (ScrapeState.lastScrape st)) ∧
    h !! repos = Some (ODict props) ∧
    map_Forall2 (λ _, rep_cache h) props (ScrapeState.repos st).

(** [l] is one of the objects of the bucket at [c]: the bucket, its
    dictionary, or one of its entries. *)
Definition in_cache (h : gmap loc obj) (c l : loc) : Prop :=
  l = c ∨
  ∃ files, h !! c = Some (OCache files) ∧
    (l = files ∨
     ∃ props path, h !! files = Some (ODict props) ∧ props !! path = Some l).

(** [l] is one of the objects of the store at [s]. *)
Definition in_store (h : gmap loc obj) (s l : loc) : Prop :=
  l = s ∨
  ∃ repos lastScrape, h !! s = Some (OState repos lastScrape) ∧
    (l = repos ∨
     ∃ props full_name c,
       h !! repos = Some (ODict props) ∧ props !! full_name = Some c ∧
       in_cache h c l).

(** ** The new store is made of fresh objects, none of them shared *)

Definition new_entry (h0 h : gmap loc obj) (l : loc) (v : FileEntry.t) : Prop :=
  (l ∉ dom h0) ∧ rep_entry h l v.

Definition new_cache (h0 h : gmap loc obj) (repos l : loc) (cache : RepoCache.t) : Prop :=
  (l ∉ dom h0) ∧
  ∃ files props,
    h !! l = Some (OCache files) ∧ (files ∉ dom h0) ∧ files ≠ repos ∧
    h !! files = Some (ODict props) ∧
    map_Forall2 (λ _, new_entry h0 h) props (RepoCache.files cache).

(** No two buckets of a dictionary have the same [files] object. *)
Definition unshared (h : gmap loc obj) (props : gmap string loc) : Prop :=
  ∀ k1 k2 c1 c2 files,
    props !! k1 = Some c1 → props !! k2 = Some c2 →
    h !! c1 = Some (OCache files) → h !! c2 = Some (OCache files) → k1 = k2.

Definition new_state (h0 h : gmap loc obj) (s : loc) (st : ScrapeState.t) : Prop :=
  (s ∉ dom h0) ∧
  ∃ repos props,
    h !! s = Some (OState repos (ScrapeState.lastScrape st)) ∧
    (repos ∉ dom h0) ∧ h !! repos = Some (ODict props) ∧
    map_Forall2 (λ _, new_cache h0 h repos) props (ScrapeState.repos st) ∧
    unshared h props.

(** The invariant of a run: the heap [h0] the run started from is intact,
    and [s] holds the store [st] under construction, in fresh objects. *)
Record inv (h0 : gmap loc obj) (s : loc) (st : ScrapeState.t) (h : gmap loc obj)
  : Prop := {
  inv_frame : h0 ⊆ h;
  inv_new : new_state h0 h s st
}.

(** ** The two models differ in memory only *)

(** The machine [m] with its memory replaced by [h]. *)
Definition with_mem {S S'} (h : S') (m : Machine S) : Machine S' :=
  set_mem (λ _, h) m.

Section Prefix.
Context {S : Type}.
Variable w : World.
Variable config : ScrapeConfig.t.

(** Lines 46 to 56: what precedes the new bucket; it does not touch the
    memory. *)
Definition repo_prefix (octokit : Octokit) (repo : Repo.t)
    (owner repoName : option string) : Eff S (option (list TreeEntry.t)) :=
  emit_totals config Phase.tree (Some (Repo.full_name repo)) None ;;
  listing ← list_tree w octokit repo owner repoName;
  match listing with
  | None => ret None
  | Some mdFiles =>
      modify (set_totalFiles (λ n, n + length mdFiles)) ;; ret (Some mdFiles)
  end.

End Prefix.

(** The heap and the reference [newState] when the repository listing
    settles: two objects have been allocated. *)
Definition started_repos (h0 : gmap loc obj) : loc := fresh (dom h0).

Definition started_newState (h0 : gmap loc obj) : loc :=
  fresh (dom (<[started_repos h0 := ODict ∅]> h0)).

Definition started_heap (w : World) (h0 : gmap loc obj) (n : nat) : gmap loc obj :=
  <[started_newState h0 :=
      OState (started_repos h0) (Some (toISOString w (clock w n)))]>
    (<[started_repos h0 := ODict ∅]> h0).

End Ref.

(** * What the claims speak about *)

(** The tree listing the engine asks for a repository. *)
Definition tree_of (w : World) (octokit : Octokit) (repo : Repo.t)
  : outcome (list TreeEntry.t) :=
  let '(owner, repoName) := destructure_full_name (Repo.full_name repo) in
  getRepoTree (github w) octokit owner repoName (Repo.default_branch repo).

(** The content the engine asks for a file of a repository. *)
Definition content_of (w : World) (octokit : Octokit) (repo : Repo.t)
    (file : TreeEntry.t) : outcome string :=
  let '(owner, repoName) := destructure_full_name (Repo.full_name repo) in
  getFileContent (github w) octokit owner repoName (TreeEntry.path file).

Definition content_call (repo : Repo.t) (file : TreeEntry.t) : Call :=
  let '(owner, repoName) := destructure_full_name (Repo.full_name repo) in
  CallGetFileContent owner repoName (TreeEntry.path file).

(** The bucket [P] of a repository in a store (empty when it has none). *)
Definition bucket (st : ScrapeState.t) (full_name : string) : gmap string FileEntry.t :=
  default ∅ (RepoCache.files <$> ScrapeState.repos st !! full_name).

(** [path(t) ∉ P ∨ P[path(t)].fingerprint ≠ fingerprint(t)] *)
Definition to_fetch (P : gmap string FileEntry.t) (t : TreeEntry.t) : Prop :=
  P !! TreeEntry.path t = None ∨
  ∃ e, P !! TreeEntry.path t = Some e ∧ FileEntry.sha e ≠ TreeEntry.sha t.

#[global] Instance to_fetch_dec P t : Decision (to_fetch P t).
Proof.
  unfold to_fetch. destruct (P !! TreeEntry.path t) as [e|].
  - destruct (decide (FileEntry.sha e = TreeEntry.sha t)) as [Heq|Hne].
    + right. intros [?|(e' & [= <-] & ?)]; done.
    + left. right. eauto.
  - left. by left.
Defined.

(** The entries walked by a run, in order: those of every retained
    repository whose tree listing was fulfilled. *)
Definition walked (w : World) (octokit : Octokit) (repos : list Repo.t)
  : list (Repo.t * TreeEntry.t) :=
  flat_map (λ repo,
    match tree_of w octokit repo with
    | Return mdFiles => pair repo <$> mdFiles
    | Throw _ => []
    end) repos.

(** The record a walked entry contributes to the output, if any. *)
Definition record_of (w : World) (octokit : Octokit) (prevState : ScrapeState.t)
    (rt : Repo.t * TreeEntry.t) : list ScrapedFile.t :=
  let '(repo, t) := rt in
  if decide (to_fetch (bucket prevState (Repo.full_name repo)) t) then
    match content_of w octokit repo t with
    | Return content =>
        [ {| ScrapedFile.repo := Repo.full_name repo;
             ScrapedFile.path := TreeEntry.path t;
             ScrapedFile.content := content;
             ScrapedFile.sha := TreeEntry.sha t |} ]
    | Throw _ => []
    end
  else [].

(** The content request a walked entry gives rise to, if any. *)
Definition request_of (prevState : ScrapeState.t) (rt : Repo.t * TreeEntry.t)
  : list Call :=
  let '(repo, t) := rt in
  if decide (to_fetch (bucket prevState (Repo.full_name repo)) t)
  then [content_call repo t] else [].

Definition is_content_call (c : Call) : bool :=
  match c with CallGetFileContent _ _ _ => true | _ => false end.

(** The time stamp the new store gives an entry: carried from the
    previous entry, or a reading of the clock with index in [lo, hi). *)
Inductive stamp_of (w : World) (prevEntry : option FileEntry.t) (t : TreeEntry.t)
    (lo hi : nat) : Z → Prop :=
  | stamp_carried e stamp :
      prevEntry = Some e →
      FileEntry.sha e = TreeEntry.sha t →
      FileEntry.lastFetched e = Some stamp →
      stamp_of w prevEntry t lo hi stamp
  | stamp_fallback e k :
      prevEntry = Some e →
      FileEntry.sha e = TreeEntry.sha t →
      FileEntry.lastFetched e = None →
      lo ≤ k < hi →
      stamp_of w prevEntry t lo hi (clock w k)
  | stamp_now k :
      (∀ e, prevEntry = Some e → FileEntry.sha e ≠ TreeEntry.sha t) →
      lo ≤ k < hi →
      stamp_of w prevEntry t lo hi (clock w k).

(** Non-decreasing progress: a later event never reports less done, nor
    a smaller total. *)
Definition done_count (e : ScrapeProgress.t) : nat :=
  ScrapeProgress.fetched e + ScrapeProgress.skipped e.

Definition monotone (events : list ScrapeProgress.t) : Prop :=
  ∀ i j e1 e2, i ≤ j → events !! i = Some e1 → events !! j = Some e2 →
    done_count e1 ≤ done_count e2 ∧ ScrapeProgress.total e1 ≤ ScrapeProgress.total e2.

(** * What the steps of a run establish *)

Section FileStep.
Context {S : Type}.
Variable w : World.
Variable config : ScrapeConfig.t.
Variable prevState : ScrapeState.t.
Variable octokit : Octokit.
Implicit Type m : Machine S.

(** The event of a file step. *)
Definition file_event (repo : Repo.t) (fetched skipped total : nat)
    (message : option string) : ScrapeProgress.t :=
  {| ScrapeProgress.phase := Phase.files;
     ScrapeProgress.repo := Some (Repo.full_name repo);
     ScrapeProgress.fetched := fetched;
     ScrapeProgress.skipped := skipped;
     ScrapeProgress.total := total;
     ScrapeProgress.message := message |}.

Definition emitted (events : list ScrapeProgress.t) : list ScrapeProgress.t :=
  if ScrapeConfig.onProgress config then events else [].

(** What lines 67 to 88 do to the machine. *)
Record file_post (repo : Repo.t) (file : TreeEntry.t) (m m' : Machine S) : Prop := {
  file_results :
    results m' = results m ++ record_of w octokit prevState (repo, file);
  file_calls :
    calls m' = calls m ++ request_of prevState (repo, file);
  file_fetched :
    totalFetched m' =
    totalFetched m + length (record_of w octokit prevState (repo, file));
  file_skipped :
    totalSkipped m' = totalSkipped m +
      (if decide (to_fetch (bucket prevState (Repo.full_name repo)) file) then 0 else 1);
  file_total : totalFiles m' = totalFiles m;
  file_progress : ∃ message,
    progress m' = progress m ++
      emitted [file_event repo (totalFetched m) (totalSkipped m') (totalFiles m) message]
}.

End FileStep.

Section Log.
Context {S : Type}.
Implicit Type m : Machine S.

(** Every event so far reports no more than the counters hold now. *)
Definition bounded (m : Machine S) (e : ScrapeProgress.t) : Prop :=
  done_count e ≤ totalFetched m + totalSkipped m ∧
  ScrapeProgress.total e ≤ totalFiles m.

Definition mono_inv (m : Machine S) : Prop :=
  monotone (progress m) ∧ Forall (bounded m) (progress m).

End Log.

(** A walked entry whose fingerprint is the one the previous store has. *)
Definition unchanged (prevState : ScrapeState.t) (rt : Repo.t * TreeEntry.t) : Prop :=
  ¬ to_fetch (bucket prevState (Repo.full_name rt.1)) rt.2.

#[global] Instance unchanged_dec prevState rt : Decision (unchanged prevState rt).
Proof. unfold unchanged. apply _. Defined.

(** A walked entry that stands for the file [t] of [repo] as it was: the
    same repository, the same path and the same fingerprint. *)
Definition same_file (repo : Repo.t) (t : TreeEntry.t)
    (rt : Repo.t * TreeEntry.t) : Prop :=
  Repo.full_name rt.1 = Repo.full_name repo ∧
  TreeEntry.path rt.2 = TreeEntry.path t ∧
  TreeEntry.sha rt.2 = TreeEntry.sha t.

#[global] Instance same_file_dec repo t rt : Decision (same_file repo t rt).
Proof. unfold same_file. apply _. Defined.

Section TreeStep.
Variable w : World.
Variable config : ScrapeConfig.t.
Variable prevState : ScrapeState.t.
Variable octokit : Octokit.
Implicit Type m : Machine ScrapeState.t.

(** The entry the new store holds for [t]. *)
Definition entry_for (t : TreeEntry.t) (stamp : Z) : FileEntry.t :=
  {| FileEntry.sha := TreeEntry.sha t; FileEntry.lastFetched := Some stamp |}.

(** What holds after the file loop has visited the entries [pre] of
    [repo], having started in [m0]. *)
Record tree_post (repo : Repo.t) (m0 : Machine ScrapeState.t)
    (pre : list TreeEntry.t) (m : Machine ScrapeState.t) : Prop := {
  tree_results :
    results m = results m0 ++
      flat_map (record_of w octokit prevState) (pair repo <$> pre);
  tree_calls :
    calls m = calls m0 ++ flat_map (request_of prevState) (pair repo <$> pre);
  tree_fetched :
    totalFetched m = totalFetched m0 +
      length (flat_map (record_of w octokit prevState) (pair repo <$> pre));
  tree_skipped :
    totalSkipped m = totalSkipped m0 +
      length (filter (unchanged prevState) (pair repo <$> pre));
  tree_total : totalFiles m = totalFiles m0;
  tree_progress : ∃ events,
    progress m = progress m0 ++ emitted config events ∧
    Forall (λ e, ScrapeProgress.phase e = Phase.files ∧
                 ScrapeProgress.repo e = Some (Repo.full_name repo)) events;
  tree_mono : mono_inv m0 → mono_inv m;
  tree_reads : reads m0 ≤ reads m;
  tree_lastScrape :
    ScrapeState.lastScrape (mem m) = ScrapeState.lastScrape (mem m0);
  tree_others : ∀ other, other ≠ Repo.full_name repo →
    ScrapeState.repos (mem m) !! other = ScrapeState.repos (mem m0) !! other;
  tree_bucket : ∃ cache,
    ScrapeState.repos (mem m) !! Repo.full_name repo = Some cache ∧
    dom (RepoCache.files cache) = list_to_set (TreeEntry.path <$> pre) ∧
    (NoDup (TreeEntry.path <$> pre) → ∀ t, t ∈ pre → ∃ stamp,
       RepoCache.files cache !! TreeEntry.path t = Some (entry_for t stamp) ∧
       stamp_of w (lookup_prev prevState (Repo.full_name repo) (TreeEntry.path t))
         t (reads m0) (reads m) stamp)
}.

End TreeStep.

Definition tree_call (repo : Repo.t) : Call :=
  let '(owner, repoName) := destructure_full_name (Repo.full_name repo) in
  CallGetRepoTree owner repoName (Repo.default_branch repo).

(** The requests of the repository loop, in order. *)
Definition calls_of (w : World) (octokit : Octokit) (prevState : ScrapeState.t)
    (repos : list Repo.t) : list Call :=
  flat_map (λ repo,
    tree_call repo :: flat_map (request_of prevState) (walked w octokit [repo])) repos.

Section OrgStep.
Variable w : World.
Variable config : ScrapeConfig.t.
Variable prevState : ScrapeState.t.
Variable octokit : Octokit.
Implicit Type m : Machine ScrapeState.t.

(** What holds after the repository loop has visited [pre], having
    started in [m0]. *)
Record org_post (m0 : Machine ScrapeState.t) (pre : list Repo.t)
    (m : Machine ScrapeState.t) : Prop := {
  org_results :
    results m = results m0 ++
      flat_map (record_of w octokit prevState) (walked w octokit pre);
  org_calls : calls m = calls m0 ++ calls_of w octokit prevState pre;
  org_fetched :
    totalFetched m = totalFetched m0 +
      length (flat_map (record_of w octokit prevState) (walked w octokit pre));
  org_skipped :
    totalSkipped m = totalSkipped m0 +
      length (filter (unchanged prevState) (walked w octokit pre));
  org_total : totalFiles m = totalFiles m0 + length (walked w octokit pre);
  org_progress : ∃ events,
    progress m = progress m0 ++ emitted config events ∧
    Forall (λ e,
      (ScrapeProgress.phase e = Phase.tree ∨ ScrapeProgress.phase e = Phase.files) ∧
      ∃ repo, repo ∈ pre ∧ ScrapeProgress.repo e = Some (Repo.full_name repo)) events;
  org_mono : mono_inv m0 → mono_inv m;
  org_reads : reads m0 ≤ reads m;
  org_lastScrape :
    ScrapeState.lastScrape (mem m) = ScrapeState.lastScrape (mem m0);
  org_absent : ∀ full_name,
    (∀ repo, repo ∈ pre → Repo.full_name repo = full_name →
       ∃ e, tree_of w octokit repo = Throw e) →
    ScrapeState.repos (mem m) !! full_name = ScrapeState.repos (mem m0) !! full_name;
  org_bucket :
    NoDup (Repo.full_name <$> pre) →
    ∀ repo mdFiles, repo ∈ pre → tree_of w octokit repo = Return mdFiles →
    ∃ cache,
      ScrapeState.repos (mem m) !! Repo.full_name repo = Some cache ∧
      dom (RepoCache.files cache) = list_to_set (TreeEntry.path <$> mdFiles) ∧
      (NoDup (TreeEntry.path <$> mdFiles) → ∀ t, t ∈ mdFiles → ∃ stamp,
         RepoCache.files cache !! TreeEntry.path t = Some (entry_for t stamp) ∧
         stamp_of w (lookup_prev prevState (Repo.full_name repo) (TreeEntry.path t))
           t (reads m0) (reads m) stamp)
}.

(** The tree event and the listing request. *)
Definition tree_event (repo : Repo.t) m : ScrapeProgress.t :=
  {| ScrapeProgress.phase := Phase.tree;
     ScrapeProgress.repo := Some (Repo.full_name repo);
     ScrapeProgress.fetched := totalFetched m;
     ScrapeProgress.skipped := totalSkipped m;
     ScrapeProgress.total := totalFiles m;
     ScrapeProgress.message := None |}.

Definition asked (repo : Repo.t) m : Machine ScrapeState.t :=
  set_calls (λ l, l ++ [tree_call repo])
    (set_progress (λ l, l ++ emitted config [tree_event repo m]) m).

Definition listed (repo : Repo.t) (mdFiles : list TreeEntry.t) m
  : Machine ScrapeState.t :=
  set_mem (λ st,
    {| ScrapeState.repos :=
         <[Repo.full_name repo := {| RepoCache.files := ∅ |}]> (ScrapeState.repos st);
       ScrapeState.lastScrape := ScrapeState.lastScrape st |})
    (set_totalFiles (λ n, n + length mdFiles) (asked repo m)).

End OrgStep.

Section RunPost.
Variable w : World.
Variable config : ScrapeConfig.t.
Variable prevState : ScrapeState.t.
Variable n : nat.

Local Abbreviation octokit := (createOctokit (ScrapeConfig.token config)).
Local Abbreviation org := (ScrapeConfig.org config).

Definition repos_event : ScrapeProgress.t :=
  {| ScrapeProgress.phase := Phase.repos;
     ScrapeProgress.repo := None;
     ScrapeProgress.fetched := 0;
     ScrapeProgress.skipped := 0;
     ScrapeProgress.total := 0;
     ScrapeProgress.message := Some ("Listing repositories for " +:+ org +:+ "…") |}.

Definition done_event (fetched skipped total : nat) : ScrapeProgress.t :=
  {| ScrapeProgress.phase := Phase.done;
     ScrapeProgress.repo := None;
     ScrapeProgress.fetched := fetched;
     ScrapeProgress.skipped := skipped;
     ScrapeProgress.total := total;
     ScrapeProgress.message := None |}.

(** The machine when the repository listing settles. *)
Definition started : Machine ScrapeState.t :=
  {| mem := {| ScrapeState.repos := ∅;
               ScrapeState.lastScrape := Some (toISOString w (clock w n)) |};
     results := [];
     totalFetched := 0; totalSkipped := 0; totalFiles := 0;
     progress := emitted config [repos_event];
     console := [];
     calls := [CallListOrgRepos org];
     reads := Datatypes.S n |}.

(** What a run that returns guarantees. *)
Record run_post (allRepos : list Repo.t) (files : list ScrapedFile.t)
    (st : ScrapeState.t) (m : Machine ScrapeState.t) : Prop := {
  run_files :
    files = flat_map (record_of w octokit prevState)
              (walked w octokit (retained config allRepos));
  run_calls :
    calls m = CallListOrgRepos org ::
              calls_of w octokit prevState (retained config allRepos);
  run_progress : ∃ events,
    progress m = emitted config
      (repos_event :: events ++
         [done_event (length files)
            (length (filter (unchanged prevState)
                       (walked w octokit (retained config allRepos))))
            (length (walked w octokit (retained config allRepos)))]) ∧
    Forall (λ e,
      (ScrapeProgress.phase e = Phase.tree ∨ ScrapeProgress.phase e = Phase.files) ∧
      ∃ repo, repo ∈ retained config allRepos ∧
              ScrapeProgress.repo e = Some (Repo.full_name repo)) events;
  run_monotone : monotone (progress m);
  run_reads : n < reads m;
  run_lastScrape :
    ScrapeState.lastScrape st = Some (toISOString w (clock w n));
  run_absent : ∀ full_name,
    (∀ repo, repo ∈ retained config allRepos → Repo.full_name repo = full_name →
       ∃ e, tree_of w octokit repo = Throw e) →
    ScrapeState.repos st !! full_name = None;
  run_bucket :
    NoDup (Repo.full_name <$> retained config allRepos) →
    ∀ repo mdFiles, repo ∈ retained config allRepos →
    tree_of w octokit repo = Return mdFiles →
    ∃ cache,
      ScrapeState.repos st !! Repo.full_name repo = Some cache ∧
      dom (RepoCache.files cache) = list_to_set (TreeEntry.path <$> mdFiles) ∧
      (NoDup (TreeEntry.path <$> mdFiles) → ∀ t, t ∈ mdFiles → ∃ stamp,
         RepoCache.files cache !! TreeEntry.path t = Some (entry_for t stamp) ∧
         stamp_of w (lookup_prev prevState (Repo.full_name repo) (TreeEntry.path t))
           t n (reads m) stamp)
}.

End RunPost.

Definition octokit_of (config : ScrapeConfig.t) : Octokit :=
  createOctokit (ScrapeConfig.token config).

(** The repositories a run walks. *)
Definition repos_of (w : World) (config : ScrapeConfig.t) : list Repo.t :=
  match listOrgRepos (github w) (octokit_of config) (ScrapeConfig.org config) with
  | Return allRepos => retained config allRepos
  | Throw _ => []
  end.

(** An event of the repository loop, or the closing one. *)
Definition loop_event (w : World) (config : ScrapeConfig.t) (e : ScrapeProgress.t) : Prop :=
  (ScrapeProgress.phase e = Phase.done ∧ ScrapeProgress.repo e = None) ∨
  ((ScrapeProgress.phase e = Phase.tree ∨ ScrapeProgress.phase e = Phase.files) ∧
   ∃ repo, repo ∈ repos_of w config ∧
           ScrapeProgress.repo e = Some (Repo.full_name repo)).

(** A repository of the listing whose short name passes the filter. *)
Definition matching (w : World) (config : ScrapeConfig.t) (test : string → bool)
    (full_name : string) : Prop :=
  ∃ allRepos repo,
    listOrgRepos (github w) (octokit_of config) (ScrapeConfig.org config)
      = Return allRepos ∧
    repo ∈ allRepos ∧ test (Repo.name repo) = true ∧
    Repo.full_name repo = full_name.

(** Every fulfilled tree listing has distinct paths. *)
Definition distinct_paths (w : World) (octokit : Octokit) (repos : list Repo.t) : Prop :=
  Forall (λ repo,
    match tree_of w octokit repo with
    | Return mdFiles => NoDup (TreeEntry.path <$> mdFiles)
    | Throw _ => True
    end) repos.

(** * A concrete organisation

    The fixtures of [scraper.test.ts]: two repositories, three Markdown
    files.  The switches make one of the three requests fail. *)

Definition digit (n : Z) : ascii := ascii_of_nat (48 + Z.to_nat (n `mod` 10)).

Definition two_digits (n : Z) : string :=
  String (digit (n / 10)) (String (digit n) "").

(** [toISOString] on the instants of 1 January 1970. *)
Definition iso_first_day (ms : Z) : string :=
  "1970-01-01T" +:+ two_digits (ms / 3600000) +:+ ":"
    +:+ two_digits ((ms / 60000) `mod` 60) +:+ ":"
    +:+ two_digits ((ms / 1000) `mod` 60) +:+ "."
    +:+ String (digit (ms / 100)) (two_digits ms) +:+ "Z".

Definition repo_a : Repo.t := Repo.mk "repo-a" "test-org/repo-a" "main".
Definition repo_b : Repo.t := Repo.mk "repo-b" "test-org/repo-b" "main".

Definition readme_a : TreeEntry.t := TreeEntry.mk "README.md" "sha-readme-a" "blob".
Definition guide_a : TreeEntry.t := TreeEntry.mk "docs/guide.md" "sha-guide-a" "blob".
Definition readme_b : TreeEntry.t := TreeEntry.mk "README.md" "sha-readme-b" "blob".

Definition test_github (list_fails tree_b_fails guide_fails : bool) : GitHub :=
  {| listOrgRepos := λ _ _,
       if list_fails then Throw (Error.mk "Not Found")
       else Return [repo_a; repo_b];
     getRepoTree := λ _ _ repo _,
       if decide (repo = Some "repo-a") then Return [readme_a; guide_a]
       else if tree_b_fails then Throw (Error.mk "Git Repository is empty.")
       else Return [readme_b];
     getFileContent := λ _ _ repo path,
       if guide_fails && bool_decide (path = "docs/guide.md")
       then Throw (Error.mk "Server Error")
       else Return ("# Content of " +:+ default "undefined" repo +:+ "/" +:+ path) |}.

(** The messages of one engine. *)
Definition test_typeError (a : Access) : Error.t :=
  match a with
  | Reading _ key =>
      Error.mk ("Cannot read properties of undefined (reading '" +:+ key +:+ "')")
  | Assigning _ key =>
      Error.mk ("Cannot set properties of undefined (setting '" +:+ key +:+ "')")
  | Converting _ => Error.mk "Cannot convert undefined or null to object"
  end.

Definition test_world (list_fails tree_b_fails guide_fails : bool) : World :=
  {| github := test_github list_fails tree_b_fails guide_fails;
     clock := λ k, (1000 * Z.of_nat k)%Z;
     toISOString := iso_first_day;
     typeError := test_typeError |}.

Definition test_config (repoFilter : option (string → bool)) : ScrapeConfig.t :=
  {| ScrapeConfig.org := "test-org";
     ScrapeConfig.token := None;
     ScrapeConfig.repoFilter := repoFilter;
     ScrapeConfig.onProgress := true |}.

(** The previous store of the second test: both files of [repo-a] cached
    with their current fingerprints (the second one without a time stamp,
    the case [??] guards), an empty bucket for [repo-b]. *)
Definition test_prevState : ScrapeState.t :=
  {| ScrapeState.repos :=
       {[ "test-org/repo-a" :=
            {| RepoCache.files :=
                 {[ "README.md" := FileEntry.mk "sha-readme-a" (Some 5%Z);
                    "docs/guide.md" := FileEntry.mk "sha-guide-a" None ]} |};
          "test-org/repo-b" := {| RepoCache.files := ∅ |} ]};
     ScrapeState.lastScrape := None |}.

Definition only_repo_a (name : string) : bool := bool_decide (name = "repo-a").

(** The previous store of P4: [repo-a] cached with a file the tree no
    longer lists. *)
Definition test_stale : ScrapeState.t :=
  {| ScrapeState.repos :=
       {[ "test-org/repo-a" :=
            {| RepoCache.files :=
                 {[ "README.md" := FileEntry.mk "sha-readme-a" (Some 5%Z);
                    "old/gone.md" := FileEntry.mk "sha-gone" (Some 6%Z) ]} |} ]};
     ScrapeState.lastScrape := None |}.

(** The previous store of the second test, as objects in a heap. *)
Definition test_heap : gmap Ref.loc Ref.obj :=
  {[ 1%positive := Ref.OState 2%positive None;
     2%positive := Ref.ODict {[ "test-org/repo-a" := 3%positive;
                                "test-org/repo-b" := 7%positive ]};
     3%positive := Ref.OCache 4%positive;
     4%positive := Ref.ODict {[ "README.md" := 5%positive;
                                "docs/guide.md" := 6%positive ]};
     5%positive := Ref.OEntry "sha-readme-a" (Some 5%Z);
     6%positive := Ref.OEntry "sha-guide-a" None;
     7%positive := Ref.OCache 8%positive;
     8%positive := Ref.ODict ∅ ]}.

(** The engine on stores as values, under the names the object model
    refers to it by. *)
Module Val.
Abbreviation lookup_prev := lookup_prev.
Abbreviation new_bucket := new_bucket.
Abbreviation bucket_files := bucket_files.
Abbreviation scrapeFile := scrapeFile.
Abbreviation scrapeRepo := scrapeRepo.
Abbreviation run := run.
End Val.

(** * More of [scrapeOrg]: requests, warnings and counters *)

(** The line given to [console.warn] when the tree listing of [repo] is
    rejected with [e] (line 52). *)
Definition skipping_line (repo : Repo.t) (e : Error.t) : string :=
  "Skipping " +:+ Repo.full_name repo +:+ ": " +:+ Error.message e.

(** The line given to [console.warn] when the content request of [t] is
    rejected with [e] (line 87). *)
Definition failed_line (repo : Repo.t) (t : TreeEntry.t) (e : Error.t) : string :=
  "Failed to fetch " +:+ Repo.full_name repo +:+ "/" +:+ TreeEntry.path t
    +:+ ": " +:+ Error.message e.

(** The warning a walked entry gives rise to, if any. *)
Definition file_warnings (w : World) (octokit : Octokit) (prevState : ScrapeState.t)
    (rt : Repo.t * TreeEntry.t) : list string :=
  let '(repo, t) := rt in
  if decide (to_fetch (bucket prevState (Repo.full_name repo)) t) then
    match content_of w octokit repo t with
    | Return _ => []
    | Throw e => [failed_line repo t e]
    end
  else [].

(** The warnings of one retained repository, in order. *)
Definition repo_warnings (w : World) (octokit : Octokit) (prevState : ScrapeState.t)
    (repo : Repo.t) : list string :=
  match tree_of w octokit repo with
  | Return mdFiles => flat_map (file_warnings w octokit prevState) (pair repo <$> mdFiles)
  | Throw e => [skipping_line repo e]
  end.

Definition is_tree_call (c : Call) : bool :=
  match c with CallGetRepoTree _ _ _ => true | _ => false end.

(** An event that reports no more files done than it knows of. *)
Definition within_total (e : ScrapeProgress.t) : Prop :=
  ScrapeProgress.fetched e + ScrapeProgress.skipped e ≤ ScrapeProgress.total e.

(** A walked entry that is new or changed and whose content request is
    rejected. *)
Definition fetch_failed (w : World) (octokit : Octokit) (prevState : ScrapeState.t)
    (rt : Repo.t * TreeEntry.t) : bool :=
  bool_decide (to_fetch (bucket prevState (Repo.full_name rt.1)) rt.2) &&
  match content_of w octokit rt.1 rt.2 with Return _ => false | Throw _ => true end.

(** The retained repositories whose tree listing is fulfilled. *)
Definition tree_listed (w : World) (octokit : Octokit) (repo : Repo.t) : bool :=
  match tree_of w octokit repo with Return _ => true | Throw _ => false end.

(** A walked entry that is new or changed. *)
Definition changed (prevState : ScrapeState.t) (rt : Repo.t * TreeEntry.t) : Prop :=
  to_fetch (bucket prevState (Repo.full_name rt.1)) rt.2.

#[global] Instance changed_dec prevState rt : Decision (changed prevState rt).
Proof. unfold changed. apply _. Defined.

Section AuditPost.
Variable w : World.
Variable config : ScrapeConfig.t.
Variable prevState : ScrapeState.t.
Variable octokit : Octokit.

(** What the file loop keeps, besides [tree_post]: the warnings so far,
    and room in [totalFiles] for the entries of [l] still to visit. *)
Record tree_audit (repo : Repo.t) (l : list TreeEntry.t) (m0 : Machine ScrapeState.t)
    (pre : list TreeEntry.t) (m : Machine ScrapeState.t) : Prop := {
  audit_post : tree_post w config prevState octokit repo m0 pre m;
  audit_console :
    console m = console m0 ++
      flat_map (file_warnings w octokit prevState) (pair repo <$> pre);
  audit_events : Forall within_total (progress m);
  audit_room :
    totalFetched m + totalSkipped m + (length l - length pre) ≤ totalFiles m
}.

(** What the repository loop keeps, besides [org_post]. *)
Record org_audit (m0 : Machine ScrapeState.t) (pre : list Repo.t)
    (m : Machine ScrapeState.t) : Prop := {
  oaudit_post : org_post w config prevState octokit m0 pre m;
  oaudit_console :
    console m = console m0 ++ flat_map (repo_warnings w octokit prevState) pre;
  oaudit_events : Forall within_total (progress m);
  oaudit_room : totalFetched m + totalSkipped m ≤ totalFiles m;
  oaudit_dom :
    dom (ScrapeState.repos (mem m)) =
    dom (ScrapeState.repos (mem m0)) ∪
      list_to_set (Repo.full_name <$> List.filter (tree_listed w octokit) pre)
}.
End AuditPost.

(** An object that is not a store: it has no property [repos]. *)
Definition no_repos (o : Ref.obj) : Prop := Ref.property o "repos" = None.

(** The [TypeError] of line 61 when [prevState.repos] is [undefined]: the
    key read is the full name of the repository that is walked. *)
Definition repos_undefined (w : World) (repo : Repo.t) : Error.t :=
  typeError w (Reading "prevState.repos" (Repo.full_name repo)).

(** The heap of a run whose previous store is the object [o] at [p], and
    whose new store is at [s]. *)
Definition unusable (p : Ref.loc) (o : Ref.obj) (s : Ref.loc) (h : gmap Ref.loc Ref.obj)
  : Prop :=
  h !! p = Some o ∧
  ∃ repos lastScrape props,
    h !! s = Some (Ref.OState repos lastScrape) ∧
    h !! repos = Some (Ref.ODict props) ∧ repos ≠ p.

(** * The command line ([src/cli.ts]) *)

(** [s.startsWith(prefix)] and [s.slice(n)], on the bytes of the UTF-8
    form of the string; the prefixes tested are ASCII, so this is the same
    as on UTF-16 code units. *)
Fixpoint startsWith (s prefix : string) {struct prefix} : bool :=
  match prefix, s with
  | EmptyString, _ => true
  | String a prefix', String b s' => Ascii.eqb a b && startsWith s' prefix'
  | String _ _, EmptyString => false
  end.

Fixpoint slice (n : nat) (s : string) : string :=
  match n, s with
  | Datatypes.S n', String _ s' => slice n' s'
  | _, _ => s
  end.

(** A string in a condition: the empty string is falsy. *)
Definition truthy (s : string) : bool := negb (String.eqb s "").

Module Cli.

(** [flags[key] = value] on an object literal: the key [__proto__] is the
    accessor of [Object.prototype], whose setter ignores a string, so the
    assignment creates no property. *)
Definition set_flag (key value : string) (flags : gmap string string)
  : gmap string string :=
  if decide (key = "__proto__") then flags else <[key := value]> flags.

(** The [for] loop of [parseArgs]; [args] is what is left from index [i]
    on.  An option takes the next argument as its value ([i++]) when there
    is one, it is not empty and it does not start with two dashes. *)
Fixpoint parse_loop (args : list string) (command : string)
    (flags : gmap string string) : string * gmap string string :=
  match args with
  | [] => (command, flags)
  | arg :: rest =>
      if bool_decide (arg = "--help" ∨ arg = "-h") then
        parse_loop rest command (set_flag "help" "true" flags)
      else if startsWith arg "--" then
        let key := slice 2 arg in
        match rest with
        | next :: rest' =>
            if truthy next && negb (startsWith next "--") then
              parse_loop rest' command (set_flag key next flags)
            else parse_loop rest command (set_flag key "true" flags)
        | [] => parse_loop rest command (set_flag key "true" flags)
        end
      else if truthy command then parse_loop rest command flags
      else parse_loop rest arg flags
  end.

Record Parsed := { command : string; flags : gmap string string }.

(** [parseArgs(argv)]: the first two elements (the interpreter and the
    script) are dropped. *)
Definition parseArgs (argv : list string) : Parsed :=
  let '(command, flags) := parse_loop (drop 2 argv) "" ∅ in
  {| command := command; flags := flags |}.

Record ScrapeOptions := {
  org : string;
  token : option string;
  repoFilter : option string;
  scrape_docsDir : string;
  stateFile : string
}.

Record BuildOptions := {
  build_docsDir : string;
  outDir : string;
  siteTitle : string;
  siteUrl : string;
  baseUrl : string
}.

(** What [main] does with its arguments: it prints the help and exits
    with 0; or it reports the missing organisation and exits with 1; or it
    awaits [runScrape] and then calls [runBuild], each when the command asks
    for it, with these options. *)
Inductive Action :=
  | PrintHelp
  | MissingOrg
  | Proceed (scrape : option ScrapeOptions) (build : option BuildOptions).

(** [a ?? b] *)
Definition nullish {A} (a b : option A) : option A :=
  match a with Some x => Some x | None => b end.

(** [main], for the arguments [argv] and the environment [env]
    ([process.env]). *)
Definition main (argv : list string) (env : gmap string string) : Action :=
  let parsed := parseArgs argv in
  let command := command parsed in
  let flags := flags parsed in
  if default false (truthy <$> flags !! "help") then PrintHelp
  else
    let org := nullish (flags !! "org") (env !! "GITHUB_ORG") in
    let token := nullish (flags !! "token") (env !! "GITHUB_TOKEN") in
    let repoFilter := nullish (flags !! "repo-filter") (env !! "REPO_FILTER") in
    let docsDir :=
      default "./docs" (nullish (flags !! "docs-dir") (env !! "DOCS_OUT_DIR")) in
    let stateFile :=
      default "scrape-state.json"
        (nullish (flags !! "state-file") (env !! "STATE_FILE")) in
    let outDir := default "./build" (flags !! "out-dir") in
    let siteTitle :=
      default "doc-slurp" (nullish (flags !! "site-title") (env !! "SITE_TITLE")) in
    let siteUrl :=
      default "https://example.github.io"
        (nullish (flags !! "site-url") (env !! "SITE_URL")) in
    let baseUrl := default "/" (nullish (flags !! "base-url") (env !! "BASE_URL")) in
    let shouldScrape := bool_decide (command = "scrape" ∨ command = "") in
    let shouldBuild := bool_decide (command = "build" ∨ command = "") in
    if shouldScrape && negb (default false (truthy <$> org)) then MissingOrg
    else
      Proceed
        (if shouldScrape then
           Some {| org := default "" org; token := token; repoFilter := repoFilter;
                   scrape_docsDir := docsDir; stateFile := stateFile |}
         else None)
        (if shouldBuild then
           Some {| build_docsDir := docsDir; outDir := outDir; siteTitle := siteTitle;
                   siteUrl := siteUrl; baseUrl := baseUrl |}
         else None).

(** A command line in the form the help shows: an optional command, then
    options, each with a value or bare. *)
Definition option_args (opt : string * option string) : list string :=
  match opt.2 with
  | Some value => ["--" +:+ opt.1; value]
  | None => ["--" +:+ opt.1]
  end.

Definition render (command : option string) (opts : list (string * option string))
  : list string :=
  option_list command ++ flat_map option_args opts.

(** An argument that is neither empty, nor an option, nor [-h]. *)
Definition positional (s : string) : Prop :=
  s ≠ "" ∧ startsWith s "--" = false ∧ s ≠ "-h".

(** An option the help knows how to write: not [--help], and with a value
    that is not empty and does not start with two dashes, if it has one. *)
Definition well_formed (opt : string * option string) : Prop :=
  opt.1 ≠ "help" ∧ ∀ v, opt.2 = Some v → v ≠ "" ∧ startsWith v "--" = false.

(** The flags a list of options sets, a later option overriding an
    earlier one of the same name. *)
Definition flags_of (opts : list (string * option string)) : gmap string string :=
  foldl (λ flags opt, set_flag opt.1 (default "true" opt.2) flags) ∅ opts.

(** What [parseArgs] returns is made of arguments of the right shape: a
    value is [true] or an argument that is not empty and does not start
    with two dashes; the command is empty or a positional argument. *)
Definition value_ok (args : list string) (v : string) : Prop :=
  v = "true" ∨ (v ∈ args ∧ v ≠ "" ∧ startsWith v "--" = false).

Definition command_ok (args : list string) (c : string) : Prop :=
  c = "" ∨ (c ∈ args ∧ positional c).

End Cli.

(** * The scrape command ([runScrape] of [src/cli.ts]) *)

(** The command loads the previous store from the state file, runs
    [scrapeOrg], writes the records under the documents directory and
    saves the new store.  [scripts/scrape.ts] has the same statements at
    its top level. *)
Module Scrape.

(** What the command does to the file system and writes to the standard
    output, in order.  [console.log] writes its line; the lines of
    [console.warn] go to the [console] of the machine, with those of
    [scrapeOrg]. *)
Inductive Event :=
  | ExistsSync (path : string)
  | ReadFileSync (path : string)
  | MkdirSync (path : string)
  | WriteFileSync (path data : string)
  | ConsoleLog (line : string)
  | StdoutWrite (text : string).

(** What the command is run on.  An operation of [fs] answers by its
    arguments: the command reads the state file before it writes anything,
    and stops at the first operation that is rejected.  [JSON_parse] adds
    the objects it builds to the heap and returns the outermost one, an
    object with a property [repos] being built as a store;
    [JSON_stringify] is [JSON.stringify(_, null, 2)]; [RegExp] gives the
    [test] of the expression it compiles; [join] and [dirname] are those
    of [path]. *)
Record Host := {
  existsSync : string → bool;
  readFileSync : string → outcome string;
  mkdirSync : string → outcome unit;
  writeFileSync : string → string → outcome unit;
  JSON_parse : string → gmap Ref.loc Ref.obj → outcome (Ref.loc * gmap Ref.loc Ref.obj);
  JSON_stringify : gmap Ref.loc Ref.obj → Ref.loc → string;
  RegExp : string → outcome (string → bool);
  join : list string → string;
  dirname : string → string
}.

(** The memory of the process: the heap, the variable [prevState], and
    what has happened so far. *)
Record Process := {
  heap : gmap Ref.loc Ref.obj;
  prevState : Ref.loc;
  trace : list Event
}.

Definition set_trace (f : list Event → list Event) (p : Process) : Process :=
  {| heap := heap p; prevState := prevState p; trace := f (trace p) |}.

(** [let prevState: ScrapeState = { repos: {} }] *)
Definition declared : Process :=
  {| heap := {[ 1%positive := Ref.ODict ∅; 2%positive := Ref.OState 1%positive None ]};
     prevState := 2%positive;
     trace := [] |}.

(** [Object.keys(o).length] *)
Definition own_keys (o : Ref.obj) : nat :=
  match o with
  | Ref.ODict props => size props
  | Ref.OCache _ => 1
  | Ref.OState _ (Some _) | Ref.OEntry _ (Some _) => 2
  | Ref.OState _ None | Ref.OEntry _ None => 1
  end.

(** [s.length], for a string given by the bytes of its UTF-8 form: one
    code unit for each byte that starts a character, and one more when the
    character takes four bytes. *)
Fixpoint utf16_length (s : string) : nat :=
  match s with
  | EmptyString => 0
  | String a s' =>
      let b := nat_of_ascii a in
      (if (128 <=? b) && (b <? 192) then 0 else if 240 <=? b then 2 else 1)
      + utf16_length s'
  end.

(** [s.padEnd(n)] *)
Definition padEnd (n : nat) (s : string) : string :=
  s +:+ string_of_list_ascii (repeat " "%char (n - utf16_length s)).

Definition carriage_return : string := String (ascii_of_nat 13) EmptyString.
Definition line_feed : string := String (ascii_of_nat 10) EmptyString.

Definition done_line (p : ScrapeProgress.t) : string :=
  "Done: " +:+ pretty (ScrapeProgress.fetched p) +:+ " fetched, "
    +:+ pretty (ScrapeProgress.skipped p) +:+ " skipped, "
    +:+ pretty (ScrapeProgress.total p) +:+ " total.".

(** The callback [onProgress] of lines 134 to 140: what it writes for an
    event. *)
Definition onProgress (p : ScrapeProgress.t) : list Event :=
  match ScrapeProgress.message p with
  | Some message =>
      if truthy message then [StdoutWrite (carriage_return +:+ padEnd 80 message)]
      else []
  | None => []
  end ++
  match ScrapeProgress.phase p with
  | Phase.done => [StdoutWrite line_feed; ConsoleLog (done_line p)]
  | _ => []
  end.

Definition loaded_line (stateFile : string) (count : nat) : string :=
  "Loaded incremental state from " +:+ stateFile +:+ " (" +:+ pretty count
    +:+ " repos cached).".

Definition unparsed_line (stateFile : string) : string :=
  "Warning: Could not parse " +:+ stateFile +:+ ". Starting fresh.".

Definition wrote_line (count : nat) (docsDir : string) : string :=
  "Wrote " +:+ pretty count +:+ " files to " +:+ docsDir +:+ "/".

Definition saved_line (stateFile : string) : string :=
  "Saved incremental state to " +:+ stateFile +:+ ".".

Section Command.
Variable host : Host.
Variable w : World.

Definition record (evs : list Event) (m : Machine Process) : Machine Process :=
  set_mem (set_trace (λ t, t ++ evs)) m.

(** An operation: recorded, then its answer. *)
Definition does {A} (ev : Event) (answer : outcome A) : Eff Process A :=
  modify (record [ev]) ;; await answer.

Definition console_log (line : string) : Eff Process unit :=
  does (ConsoleLog line) (Return tt).

(** [prevState = JSON.parse(text)] *)
Definition parse (text : string) : Eff Process unit := λ m,
  match JSON_parse host text (heap (mem m)) with
  | Return (root, h) =>
      (Return tt,
       set_mem (λ p, {| heap := h; prevState := root; trace := trace p |}) m)
  | Throw e => (Throw e, m)
  end.

(** [Object.keys(prevState.repos).length]: [Object.keys] raises a
    [TypeError] when [prevState.repos] is [undefined]. *)
Definition count_repos : Eff Process nat := λ m,
  match heap (mem m) !! prevState (mem m) ≫= λ o, Ref.property o "repos" with
  | Some repos =>
      match heap (mem m) !! repos with
      | Some o => (Return (own_keys o), m)
      | None => (Throw (typeError w (Converting "prevState.repos")), m)
      end
  | None => (Throw (typeError w (Converting "prevState.repos")), m)
  end.

(** Lines 120 to 127.  The assignment to [prevState] is inside [try]: an
    error after it leaves the parsed object in the variable. *)
Definition load (stateFile : string) : Eff Process unit :=
  found ← does (ExistsSync stateFile) (Return (existsSync host stateFile));
  if found : bool then
    try_catch
      (text ← does (ReadFileSync stateFile) (readFileSync host stateFile);
       parse text ;;
       count ← count_repos;
       console_log (loaded_line stateFile count))
      (λ _, console_warn (unparsed_line stateFile))
  else ret tt.

(** [repoFilter ? new RegExp(repoFilter) : undefined] *)
Definition compile (repoFilter : option string) : Eff Process (option (string → bool)) :=
  match repoFilter with
  | Some source =>
      if truthy source then test ← await (RegExp host source); ret (Some test)
      else ret None
  | None => ret None
  end.

(** The call of [scrapeOrg]: it runs on the heap of the process, with
    locals of its own; what it requests, warns of and hands to the
    callback is added to what the process has, and the callback writes
    for each event. *)
Definition scrapeOrg (config : ScrapeConfig.t) (prev : Ref.loc)
  : Eff Process (list ScrapedFile.t * Ref.loc) := λ m,
  let r := Ref.run w config prev (heap (mem m)) (reads m) in
  (r.1,
   {| mem := {| heap := mem r.2; prevState := prevState (mem m);
                trace := trace (mem m) ++ flat_map onProgress (progress r.2) |};
      results := results m;
      totalFetched := totalFetched m; totalSkipped := totalSkipped m;
      totalFiles := totalFiles m;
      progress := progress m ++ progress r.2;
      console := console m ++ console r.2;
      calls := calls m ++ calls r.2;
      reads := reads r.2 |}).

Definition destPath (docsDir : string) (file : ScrapedFile.t) : string :=
  join host [docsDir; ScrapedFile.repo file; ScrapedFile.path file].

(** The body of [for (const file of files)]. *)
Definition write_doc (docsDir : string) (file : ScrapedFile.t) : Eff Process unit :=
  let destPath := destPath docsDir file in
  does (MkdirSync (dirname host destPath)) (mkdirSync host (dirname host destPath)) ;;
  does (WriteFileSync destPath (ScrapedFile.content file))
    (writeFileSync host destPath (ScrapedFile.content file)).

(** Lines 129 to 143: the call of [scrapeOrg], with the callback. *)
Definition fetch (opts : Cli.ScrapeOptions)
  : Eff Process (list ScrapedFile.t * Ref.loc) :=
  repoFilter ← compile (Cli.repoFilter opts);
  prevState ← gets (λ m, prevState (mem m));
  scrapeOrg
    {| ScrapeConfig.org := Cli.org opts;
       ScrapeConfig.token := Cli.token opts;
       ScrapeConfig.repoFilter := repoFilter;
       ScrapeConfig.onProgress := true |} prevState.

(** Lines 145 to 156: the records are written, then the new store. *)
Definition save (opts : Cli.ScrapeOptions) (files : list ScrapedFile.t)
    (state : Ref.loc) : Eff Process unit :=
  let docsDir := Cli.scrape_docsDir opts in
  let stateFile := Cli.stateFile opts in
  for_of files (write_doc docsDir) ;;
  console_log (wrote_line (length files) docsDir) ;;
  text ← gets (λ m, JSON_stringify host (heap (mem m)) state);
  does (WriteFileSync stateFile text) (writeFileSync host stateFile text) ;;
  console_log (saved_line stateFile).

Definition runScrape (opts : Cli.ScrapeOptions) : Eff Process unit :=
  load (Cli.stateFile opts) ;;
  r ← fetch opts;
  save opts r.1 r.2.

(** One run of the command in a fresh process. *)
Definition run (opts : Cli.ScrapeOptions) (n : nat) : outcome unit * Machine Process :=
  runScrape opts (boot declared n).

(** ** What the properties speak about *)

(** The configuration the command passes to [scrapeOrg]. *)
Definition config_of (opts : Cli.ScrapeOptions) (test : option (string → bool))
  : ScrapeConfig.t :=
  {| ScrapeConfig.org := Cli.org opts;
     ScrapeConfig.token := Cli.token opts;
     ScrapeConfig.repoFilter := test;
     ScrapeConfig.onProgress := true |}.

(** The filter of an option [--repo-filter]: none for an empty one. *)
Definition filter_of (repoFilter : option string) : outcome (option (string → bool)) :=
  match repoFilter with
  | Some source =>
      if truthy source then
        match RegExp host source with
        | Return test => Return (Some test)
        | Throw e => Throw e
        end
      else Return None
  | None => Return None
  end.

(** The two operations that write a record. *)
Definition doc_events (docsDir : string) (file : ScrapedFile.t) : list Event :=
  [ MkdirSync (dirname host (destPath docsDir file));
    WriteFileSync (destPath docsDir file) (ScrapedFile.content file) ].

(** The answer of the file system to an operation that asks for a change. *)
Definition answer (ev : Event) : outcome unit :=
  match ev with
  | MkdirSync path => mkdirSync host path
  | WriteFileSync path data => writeFileSync host path data
  | _ => Return tt
  end.

(** What [save] sets out to do, for the records [files] and the text
    [text] of the new store. *)
Definition save_events (opts : Cli.ScrapeOptions) (files : list ScrapedFile.t)
    (text : string) : list Event :=
  flat_map (doc_events (Cli.scrape_docsDir opts)) files ++
  [ ConsoleLog (wrote_line (length files) (Cli.scrape_docsDir opts));
    WriteFileSync (Cli.stateFile opts) text;
    ConsoleLog (saved_line (Cli.stateFile opts)) ].

(** What happens of a list of operations: all of them up to the first
    that is rejected, and that one. *)
Fixpoint attempted (evs : list Event) : outcome unit * list Event :=
  match evs with
  | [] => (Return tt, [])
  | ev :: evs' =>
      match answer ev with
      | Return _ => let '(o, t) := attempted evs' in (o, ev :: t)
      | Throw e => (Throw e, [ev])
      end
  end.

(** The state file is absent, or cannot be read, or does not hold JSON. *)
Definition no_state (stateFile : string) : Prop :=
  existsSync host stateFile = false ∨
  (∃ e, readFileSync host stateFile = Throw e) ∨
  (∃ text e, readFileSync host stateFile = Return text ∧
             JSON_parse host text (heap declared) = Throw e).

End Command.

(** An event that changes nothing on disk. *)
Definition reads_only (ev : Event) : Prop :=
  match ev with
  | MkdirSync _ | WriteFileSync _ _ => False
  | _ => True
  end.

End Scrape.

(** ** A host for the examples *)

(** The heap after parsing a state file that holds a store with
    [README.md] of [repo-a] cached: the default store at 2, the parsed one
    at 3. *)
Definition test_parsed : gmap Ref.loc Ref.obj :=
  {[ 1%positive := Ref.ODict ∅;
     2%positive := Ref.OState 1%positive None;
     3%positive := Ref.OState 4%positive (Some "2024-01-01T00:00:00.000Z");
     4%positive := Ref.ODict {[ "test-org/repo-a" := 5%positive ]};
     5%positive := Ref.OCache 6%positive;
     6%positive := Ref.ODict {[ "README.md" := 7%positive ]};
     7%positive := Ref.OEntry "sha-readme-a" (Some 5%Z) ]}.

Definition test_saved : ScrapeState.t :=
  {| ScrapeState.repos :=
       {[ "test-org/repo-a" :=
            {| RepoCache.files :=
                 {[ "README.md" := FileEntry.mk "sha-readme-a" (Some 5%Z) ]} |} ]};
     ScrapeState.lastScrape := Some "2024-01-01T00:00:00.000Z" |}.

(** A disk with the state file [state], if any, which holds a store, an
    empty object, or no JSON; when [full], the write of the [README.md] of
    [repo-b] is rejected. *)
Definition test_host (state : option string) (full : bool) : Scrape.Host :=
  {| Scrape.existsSync := λ _, bool_decide (is_Some state);
     Scrape.readFileSync := λ _,
       match state with
       | Some text => Return text
       | None => Throw (Error.mk "ENOENT: no such file or directory")
       end;
     Scrape.mkdirSync := λ _, Return tt;
     Scrape.writeFileSync := λ path _,
       if full && bool_decide (path = "docs/test-org/repo-b/README.md")
       then Throw (Error.mk "ENOSPC: no space left on device")
       else Return tt;
     Scrape.JSON_parse := λ text h,
       if bool_decide (text = "{}") then
         Return (3%positive, <[3%positive := Ref.ODict ∅]> h)
       else if bool_decide (text = "{ repos: { test-org/repo-a: ... } }") then
         Return (3%positive, test_parsed)
       else Throw (Error.mk "Unexpected token");
     Scrape.JSON_stringify := λ _ _, "{ repos: ... }";
     Scrape.RegExp := λ source,
       if bool_decide (source = "(") then
         Throw (Error.mk "Invalid regular expression: /(/: Unterminated group")
       else Return (λ name, bool_decide (name = source));
     Scrape.join := String.concat "/";
     Scrape.dirname := λ path, String.concat "/" (removelast (split "/" path)) |}.

Definition test_opts : Cli.ScrapeOptions :=
  {| Cli.org := "test-org";
     Cli.token := None;
     Cli.repoFilter := None;
     Cli.scrape_docsDir := "docs";
     Cli.stateFile := "scrape-state.json" |}.

(** * The form of the web page ([src/components/OrgScraper.tsx]) *)

(** [handleSubmit] is the browser's counterpart of the scrape command: the
    previous store is read from [localStorage], and the new one written
    back, around one call of [scrapeOrg]. *)
Module OrgScraper.

Definition STATE_KEY : string := "doc-slurp:state".

(** What the handler does to the page, in order: the event it is given,
    the state [error] of the component, the callbacks of its parent and
    [localStorage]. *)
Inductive Event :=
  | PreventDefault
  | SetError (error : option string)
  | OnStart
  | GetItem (key : string)
  | SetItem (key value : string)
  | OnDone (files : list ScrapedFile.t).

(** What the handler is run on.  An operation of [localStorage] answers
    by its arguments: the handler reads the stored state once, before it
    writes it.  [JSON_parse] adds the objects it builds to the heap and
    returns the outermost one, an object with a property [repos] being
    built as a store; [JSON_stringify] is [JSON.stringify(_)].  The
    callbacks [onStart], [onProgress] and [onDone] return. *)
Record Host := {
  trim : string → string;
  getItem : string → outcome (option string);
  setItem : string → string → outcome unit;
  JSON_parse : string → gmap Ref.loc Ref.obj → outcome (Ref.loc * gmap Ref.loc Ref.obj);
  JSON_stringify : gmap Ref.loc Ref.obj → Ref.loc → string
}.

(** The memory of the handler: the heap, the variable [prevState], and
    what has happened so far. *)
Record Process := {
  heap : gmap Ref.loc Ref.obj;
  prevState : Ref.loc;
  trace : list Event
}.

Definition set_trace (f : list Event → list Event) (p : Process) : Process :=
  {| heap := heap p; prevState := prevState p; trace := f (trace p) |}.

(** [let prevState: ScrapeState = { repos: {} }] (line 32): nothing before
    it touches the heap, so the handler starts with it. *)
Definition declared : Process :=
  {| heap := {[ 1%positive := Ref.ODict ∅; 2%positive := Ref.OState 1%positive None ]};
     prevState := 2%positive;
     trace := [] |}.

Section Handler.
Variable host : Host.
Variable w : World.

Definition record (evs : list Event) (m : Machine Process) : Machine Process :=
  set_mem (set_trace (λ t, t ++ evs)) m.

(** An operation: recorded, then its answer. *)
Definition does {A} (ev : Event) (answer : outcome A) : Eff Process A :=
  modify (record [ev]) ;; await answer.

Definition localStorage_getItem (key : string) : Eff Process (option string) :=
  does (GetItem key) (getItem host key).

Definition localStorage_setItem (key value : string) : Eff Process unit :=
  does (SetItem key value) (setItem host key value).

(** [prevState = JSON.parse(raw)] *)
Definition parse (raw : string) : Eff Process unit := λ m,
  match JSON_parse host raw (heap (mem m)) with
  | Return (root, h) =>
      (Return tt,
       set_mem (λ p, {| heap := h; prevState := root; trace := trace p |}) m)
  | Throw e => (Throw e, m)
  end.

(** Lines 33 to 38. *)
Definition load : Eff Process unit :=
  try_catch
    (raw ← localStorage_getItem STATE_KEY;
     match raw with
     | Some raw => if truthy raw then parse raw else ret tt
     | None => ret tt
     end)
    (λ _, ret tt).

(** The call of [scrapeOrg]: it runs on the heap of the handler, with
    locals of its own; what it requests, warns of and hands to
    [onProgress] is added to what the process has. *)
Definition scrapeOrg (config : ScrapeConfig.t) (prev : Ref.loc)
  : Eff Process (list ScrapedFile.t * Ref.loc) := λ m,
  let r := Ref.run w config prev (heap (mem m)) (reads m) in
  (r.1,
   {| mem := {| heap := mem r.2; prevState := prevState (mem m);
                trace := trace (mem m) |};
      results := results m;
      totalFetched := totalFetched m; totalSkipped := totalSkipped m;
      totalFiles := totalFiles m;
      progress := progress m ++ progress r.2;
      console := console m ++ console r.2;
      calls := calls m ++ calls r.2;
      reads := reads r.2 |}).

(** The configuration of lines 42 to 46. *)
Definition config_of (org token : string) : ScrapeConfig.t :=
  {| ScrapeConfig.org := trim host org;
     ScrapeConfig.token := if truthy token then Some token else None;
     ScrapeConfig.repoFilter := None;
     ScrapeConfig.onProgress := true |}.

(** Lines 40 to 56. *)
Definition scrape (org token : string) : Eff Process unit :=
  try_catch
    (prevState ← gets (λ m, prevState (mem m));
     r ← scrapeOrg (config_of org token) prevState;
     text ← gets (λ m, JSON_stringify host (heap (mem m)) r.2);
     localStorage_setItem STATE_KEY text ;;
     does (OnDone r.1) (Return tt))
    (λ err,
       does (SetError (Some (Error.message err))) (Return tt) ;;
       does (OnDone []) (Return tt)).

(** [handleSubmit], with [org] and [token] the state of the component
    when the form is submitted.  The assignment to [abortRef.current] is
    to a reference nothing reads. *)
Definition handleSubmit (org token : string) : Eff Process unit :=
  does PreventDefault (Return tt) ;;
  if negb (truthy (trim host org)) then ret tt
  else
    does (SetError None) (Return tt) ;;
    does OnStart (Return tt) ;;
    localStorage_setItem "doc-slurp:org" (trim host org) ;;
    (if truthy token then localStorage_setItem "doc-slurp:token" token else ret tt) ;;
    load ;;
    scrape org token.

(** One submission of the form. *)
Definition run (org token : string) (n : nat) : outcome unit * Machine Process :=
  handleSubmit org token (boot declared n).

(** ** What the properties speak about *)

(** What the handler does before it reads the stored state, when nothing
    is rejected. *)
Definition opening (org token : string) : list Event :=
  [ PreventDefault; SetError None; OnStart; SetItem "doc-slurp:org" (trim host org) ] ++
  (if truthy token then [SetItem "doc-slurp:token" token] else []) ++
  [ GetItem STATE_KEY ].

(** The form can be submitted: the organisation is not blank, and
    [localStorage] takes the organisation and the token. *)
Definition accepted (org token : string) : Prop :=
  truthy (trim host org) = true ∧
  setItem host "doc-slurp:org" (trim host org) = Return tt ∧
  (truthy token = true → setItem host "doc-slurp:token" token = Return tt).

(** No stored state can be read: there is none, or it is empty, or
    [localStorage] or [JSON.parse] throws. *)
Definition no_state : Prop :=
  getItem host STATE_KEY = Return None ∨
  getItem host STATE_KEY = Return (Some "") ∨
  (∃ e, getItem host STATE_KEY = Throw e) ∨
  (∃ raw e, getItem host STATE_KEY = Return (Some raw) ∧
            JSON_parse host raw (heap declared) = Throw e).

End Handler.

Definition is_done (ev : Event) : bool :=
  match ev with OnDone _ => true | _ => false end.

Definition writes_state (ev : Event) : bool :=
  match ev with SetItem key _ => bool_decide (key = STATE_KEY) | _ => false end.

End OrgScraper.

(** A browser for the examples: [localStorage] holds [state], if
    anything, under the key of the state, and is full when [full]. *)
Definition test_browser (state : option string) (full : bool) : OrgScraper.Host :=
  {| OrgScraper.trim := λ s, if bool_decide (s = "  ") then "" else s;
     OrgScraper.getItem := λ _, Return state;
     OrgScraper.setItem := λ _ _,
       if full then Throw (Error.mk "QuotaExceededError") else Return tt;
     OrgScraper.JSON_parse := λ text h,
       if bool_decide (text = "{}") then
         Return (3%positive, <[3%positive := Ref.ODict ∅]> h)
       else if bool_decide (text = "{ repos: { test-org/repo-a: ... } }") then
         Return (3%positive, test_parsed)
       else Throw (Error.mk "Unexpected token");
     OrgScraper.JSON_stringify := λ _ _, "{ repos: ... }" |}.

(** * The [github] module ([src/lib/github.ts]) *)

(** [s.endsWith(suffix)], on bytes as [startsWith] is: [s] from the
    position where a suffix of that length starts is [suffix]. *)
Definition endsWith (s suffix : string) : bool :=
  String.eqb (slice (String.length s - String.length suffix) s) suffix.

(** A value that may be [undefined], inside a template literal. *)
Definition show (o : option string) : string := default "undefined" o.

(** What the REST client answers; the fields are those the module reads. *)
Module Rest.

Record Repository := {
  name : string;
  full_name : string;
  default_branch : option string
}.

(** An item of a tree.  The module tests [type] and [path], which may be
    missing, and asserts [sha] ([item.sha!]), which every item served has. *)
Record TreeItem := {
  path : option string;
  sha : string;
  type : option string
}.

Record Tree := { tree : list TreeItem; truncated : bool }.

(** The data of [repos.getContent]: an array for a directory, else an
    object with its [type] and, for a file, its [content]. *)
Inductive Content :=
  | Listing
  | Item (type : string) (content : string).

(** [listForOrg] is read through [paginate.iterator]: the pages it yields,
    and the error at which it stops when a page request is rejected.
    [decode] is [Buffer.from(_, 'base64').toString('utf-8')]. *)
Record t := {
  listForOrg : Octokit → string → list (list Repository) * option Error.t;
  getTree : Octokit → option string → option string → string → outcome Tree;
  getContent : Octokit → option string → option string → string → outcome Content;
  decode : string → string
}.

End Rest.

Module GithubTs.
Section Module.
Variable rest : Rest.t.

(** The element pushed for a repository of a page. *)
Definition repo_of (repo : Rest.Repository) : Repo.t :=
  {| Repo.name := Rest.name repo;
     Repo.full_name := Rest.full_name repo;
     Repo.default_branch := default "HEAD" (Rest.default_branch repo) |}.

(** [listOrgRepos]: the repositories are gathered page by page; a
    rejection of the iterator leaves the function, and what was gathered
    is lost. *)
Definition listOrgRepos (octokit : Octokit) (org : string) : outcome (list Repo.t) :=
  let '(pages, failure) := Rest.listForOrg rest octokit org in
  let repos := repo_of <$> concat pages in
  match failure with
  | Some e => Throw e
  | None => Return repos
  end.

(** [item.type === 'blob' && item.path?.endsWith('.md')] *)
Definition md_blob (item : Rest.TreeItem) : bool :=
  bool_decide (Rest.type item = Some "blob") &&
  default false ((λ path, endsWith path ".md") <$> Rest.path item).

(** [{ path: item.path!, sha: item.sha!, type: item.type! }]; the filter
    has made sure that [path] and [type] are there. *)
Definition entry_of (item : Rest.TreeItem) : TreeEntry.t :=
  {| TreeEntry.path := default "" (Rest.path item);
     TreeEntry.sha := Rest.sha item;
     TreeEntry.type := default "" (Rest.type item) |}.

Definition truncated_line (owner repo : option string) : string :=
  "Tree for " +:+ show owner +:+ "/" +:+ show repo
    +:+ " was truncated by the GitHub API.".

(** [getRepoTree]; it warns on the console of the process. *)
Definition getRepoTree {S} (octokit : Octokit) (owner repo : option string)
    (branch : string) : Eff S (list TreeEntry.t) :=
  data ← await (Rest.getTree rest octokit owner repo branch);
  (if Rest.truncated data then console_warn (truncated_line owner repo) else ret tt) ;;
  ret (entry_of <$> List.filter md_blob (Rest.tree data)).

Definition not_a_file (owner repo : option string) (path : string) : Error.t :=
  Error.mk ("Expected a file at " +:+ path +:+ " in " +:+ show owner +:+ "/"
            +:+ show repo).

(** [getFileContent] *)
Definition getFileContent (octokit : Octokit) (owner repo : option string)
    (path : string) : outcome string :=
  match Rest.getContent rest octokit owner repo path with
  | Return Rest.Listing => Throw (not_a_file owner repo path)
  | Return (Rest.Item type content) =>
      if decide (type = "file") then Return (Rest.decode rest content)
      else Throw (not_a_file owner repo path)
  | Throw e => Throw e
  end.

(** The module as [scrapeOrg] sees it: what each request settles to.  The
    warning of a truncated tree is not among what [scrapeOrg] awaits. *)
Definition settled : GitHub :=
  Build_GitHub
    listOrgRepos
    (λ octokit owner repo branch, (getRepoTree octokit owner repo branch (boot tt 0)).1)
    getFileContent.

(** The tree request [scrapeOrg] makes for a repository of a page. *)
Definition tree_request (repo : Rest.Repository) : Call :=
  let '(owner, repoName) := destructure_full_name (Rest.full_name repo) in
  CallGetRepoTree owner repoName (default "HEAD" (Rest.default_branch repo)).

(** A repository of a page that passes the filter of [config]. *)
Definition kept (config : ScrapeConfig.t) (repo : Rest.Repository) : bool :=
  match ScrapeConfig.repoFilter config with
  | Some test => test (Rest.name repo)
  | None => true
  end.

(** A process whose [github] module is this one. *)
Definition world (clock : nat → Z) (toISOString : Z → string)
    (typeError : Access → Error.t) : World :=
  {| github := settled; clock := clock; toISOString := toISOString;
     typeError := typeError |}.
End Module.
End GithubTs.

(** A REST client for the examples: two pages of one repository each, the
    second repository without a default branch; a truncated tree with a
    directory, an image and a symbolic link; [decode] is a stand-in for the
    decoder.  Any other organisation fails on its second page. *)
Definition test_item (path type : string) : Rest.TreeItem :=
  {| Rest.path := Some path; Rest.sha := "sha-" +:+ path; Rest.type := Some type |}.

Definition test_rest : Rest.t :=
  {| Rest.listForOrg := λ _ org,
       if decide (org = "test-org") then
         ([ [ {| Rest.name := "repo-a"; Rest.full_name := "test-org/repo-a";
                 Rest.default_branch := Some "main" |} ];
            [ {| Rest.name := "repo-b"; Rest.full_name := "test-org/repo-b";
                 Rest.default_branch := None |} ] ], None)
       else
         ([ [ {| Rest.name := "repo-x"; Rest.full_name := org +:+ "/repo-x";
                 Rest.default_branch := Some "main" |} ] ],
          Some (Error.mk "Bad Gateway"));
     Rest.getTree := λ _ _ repo branch,
       if decide (repo = Some "repo-a") then
         Return {| Rest.tree :=
                     [ test_item "README.md" "blob"; test_item "docs" "tree";
                       test_item "docs/guide.md" "blob"; test_item "logo.png" "blob";
                       test_item "docs/link.md" "blob";
                       {| Rest.path := None; Rest.sha := "sha-none";
                          Rest.type := Some "blob" |} ];
                   Rest.truncated := true |}
       else if decide (branch = "HEAD") then
         Return {| Rest.tree := [ test_item "README.md" "blob" ];
                   Rest.truncated := false |}
       else Throw (Error.mk "Not Found");
     Rest.getContent := λ _ _ _ path,
       if decide (path = "docs/link.md") then Return (Rest.Item "symlink" "")
       else Return (Rest.Item "file" path);
     Rest.decode := λ content, "# " +:+ content |}.

Definition test_rest_world : World :=
  GithubTs.world test_rest (λ k, (1000 * Z.of_nat k)%Z) iso_first_day test_typeError.

(** * The list of scraped files ([src/components/RepoList.tsx]) *)

Module RepoList.

Record RepoGroup := { repo : string; files : list ScrapedFile.t }.

(** The body of the loop of [groupByRepo],
    [if (!map.has(f.repo)) map.set(f.repo, []); map.get(f.repo)!.push(f)],
    on a [Map], which keeps its keys in the order of their insertion. *)
Fixpoint push (f : ScrapedFile.t) (map : list (string * list ScrapedFile.t))
  : list (string * list ScrapedFile.t) :=
  match map with
  | [] => [(ScrapedFile.repo f, [f])]
  | (repo, repoFiles) :: map' =>
      if decide (repo = ScrapedFile.repo f) then (repo, repoFiles ++ [f]) :: map'
      else (repo, repoFiles) :: push f map'
  end.

(** [Array.prototype.sort] with a comparator is stable.  For a comparator
    that orders its arguments consistently, as [localeCompare] does, its
    result is that of inserting each element in turn before the first one
    it compares below. *)
Section Sort.
Context {A : Type}.
Variable compare : A → A → Z.

Fixpoint insert_sorted (x : A) (l : list A) : list A :=
  match l with
  | [] => [x]
  | y :: l' =>
      if (compare x y <? 0)%Z then x :: y :: l' else y :: insert_sorted x l'
  end.

Definition sort (l : list A) : list A :=
  foldl (λ sorted x, insert_sorted x sorted) [] l.
End Sort.

(** The map when the loop has seen [files]. *)
Definition grouped (files : list ScrapedFile.t) : list (string * list ScrapedFile.t) :=
  foldl (λ map f, push f map) [] files.

(** [groupByRepo]; [localeCompare a b] is [a.localeCompare(b)]. *)
Definition groupByRepo (localeCompare : string → string → Z)
    (files : list ScrapedFile.t) : list RepoGroup :=
  (λ entry, {| repo := entry.1; files := entry.2 |}) <$>
    sort (λ a b, localeCompare a.1 b.1) (grouped files).

(** [map.get(repo)] *)
Fixpoint assoc (repo : string) (map : list (string * list ScrapedFile.t))
  : option (list ScrapedFile.t) :=
  match map with
  | [] => None
  | (repo', repoFiles) :: map' =>
      if decide (repo' = repo) then Some repoFiles else assoc repo map'
  end.

End RepoList.

(** A comparator for the examples: the order of the bytes. *)
Definition byte_order (a b : string) : Z :=
  match String.compare a b with Lt => (-1)%Z | Eq => 0%Z | Gt => 1%Z end.

(** * What a run does, on stores as values *)

(** ** Reasoning about the monad *)

Lemma for_of_app {S A} (l1 l2 : list A) (body : A → Eff S unit) m :
  for_of (l1 ++ l2) body m =
  match for_of l1 body m with
  | (Return _, m') => for_of l2 body m'
  | (Throw e, m') => (Throw e, m')
  end.
Proof.
  revert m. induction l1 as [|x l1 IH]; intros m; simpl; [done|].
  unfold bind. destruct (body x m) as [[[]|e] m']; [apply IH|done].
Qed.

(** The loop rule: an invariant indexed by the part of the list already
    visited. *)
Lemma for_of_invariant {S A} (I : list A → Machine S → Prop)
    (body : A → Eff S unit) (l : list A) (m0 : Machine S) :
  I [] m0 →
  (∀ pre x post m, l = pre ++ x :: post → I pre m →
     ∃ m', body x m = (Return tt, m') ∧ I (pre ++ [x]) m') →
  ∃ m', for_of l body m0 = (Return tt, m') ∧ I l m'.
Proof.
  intros H0 Hstep.
  assert (∀ post pre m, l = pre ++ post → I pre m →
            ∃ m', for_of post body m = (Return tt, m') ∧ I l m') as Hgen.
  { induction post as [|x post IH]; intros pre m Hl HI.
    - exists m. split; [done|]. by rewrite Hl, app_nil_r.
    - destruct (Hstep pre x post m Hl HI) as (m1 & Hb & HI1).
      destruct (IH (pre ++ [x]) m1) as (m' & Hrun & HI'); [by rewrite <- app_assoc|done|].
      exists m'. split; [|done]. simpl. unfold bind. by rewrite Hb. }
  by apply (Hgen l [] m0).
Qed.
(** ** One file *)

Lemma same_sha_false prevState full_name (t : TreeEntry.t) :
  same_sha (lookup_prev prevState full_name (TreeEntry.path t)) t = false ↔
  to_fetch (bucket prevState full_name) t.
Proof.
  unfold same_sha, lookup_prev, bucket, to_fetch.
  destruct (ScrapeState.repos prevState !! full_name) as [cache|]; simpl.
  - destruct (RepoCache.files cache !! TreeEntry.path t) as [e|]; simpl.
    + split.
      * intros Hne%bool_decide_eq_false. right. exists e. split; [done|]. congruence.
      * intros [?|(e' & [= <-] & Hne)]; [done|].
        apply bool_decide_eq_false. congruence.
    + split; [by left|done].
  - rewrite lookup_empty. split; [by left|done].
Qed.

Lemma same_sha_true prevState full_name (t : TreeEntry.t) :
  same_sha (lookup_prev prevState full_name (TreeEntry.path t)) t = true ↔
  ¬ to_fetch (bucket prevState full_name) t.
Proof.
  rewrite <- same_sha_false. by destruct (same_sha _ _).
Qed.

Lemma lookup_prev_bucket prevState full_name path :
  lookup_prev prevState full_name path = bucket prevState full_name !! path.
Proof.
  unfold lookup_prev, bucket.
  destruct (ScrapeState.repos prevState !! full_name); simpl; [done|].
  by rewrite lookup_empty.
Qed.

Lemma stamp_of_mono w prevEntry t lo hi lo' hi' stamp :
  lo' ≤ lo → hi ≤ hi' →
  stamp_of w prevEntry t lo hi stamp → stamp_of w prevEntry t lo' hi' stamp.
Proof.
  intros Hlo Hhi [e s ? ? ?|e k ? ? ? ?|k ? ?].
  - by eapply stamp_carried.
  - eapply stamp_fallback; eauto. lia.
  - eapply stamp_now; eauto. lia.
Qed.

Section Steps.
Context {S : Type}.
Variable w : World.
Variable config : ScrapeConfig.t.
Variable prevState : ScrapeState.t.
Variable octokit : Octokit.
Implicit Type m : Machine S.
Local Abbreviation emitted := (emitted config).
Local Abbreviation file_post := (file_post w config prevState octokit).

(** The right-hand side of [lastFetched:] reads the clock at most once
    and touches nothing else. *)
Lemma lastFetched_of_spec prevEntry (file : TreeEntry.t) m :
  ∃ stamp k,
    lastFetched_of w prevEntry file m = (Return stamp, set_reads (λ n, n + k) m) ∧
    k ≤ 1 ∧
    stamp_of w prevEntry file (reads m) (reads m + k) stamp.
Proof.
  assert (∃ m', Date_now (S:=S) w m = (Return (clock w (reads m)), m') ∧
                m' = set_reads (λ n, n + 1) m) as (m1 & Hnow & Hm1).
  { eexists. split; [reflexivity|].
    unfold set_reads. destruct m; simpl. f_equal. lia. }
  unfold lastFetched_of.
  destruct (same_sha prevEntry file) eqn:Hsame; unfold same_sha in Hsame.
  - apply bool_decide_eq_true in Hsame.
    destruct prevEntry as [e|]; [|done]. injection Hsame as Hsha. simpl.
    destruct (FileEntry.lastFetched e) as [stamp|] eqn:Hstamp.
    + exists stamp, 0. split; [|split; [lia|by eapply stamp_carried]].
      unfold ret, set_reads. destruct m; simpl. do 2 f_equal. lia.
    + exists (clock w (reads m)), 1. rewrite Hnow, Hm1.
      split; [done|split; [lia|]]. eapply stamp_fallback; eauto. lia.
  - apply bool_decide_eq_false in Hsame.
    exists (clock w (reads m)), 1. rewrite Hnow, Hm1.
    split; [done|split; [lia|]]. apply stamp_now; [|lia].
    intros e -> Heq. apply Hsame. simpl. by rewrite Heq.
Qed.

Lemma fetch_or_skip_spec (repo : Repo.t) (file : TreeEntry.t) m :
  let '(owner, repoName) := destructure_full_name (Repo.full_name repo) in
  ∃ m',
    fetch_or_skip w config octokit repo owner repoName file
      (lookup_prev prevState (Repo.full_name repo) (TreeEntry.path file)) m
    = (Return tt, m') ∧
    mem m' = mem m ∧ reads m' = reads m ∧
    file_post repo file m m'.
Proof.
  pose proof (same_sha_false prevState (Repo.full_name repo) file) as Hfalse.
  pose proof (same_sha_true prevState (Repo.full_name repo) file) as Htrue.
  unfold fetch_or_skip.
  destruct (destructure_full_name (Repo.full_name repo))
    as [owner repoName] eqn:Hsplit.
  unfold bind, try_catch, request, bind, modify, await, emit_totals, emit, modify.
  destruct (same_sha _ file) eqn:Hsame.
  - apply proj1 in Htrue. specialize (Htrue eq_refl).
    eexists. split; [reflexivity|].
    destruct (ScrapeConfig.onProgress config) eqn:Hsink.
    all: split; [done|]; split; [done|].
    all: split; unfold record_of, request_of, emitted;
      rewrite ?decide_False by done; rewrite ?Hsink; simpl; rewrite ?app_nil_r.
    all: try done; try lia; try (by eexists).
  - apply proj1 in Hfalse. specialize (Hfalse eq_refl).
    destruct (ScrapeConfig.onProgress config) eqn:Hsink;
      destruct (getFileContent (github w) octokit owner repoName (TreeEntry.path file))
        as [content|err] eqn:Hget; simpl.
    all: eexists; (split; [reflexivity|]); (split; [done|]); (split; [done|]).
    all: split; unfold record_of, request_of, content_of, content_call, emitted;
      rewrite ?decide_True by done; rewrite ?Hsplit, ?Hget, ?Hsink; simpl;
      rewrite ?app_nil_r.
    all: try done; try lia; try (by eexists).
Qed.
End Steps.

(** ** The progress log *)

Section Progress.
Context {S : Type}.
Implicit Type m : Machine S.

Lemma monotone_snoc events e :
  monotone events →
  Forall (λ e', done_count e' ≤ done_count e ∧
                ScrapeProgress.total e' ≤ ScrapeProgress.total e) events →
  monotone (events ++ [e]).
Proof.
  intros Hmono Hall i j e1 e2 Hij H1 H2.
  destruct (decide (j < length events)) as [Hj|Hj].
  - rewrite lookup_app_l in H1 by lia. rewrite lookup_app_l in H2 by lia.
    exact (Hmono i j e1 e2 Hij H1 H2).
  - assert (e2 = e) as ->.
    { rewrite lookup_app_r in H2 by lia.
      destruct (j - length events) as [|k]; simpl in H2; [congruence|].
      by rewrite lookup_nil in H2. }
    destruct (decide (i < length events)) as [Hi|Hi].
    + rewrite lookup_app_l in H1 by lia.
      rewrite Forall_forall in Hall. apply Hall.
      by eapply list_elem_of_lookup_2.
    + rewrite lookup_app_r in H1 by lia.
      destruct (i - length events) as [|k]; simpl in H1.
      * injection H1 as ->. lia.
      * by rewrite lookup_nil in H1.
Qed.

(** Appending an event that lies between the old and the new counters
    keeps the log monotone. *)
Lemma mono_inv_emit m m' e (sink : bool) :
  mono_inv m →
  progress m' = progress m ++ (if sink then [e] else []) →
  totalFetched m + totalSkipped m ≤ done_count e →
  totalFiles m ≤ ScrapeProgress.total e →
  bounded m' e →
  totalFetched m + totalSkipped m ≤ totalFetched m' + totalSkipped m' →
  totalFiles m ≤ totalFiles m' →
  mono_inv m'.
Proof.
  intros [Hmono Hall] Hlog Hlo1 Hlo2 Hup Hc1 Hc2.
  assert (Forall (bounded m') (progress m)) as Hall'.
  { eapply Forall_impl; [exact Hall|]. unfold bounded. intros e' [? ?]. lia. }
  split; rewrite Hlog; destruct sink; rewrite ?app_nil_r; try done.
  - apply monotone_snoc; [done|].
    eapply Forall_impl; [exact Hall|]. unfold bounded. intros e' [? ?]. lia.
  - apply Forall_app. split; [done|]. by apply Forall_singleton.
Qed.

Lemma mono_inv_file w config prevState octokit repo file m m' :
  file_post w config prevState octokit repo file m m' →
  mono_inv m → mono_inv m'.
Proof.
  intros [_ _ Hf Hs Ht [message Hp]] Hinv.
  unfold emitted in Hp.
  eapply mono_inv_emit; [done|exact Hp|..];
    unfold bounded, done_count, file_event; simpl; lia.
Qed.
End Progress.

(** ** One file, stores as values *)

Lemma alter_lookup_insert {A} (f : A → A) (k : string) (x : A) (s : gmap string A) :
  s !! k = Some x → alter f k s = <[k := f x]> s.
Proof.
  intros Hk. apply map_eq. intros k'.
  rewrite lookup_alter, lookup_insert.
  case_decide; [subst; by rewrite Hk|done].
Qed.

Section ValueEngine.
Variable w : World.
Variable config : ScrapeConfig.t.
Variable prevState : ScrapeState.t.
Variable octokit : Octokit.
Implicit Type m : Machine ScrapeState.t.

Lemma scrapeFile_spec (repo : Repo.t) (file : TreeEntry.t) m cache :
  ScrapeState.repos (mem m) !! Repo.full_name repo = Some cache →
  let '(owner, repoName) := destructure_full_name (Repo.full_name repo) in
  ∃ m' stamp,
    scrapeFile w config prevState octokit repo owner repoName file m = (Return tt, m') ∧
    reads m ≤ reads m' ∧
    stamp_of w (lookup_prev prevState (Repo.full_name repo) (TreeEntry.path file))
      file (reads m) (reads m') stamp ∧
    ScrapeState.repos (mem m') =
      <[Repo.full_name repo :=
          {| RepoCache.files :=
               <[TreeEntry.path file :=
                   {| FileEntry.sha := TreeEntry.sha file;
                      FileEntry.lastFetched := Some stamp |}]> (RepoCache.files cache) |}]>
        (ScrapeState.repos (mem m)) ∧
    ScrapeState.lastScrape (mem m') = ScrapeState.lastScrape (mem m) ∧
    file_post w config prevState octokit repo file m m'.
Proof.
  intros Hcache.
  destruct (lastFetched_of_spec w
              (lookup_prev prevState (Repo.full_name repo) (TreeEntry.path file))
              file m) as (stamp & k & Hlast & Hk & Hstamp).
  set (entry := {| FileEntry.sha := TreeEntry.sha file;
                   FileEntry.lastFetched := Some stamp |}).
  set (m2 := set_mem (λ st,
    {| ScrapeState.repos :=
         alter (λ c, {| RepoCache.files :=
                          <[TreeEntry.path file := entry]> (RepoCache.files c) |})
               (Repo.full_name repo) (ScrapeState.repos st);
       ScrapeState.lastScrape := ScrapeState.lastScrape st |})
    (set_reads (λ n, n + k) m)).
  pose proof (fetch_or_skip_spec w config prevState octokit repo file m2) as Hrest.
  destruct (destructure_full_name (Repo.full_name repo)) as [owner repoName].
  destruct Hrest as (m' & Hrun & Hmem & Hreads & Hpost).
  exists m', stamp. split.
  { unfold scrapeFile, bind, bucket_files. rewrite Hcache, Hlast.
    unfold put_entry, modify. exact Hrun. }
  rewrite Hmem, Hreads. subst m2. simpl.
  split; [lia|]. split; [done|]. split; [by rewrite (alter_lookup_insert _ _ cache)|].
  split; [done|].
  destruct Hpost as [? ? ? ? ? ?]. by split.
Qed.
End ValueEngine.

(** ** The files of one repository *)

Lemma emitted_app config (l1 l2 : list ScrapeProgress.t) :
  emitted config (l1 ++ l2) = emitted config l1 ++ emitted config l2.
Proof. unfold emitted. by destruct (ScrapeConfig.onProgress config). Qed.

Section ValueLoops.
Variable w : World.
Variable config : ScrapeConfig.t.
Variable prevState : ScrapeState.t.
Variable octokit : Octokit.
Implicit Type m : Machine ScrapeState.t.
Local Abbreviation tree_post := (tree_post w config prevState octokit).

Lemma tree_post_start repo m0 :
  ScrapeState.repos (mem m0) !! Repo.full_name repo
    = Some {| RepoCache.files := ∅ |} →
  tree_post repo m0 [] m0.
Proof.
  intros Hcache. split; simpl; rewrite ?app_nil_r; try done; try lia.
  - exists []. unfold emitted.
    destruct (ScrapeConfig.onProgress config); by rewrite app_nil_r.
  - eexists. split; [exact Hcache|]. split; [done|].
    intros _ t Ht. by apply elem_of_nil in Ht.
Qed.

Lemma tree_post_step repo m0 pre x m owner repoName :
  destructure_full_name (Repo.full_name repo) = (owner, repoName) →
  tree_post repo m0 pre m →
  ∃ m', scrapeFile w config prevState octokit repo owner repoName x m
          = (Return tt, m') ∧
        tree_post repo m0 (pre ++ [x]) m'.
Proof.
  intros Hsplit [Hres Hcalls Hf Hs Ht (events & Hp & Hev) Hmono Hreads Hls Hoth
                   (cache & Hcache & Hdom & Hentries)].
  pose proof (scrapeFile_spec w config prevState octokit repo x m cache Hcache) as Hstep.
  rewrite Hsplit in Hstep.
  destruct Hstep as (m' & stamp & Hrun & Hr' & Hstamp & Hrepos & Hls' & Hpost).
  exists m'. split; [done|].
  pose proof (mono_inv_file _ _ _ _ _ _ _ _ Hpost) as Hmono'.
  destruct Hpost as [Hres' Hcalls' Hf' Hs' Ht' (message & Hp')].
  split.
  - rewrite Hres', Hres, fmap_app, flat_map_app, <- app_assoc. simpl.
    by rewrite app_nil_r.
  - rewrite Hcalls', Hcalls, fmap_app, flat_map_app, <- app_assoc. simpl.
    by rewrite app_nil_r.
  - rewrite Hf', Hf, fmap_app, flat_map_app, !length_app. simpl.
    rewrite app_nil_r. lia.
  - rewrite Hs', Hs, fmap_app, filter_app, length_app. simpl.
    rewrite filter_cons.
    destruct (decide (to_fetch (bucket prevState (Repo.full_name repo)) x)).
    + rewrite decide_False by (unfold unchanged; simpl; tauto). simpl. lia.
    + rewrite decide_True by (unfold unchanged; simpl; tauto). simpl. lia.
  - congruence.
  - eexists (events ++ [_]). split.
    + rewrite Hp', Hp, emitted_app, <- app_assoc. done.
    + apply Forall_app. split; [done|]. by apply Forall_singleton.
  - auto.
  - lia.
  - congruence.
  - intros other Hne. rewrite Hrepos, lookup_insert_ne by done. by apply Hoth.
  - eexists. split; [by rewrite Hrepos, lookup_insert_eq|]. simpl. split.
    + rewrite dom_insert_L, Hdom, fmap_app, list_to_set_app_L. simpl.
      by rewrite union_empty_r_L, (comm_L (∪)).
    + rewrite fmap_app. intros [Hnd [Hfresh _]]%NoDup_app t [Hin|Hin]%elem_of_app.
      * destruct (Hentries Hnd t Hin) as (stamp' & Hlook & Hst).
        exists stamp'. split.
        -- rewrite lookup_insert_ne; [done|]. intros Heq.
           apply (Hfresh (TreeEntry.path t)).
           ++ apply list_elem_of_fmap. eauto.
           ++ rewrite <- Heq. simpl. by apply list_elem_of_singleton.
        -- eapply stamp_of_mono; [| |exact Hst]; lia.
      * apply list_elem_of_singleton in Hin as ->.
        exists stamp. split; [by rewrite lookup_insert_eq|].
        eapply stamp_of_mono; [| |exact Hstamp]; lia.
Qed.

Lemma files_loop repo (mdFiles : list TreeEntry.t) m0 owner repoName :
  destructure_full_name (Repo.full_name repo) = (owner, repoName) →
  ScrapeState.repos (mem m0) !! Repo.full_name repo
    = Some {| RepoCache.files := ∅ |} →
  ∃ m', for_of mdFiles (scrapeFile w config prevState octokit repo owner repoName) m0
          = (Return tt, m') ∧
        tree_post repo m0 mdFiles m'.
Proof.
  intros Hsplit Hcache.
  apply (for_of_invariant (tree_post repo m0)).
  - by apply tree_post_start.
  - intros pre x post m _ Hinv. by eapply tree_post_step.
Qed.
End ValueLoops.

(** ** The repositories of the organisation *)

Lemma walked_app w octokit (l1 l2 : list Repo.t) :
  walked w octokit (l1 ++ l2) = walked w octokit l1 ++ walked w octokit l2.
Proof. apply flat_map_app. Qed.

Lemma walked_one_Return w octokit repo mdFiles :
  tree_of w octokit repo = Return mdFiles →
  walked w octokit [repo] = pair repo <$> mdFiles.
Proof. intros H. unfold walked. simpl. by rewrite H, app_nil_r. Qed.

Lemma walked_one_Throw w octokit repo e :
  tree_of w octokit repo = Throw e → walked w octokit [repo] = [].
Proof. intros H. unfold walked. simpl. by rewrite H. Qed.

Lemma elem_of_walked w octokit (repos : list Repo.t) repo t :
  (repo, t) ∈ walked w octokit repos ↔
  repo ∈ repos ∧ ∃ mdFiles, tree_of w octokit repo = Return mdFiles ∧ t ∈ mdFiles.
Proof.
  unfold walked. rewrite list_elem_of_In, in_flat_map. split.
  - intros (r & Hr%list_elem_of_In & Hin%list_elem_of_In).
    destruct (tree_of w octokit r) as [mdFiles|e] eqn:Htree.
    + apply list_elem_of_fmap in Hin as (t' & [= -> ->] & Ht). eauto.
    + by apply elem_of_nil in Hin.
  - intros (Hr & mdFiles & Htree & Ht). exists repo.
    split; [by apply list_elem_of_In|]. rewrite Htree.
    apply list_elem_of_In, list_elem_of_fmap. eauto.
Qed.

Section ValueOrg.
Variable w : World.
Variable config : ScrapeConfig.t.
Variable prevState : ScrapeState.t.
Variable octokit : Octokit.
Implicit Type m : Machine ScrapeState.t.
Local Abbreviation org_post := (org_post w config prevState octokit).
Local Abbreviation asked := (asked config).
Local Abbreviation listed := (listed config).

Lemma org_post_start m0 : org_post m0 [] m0.
Proof.
  split; simpl; rewrite ?app_nil_r; try done; try lia.
  - exists []. unfold emitted.
    destruct (ScrapeConfig.onProgress config); by rewrite app_nil_r.
  - intros _ repo mdFiles Hin. by apply elem_of_nil in Hin.
Qed.

Lemma mono_inv_asked repo m : mono_inv m → mono_inv (asked repo m).
Proof.
  intros Hinv.
  eapply (mono_inv_emit m _ (tree_event repo m) (ScrapeConfig.onProgress config));
    [done|..]; unfold bounded, done_count; simpl; try lia.
  unfold emitted. by destruct (ScrapeConfig.onProgress config).
Qed.

Lemma scrapeRepo_Throw repo m e :
  tree_of w octokit repo = Throw e →
  ∃ line, scrapeRepo w config prevState octokit repo m
          = (Return tt, set_console (λ l, l ++ [line]) (asked repo m)).
Proof.
  unfold tree_of, scrapeRepo, asked, tree_call, emitted.
  destruct (destructure_full_name (Repo.full_name repo)) as [owner repoName].
  intros Htree. eexists.
  unfold bind, emit_totals, emit, list_tree, try_catch, bind, request, bind, modify, await.
  rewrite Htree. unfold console_warn, modify, ret.
  destruct (ScrapeConfig.onProgress config); simpl; [reflexivity|].
  unfold set_console, set_calls, set_progress; simpl. by rewrite app_nil_r.
Qed.

Lemma scrapeRepo_Return repo m mdFiles :
  tree_of w octokit repo = Return mdFiles →
  ∃ m', scrapeRepo w config prevState octokit repo m = (Return tt, m') ∧
        tree_post w config prevState octokit repo (listed repo mdFiles m) mdFiles m'.
Proof.
  intros Htree.
  destruct (destructure_full_name (Repo.full_name repo)) as [owner repoName] eqn:Hsplit.
  destruct (files_loop w config prevState octokit repo mdFiles
              (listed repo mdFiles m) owner repoName Hsplit) as (m' & Hrun & Hpost).
  { simpl. by rewrite lookup_insert_eq. }
  exists m'. split; [|done].
  rewrite <- Hrun.
  unfold tree_of in Htree.
  unfold scrapeRepo, listed, asked, tree_call, emitted.
  rewrite Hsplit in *.
  unfold bind, emit_totals, emit, list_tree, try_catch, bind, request, bind, modify, await.
  rewrite Htree. unfold new_bucket, modify, ret.
  destruct (ScrapeConfig.onProgress config); simpl; [reflexivity|].
  unfold set_mem, set_totalFiles, set_calls, set_progress; simpl.
  by rewrite app_nil_r.
Qed.

Lemma mono_inv_listed repo mdFiles m : mono_inv m → mono_inv (listed repo mdFiles m).
Proof.
  intros Hinv%(mono_inv_asked repo).
  eapply (mono_inv_emit (asked repo m) _ (tree_event repo m) false);
    [done|simpl; by rewrite app_nil_r|..]; unfold bounded, done_count; simpl; lia.
Qed.

Lemma calls_of_snoc pre repo :
  calls_of w octokit prevState (pre ++ [repo]) =
  calls_of w octokit prevState pre ++
    tree_call repo :: flat_map (request_of prevState) (walked w octokit [repo]).
Proof. unfold calls_of. rewrite flat_map_app. simpl. by rewrite app_nil_r. Qed.

Lemma org_post_step m0 pre repo m :
  org_post m0 pre m →
  ∃ m', scrapeRepo w config prevState octokit repo m = (Return tt, m') ∧
        org_post m0 (pre ++ [repo]) m'.
Proof.
  intros [Hres Hcalls Hf Hs Ht (events & Hp & Hev) Hmono Hreads Hls Habs Hbuck].
  assert (Forall (λ e,
      (ScrapeProgress.phase e = Phase.tree ∨ ScrapeProgress.phase e = Phase.files) ∧
      ∃ r, r ∈ pre ++ [repo] ∧ ScrapeProgress.repo e = Some (Repo.full_name r))
    (events ++ [tree_event repo m])) as Hev'.
  { apply Forall_app. split.
    - eapply Forall_impl; [exact Hev|]. intros e [? (r & ? & ?)].
      split; [done|]. exists r. split; [|done]. apply elem_of_app. by left.
    - apply Forall_singleton. split; [by left|]. exists repo.
      split; [|done]. apply elem_of_app. right. by apply list_elem_of_singleton. }
  destruct (tree_of w octokit repo) as [mdFiles|e] eqn:Htree.
  - destruct (scrapeRepo_Return repo m mdFiles Htree) as (m' & Hrun & Hpost).
    exists m'. split; [done|].
    destruct Hpost as [Hres' Hcalls' Hf' Hs' Ht' (events' & Hp' & Hev2) Hmono' Hreads'
                         Hls' Hoth' (cache & Hcache & Hdom & Hentries)].
    simpl in *.
    split.
    + by rewrite Hres', Hres, walked_app, flat_map_app, <- app_assoc,
         (walked_one_Return _ _ _ _ Htree).
    + rewrite Hcalls', Hcalls, calls_of_snoc, (walked_one_Return _ _ _ _ Htree).
      by rewrite <- !app_assoc.
    + rewrite Hf', Hf, walked_app, flat_map_app, length_app,
        (walked_one_Return _ _ _ _ Htree). lia.
    + rewrite Hs', Hs, walked_app, filter_app, length_app,
        (walked_one_Return _ _ _ _ Htree). lia.
    + rewrite Ht', Ht, walked_app, length_app, (walked_one_Return _ _ _ _ Htree),
        length_fmap. lia.
    + exists ((events ++ [tree_event repo m]) ++ events'). split.
      * by rewrite Hp', Hp, !emitted_app, <- !app_assoc.
      * apply Forall_app. split; [done|].
        eapply Forall_impl; [exact Hev2|]. intros e' [? ?].
        split; [by right|]. exists repo. split; [|done].
        apply elem_of_app. right. by apply list_elem_of_singleton.
    + intros H0. by apply Hmono', mono_inv_listed, Hmono.
    + lia.
    + congruence.
    + intros full_name Hfail.
      destruct (decide (full_name = Repo.full_name repo)) as [->|Hne].
      * destruct (Hfail repo) as [e He]; [|done|congruence].
        apply elem_of_app. right. by apply list_elem_of_singleton.
      * rewrite Hoth', lookup_insert_ne by done. apply Habs.
        intros r Hr. apply Hfail. apply elem_of_app. by left.
    + rewrite fmap_app. intros [Hnd [Hfresh _]]%NoDup_app r files' [Hr|Hr]%elem_of_app Hfiles.
      * assert (Repo.full_name r ≠ Repo.full_name repo) as Hne.
        { intros Heq. apply (Hfresh (Repo.full_name r)).
          - apply list_elem_of_fmap. eauto.
          - rewrite Heq. simpl. by apply list_elem_of_singleton. }
        destruct (Hbuck Hnd r files' Hr Hfiles) as (cache' & Hc' & Hdom' & Hent').
        exists cache'. split; [by rewrite Hoth', lookup_insert_ne|].
        split; [done|]. intros Hnd' t Hin.
        destruct (Hent' Hnd' t Hin) as (stamp & ? & Hst).
        exists stamp. split; [done|]. eapply stamp_of_mono; [| |exact Hst]; lia.
      * apply list_elem_of_singleton in Hr as ->.
        assert (files' = mdFiles) as -> by congruence.
        exists cache. split; [done|]. split; [done|]. intros Hnd' t Hin.
        destruct (Hentries Hnd' t Hin) as (stamp & ? & Hst).
        exists stamp. split; [done|]. eapply stamp_of_mono; [| |exact Hst]; lia.
  - destruct (scrapeRepo_Throw repo m e Htree) as (line & Hrun).
    eexists. split; [exact Hrun|].
    split; simpl.
    + by rewrite Hres, walked_app, (walked_one_Throw _ _ _ _ Htree), app_nil_r.
    + rewrite Hcalls, calls_of_snoc, (walked_one_Throw _ _ _ _ Htree).
      by rewrite <- !app_assoc.
    + by rewrite Hf, walked_app, (walked_one_Throw _ _ _ _ Htree), app_nil_r.
    + by rewrite Hs, walked_app, (walked_one_Throw _ _ _ _ Htree), app_nil_r.
    + by rewrite Ht, walked_app, (walked_one_Throw _ _ _ _ Htree), app_nil_r.
    + exists (events ++ [tree_event repo m]). split; [|done].
      by rewrite Hp, !emitted_app, <- !app_assoc.
    + intros H0. by apply (mono_inv_asked repo), Hmono.
    + done.
    + done.
    + intros full_name Hfail. apply Habs.
      intros r Hr. apply Hfail. apply elem_of_app. by left.
    + rewrite fmap_app. intros [Hnd _]%NoDup_app r files' [Hr|Hr]%elem_of_app Hfiles.
      * by apply Hbuck.
      * apply list_elem_of_singleton in Hr as ->. congruence.
Qed.

Lemma repos_loop (repos : list Repo.t) m0 :
  ∃ m', for_of repos (scrapeRepo w config prevState octokit) m0 = (Return tt, m') ∧
        org_post m0 repos m'.
Proof.
  apply (for_of_invariant (org_post m0)).
  - apply org_post_start.
  - intros pre x post m _ Hinv. by apply org_post_step.
Qed.
End ValueOrg.

(** ** One run *)

Section Run.
Variable w : World.
Variable config : ScrapeConfig.t.
Variable prevState : ScrapeState.t.
Variable n : nat.

Local Abbreviation octokit := (createOctokit (ScrapeConfig.token config)).
Local Abbreviation org := (ScrapeConfig.org config).
Local Abbreviation repos_event := (repos_event config).
Local Abbreviation started := (started w config n).
Local Abbreviation run_post := (run_post w config prevState n).

Lemma run_prefix :
  run w config prevState n =
  match listOrgRepos (github w) octokit org with
  | Return allRepos =>
      bind (for_of (retained config allRepos) (scrapeRepo w config prevState octokit))
        (λ _, bind (emit_totals config Phase.done None None)
           (λ _, bind (gets results) (λ files, bind (gets mem) (λ state,
              ret (files, state))))) started
  | Throw e => (Throw e, started)
  end.
Proof.
  unfold run, scrapeOrg, started, emitted, repos_event.
  unfold bind at 1. unfold Date_now at 1. unfold bind at 1. unfold modify at 1.
  unfold bind at 1. unfold emit at 1, modify at 1.
  unfold bind at 1. unfold request at 1, bind at 1, modify at 1, await at 1.
  unfold boot, init_locals, set_reads, set_calls, set_progress. simpl.
  destruct (ScrapeConfig.onProgress config); simpl;
    destruct (listOrgRepos _ _ _); reflexivity.
Qed.

Lemma mono_inv_started : mono_inv started.
Proof.
  unfold mono_inv, started, emitted. simpl.
  destruct (ScrapeConfig.onProgress config).
  - split.
    + apply (monotone_snoc []).
      * intros i j e1 e2 _ H. by rewrite lookup_nil in H.
      * done.
    + apply Forall_singleton. unfold bounded, done_count. simpl. lia.
  - split; [|done]. intros i j e1 e2 _ H. by rewrite lookup_nil in H.
Qed.

Lemma run_Return allRepos :
  listOrgRepos (github w) octokit org = Return allRepos →
  ∃ files st m,
    run w config prevState n = (Return (files, st), m) ∧
    results m = files ∧ mem m = st ∧
    run_post allRepos files st m.
Proof.
  intros Hlist. rewrite run_prefix, Hlist.
  destruct (repos_loop w config prevState octokit (retained config allRepos) started)
    as (m' & Hloop & Hpost).
  unfold bind at 1. rewrite Hloop.
  destruct Hpost as [Hres Hcalls Hf Hs Ht (events & Hp & Hev) Hmono Hreads Hls
                       Habs Hbuck].
  simpl in *.
  set (final := done_event (totalFetched m') (totalSkipped m') (totalFiles m')).
  exists (results m'), (mem m'),
    (set_progress (λ l, l ++ emitted config [final]) m').
  split.
  { unfold bind, emit_totals, emit, modify, gets, ret, emitted. subst final.
    unfold done_event.
    destruct (ScrapeConfig.onProgress config); simpl; [done|].
    unfold set_progress. simpl. rewrite app_nil_r. by destruct m'. }
  split; [done|]. split; [done|].
  assert (length (results m') = totalFetched m') as Hlen by (rewrite Hres, Hf; done).
  split; simpl.
  - done.
  - done.
  - exists events. split; [|done].
    subst final. rewrite Hp, Hlen, Hs, Ht.
    unfold emitted. by destruct (ScrapeConfig.onProgress config).
  - cut (mono_inv (set_progress (λ l, l ++ emitted config [final]) m'));
      [by intros [? _]|].
    eapply (mono_inv_emit m' _ final (ScrapeConfig.onProgress config)).
    + apply Hmono, mono_inv_started.
    + simpl. unfold emitted. by destruct (ScrapeConfig.onProgress config).
    + subst final. unfold done_count. simpl. lia.
    + subst final. simpl. lia.
    + subst final. unfold bounded, done_count. simpl. lia.
    + simpl. lia.
    + simpl. lia.
  - lia.
  - done.
  - intros full_name Hfail. by rewrite Habs.
  - intros Hnd repo mdFiles Hin Htree.
    destruct (Hbuck Hnd repo mdFiles Hin Htree) as (cache & ? & ? & Hent).
    exists cache. split; [done|]. split; [done|]. intros Hnd' t Ht'.
    destruct (Hent Hnd' t Ht') as (stamp & ? & Hst).
    exists stamp. split; [done|]. eapply stamp_of_mono; [| |exact Hst]; lia.
Qed.

Lemma run_Throw e :
  listOrgRepos (github w) octokit org = Throw e →
  run w config prevState n = (Throw e, started).
Proof. intros Hlist. by rewrite run_prefix, Hlist. Qed.
End Run.

(** ** Consequences for a run *)

Lemma run_inv w config prevState n files st m :
  run w config prevState n = (Return (files, st), m) →
  ∃ allRepos,
    listOrgRepos (github w) (octokit_of config) (ScrapeConfig.org config)
      = Return allRepos ∧
    results m = files ∧ mem m = st ∧
    run_post w config prevState n allRepos files st m.
Proof.
  intros Hrun.
  destruct (listOrgRepos (github w) (octokit_of config) (ScrapeConfig.org config))
    as [allRepos|e] eqn:Hlist.
  - destruct (run_Return w config prevState n allRepos Hlist)
      as (files' & st' & m' & Hrun' & ? & ? & Hpost).
    rewrite Hrun in Hrun'. injection Hrun' as <- <- <-. eauto.
  - rewrite (run_Throw w config prevState n e Hlist) in Hrun. discriminate.
Qed.

Lemma content_calls_request_of prevState (l : list (Repo.t * TreeEntry.t)) :
  List.filter is_content_call (flat_map (request_of prevState) l)
  = flat_map (request_of prevState) l.
Proof.
  induction l as [|[repo t] l IH]; simpl; [done|].
  rewrite List.filter_app, IH. f_equal.
  unfold request_of, content_call.
  destruct (decide _); [|done].
  by destruct (destructure_full_name (Repo.full_name repo)).
Qed.

Lemma content_calls_of w octokit prevState (repos : list Repo.t) :
  List.filter is_content_call (calls_of w octokit prevState repos)
  = flat_map (request_of prevState) (walked w octokit repos).
Proof.
  induction repos as [|repo repos IH]; [done|].
  change (repo :: repos) with ([repo] ++ repos).
  rewrite walked_app, flat_map_app, <- IH, <- content_calls_request_of.
  change (calls_of w octokit prevState ([repo] ++ repos)) with
    ((tree_call repo :: flat_map (request_of prevState) (walked w octokit [repo]))
       ++ calls_of w octokit prevState repos).
  rewrite List.filter_app. by f_equal.
Qed.

Lemma elem_of_record_of w octokit prevState (l : list (Repo.t * TreeEntry.t)) f :
  f ∈ flat_map (record_of w octokit prevState) l ↔
  ∃ repo t content,
    (repo, t) ∈ l ∧
    to_fetch (bucket prevState (Repo.full_name repo)) t ∧
    content_of w octokit repo t = Return content ∧
    f = {| ScrapedFile.repo := Repo.full_name repo;
           ScrapedFile.path := TreeEntry.path t;
           ScrapedFile.content := content;
           ScrapedFile.sha := TreeEntry.sha t |}.
Proof.
  rewrite list_elem_of_In, in_flat_map. split.
  - intros ([repo t] & Hin%list_elem_of_In & Hf%list_elem_of_In).
    unfold record_of in Hf.
    destruct (decide _) as [Hfetch|]; [|by apply elem_of_nil in Hf].
    destruct (content_of w octokit repo t) as [content|e] eqn:Hc;
      [|by apply elem_of_nil in Hf].
    apply list_elem_of_singleton in Hf. exists repo, t, content. eauto.
  - intros (repo & t & content & Hin & Hfetch & Hc & ->).
    exists (repo, t). split; [by apply list_elem_of_In|].
    unfold record_of. rewrite decide_True by done. rewrite Hc. by left.
Qed.

Lemma elem_of_retained config (allRepos : list Repo.t) repo :
  repo ∈ retained config allRepos ↔
  repo ∈ allRepos ∧
  ∀ test, ScrapeConfig.repoFilter config = Some test → test (Repo.name repo) = true.
Proof.
  unfold retained. destruct (ScrapeConfig.repoFilter config) as [test|].
  - rewrite !list_elem_of_In, filter_In. split.
    + intros [? ?]. split; [done|]. by intros ? [= <-].
    + intros [? Htest]. split; [done|]. by apply Htest.
  - split; [|by intros [? _]]. intros ?. split; [done|]. by intros.
Qed.

(** The shape of the progress log of any run, returning or not. *)
Lemma run_progress_shape w config prevState n :
  ∃ events,
    progress (run w config prevState n).2
      = emitted config (repos_event config :: events) ∧
    Forall (loop_event w config) events.
Proof.
  unfold loop_event, repos_of.
  destruct (listOrgRepos (github w) (octokit_of config) (ScrapeConfig.org config))
    as [allRepos|e] eqn:Hlist.
  - destruct (run_Return w config prevState n allRepos Hlist)
      as (files & st & m & Hrun & _ & _ & Hpost).
    rewrite Hrun. simpl.
    destruct (run_progress _ _ _ _ _ _ _ _ Hpost) as (events & Hp & Hev).
    eexists. split; [exact Hp|].
    apply Forall_app. split.
    + eapply Forall_impl; [exact Hev|]. intros e [? ?]. by right.
    + apply Forall_singleton. by left.
  - rewrite (run_Throw w config prevState n e Hlist). simpl.
    by exists [].
Qed.

Lemma run_monotone_always w config prevState n :
  monotone (progress (run w config prevState n).2).
Proof.
  destruct (listOrgRepos (github w) (octokit_of config) (ScrapeConfig.org config))
    as [allRepos|e] eqn:Hlist.
  - destruct (run_Return w config prevState n allRepos Hlist)
      as (files & st & m & Hrun & _ & _ & Hpost).
    rewrite Hrun. by destruct Hpost.
  - rewrite (run_Throw w config prevState n e Hlist).
    apply (mono_inv_started w config n).
Qed.

(** ** The tests of [scraper.test.ts] *)

Example iso_first_day_1s : iso_first_day 1000 = "1970-01-01T00:00:01.000Z".
Proof. reflexivity. Qed.

(** [it('fetches all md files when no previous state exists')] *)
Example test_first_run :
  ∃ files st m,
    run (test_world false false false) (test_config None) empty_state 0
      = (Return (files, st), m) ∧
    ScrapedFile.path <$> files = ["README.md"; "docs/guide.md"; "README.md"] ∧
    dom (ScrapeState.repos st) = {[ "test-org/repo-a"; "test-org/repo-b" ]} ∧
    ScrapeState.lastScrape st = Some "1970-01-01T00:00:00.000Z" ∧
    ScrapeProgress.phase <$> progress m =
      [Phase.repos; Phase.tree; Phase.files; Phase.files; Phase.tree; Phase.files;
       Phase.done].
Proof.
  do 3 eexists. split; [vm_compute; reflexivity|].
  repeat split; vm_compute; reflexivity.
Qed.

(** [it('skips files whose SHA has not changed (incremental scrape)')] *)
Example test_incremental :
  ∃ files st m,
    run (test_world false false false) (test_config None) test_prevState 0
      = (Return (files, st), m) ∧
    (ScrapedFile.repo <$> files, ScrapedFile.path <$> files)
      = (["test-org/repo-b"], ["README.md"]) ∧
    bucket st "test-org/repo-a" =
      {[ "README.md" := FileEntry.mk "sha-readme-a" (Some 5%Z);
         "docs/guide.md" := FileEntry.mk "sha-guide-a" (Some 1000%Z) ]}.
Proof.
  do 3 eexists. split; [vm_compute; reflexivity|].
  repeat split; vm_compute; reflexivity.
Qed.

(** ** The claims, on stores as values *)

Lemma repos_of_Return w config allRepos :
  listOrgRepos (github w) (octokit_of config) (ScrapeConfig.org config)
    = Return allRepos →
  repos_of w config = retained config allRepos.
Proof. unfold repos_of. by intros ->. Qed.

Lemma run_inv_post w config prevState n files st m :
  run w config prevState n = (Return (files, st), m) →
  ∃ allRepos,
    listOrgRepos (github w) (octokit_of config) (ScrapeConfig.org config)
      = Return allRepos ∧
    repos_of w config = retained config allRepos ∧
    run_post w config prevState n allRepos files st m.
Proof.
  intros (allRepos & Hlist & _ & _ & Hpost)%run_inv.
  exists allRepos. split; [done|]. split; [by apply repos_of_Return|done].
Qed.

(** The requests and the records of a run that returns, read off the
    entries it walked. *)
Lemma run_requests_records w config prevState n files st m :
  run w config prevState n = (Return (files, st), m) →
  let entries := walked w (octokit_of config) (repos_of w config) in
  List.filter is_content_call (calls m) = flat_map (request_of prevState) entries ∧
  files = flat_map (record_of w (octokit_of config) prevState) entries.
Proof.
  intros (allRepos & Hlist & Hrepos & Hpost)%run_inv_post entries.
  subst entries. rewrite Hrepos.
  destruct Hpost as [Hfiles Hcalls _ _ _ _ _ _].
  split; [|done]. rewrite Hcalls. simpl. apply content_calls_of.
Qed.

(** The records of a run that returns are those of the walked entries that
    are new or changed and whose content request is fulfilled. *)
Lemma run_fetched w config prevState n files st m :
  run w config prevState n = (Return (files, st), m) →
  let octokit := octokit_of config in
  let entries := walked w octokit (repos_of w config) in
  (∀ repo t content, (repo, t) ∈ entries →
     to_fetch (bucket prevState (Repo.full_name repo)) t →
     content_of w octokit repo t = Return content →
     {| ScrapedFile.repo := Repo.full_name repo;
        ScrapedFile.path := TreeEntry.path t;
        ScrapedFile.content := content;
        ScrapedFile.sha := TreeEntry.sha t |} ∈ files) ∧
  (∀ f, f ∈ files →
     ∃ repo t, (repo, t) ∈ entries ∧
       to_fetch (bucket prevState (Repo.full_name repo)) t ∧
       content_of w octokit repo t = Return (ScrapedFile.content f) ∧
       ScrapedFile.repo f = Repo.full_name repo ∧
       ScrapedFile.path f = TreeEntry.path t ∧
       ScrapedFile.sha f = TreeEntry.sha t).
Proof.
  intros [_ Hfiles]%run_requests_records octokit entries.
  subst entries octokit. simpl in Hfiles. split.
  - intros repo t content Hin Hfetch Hcontent. rewrite Hfiles.
    apply elem_of_record_of. exists repo, t, content. eauto.
  - intros f Hf. rewrite Hfiles in Hf.
    apply elem_of_record_of in Hf as (repo & t & content & Hin & Hfetch & Hc & ->).
    exists repo, t. simpl. eauto 10.
Qed.

(** C1 (as amended).  In a run that returns, over the entries walked (those
    of every retained repository whose tree listing was fulfilled), in
    order: the content requests are exactly those of the entries whose path
    is absent from the previous bucket or whose fingerprint differs; the
    returned files are exactly the records of those among them whose
    content request was fulfilled.  So an entry is requested iff it is
    new or changed, a record is appended iff moreover its request is
    fulfilled, and an entry with an unchanged fingerprint never yields a
    record. *)
Theorem C1_fetch_iff_changed w config prevState n files st m :
  run w config prevState n = (Return (files, st), m) →
  let octokit := octokit_of config in
  let entries := walked w octokit (repos_of w config) in
  List.filter is_content_call (calls m) = flat_map (request_of prevState) entries ∧
  files = flat_map (record_of w octokit prevState) entries ∧
  (∀ repo t, (repo, t) ∈ entries →
     to_fetch (bucket prevState (Repo.full_name repo)) t →
     content_call repo t ∈ calls m ∧
     ∀ content, content_of w octokit repo t = Return content →
       {| ScrapedFile.repo := Repo.full_name repo;
          ScrapedFile.path := TreeEntry.path t;
          ScrapedFile.content := content;
          ScrapedFile.sha := TreeEntry.sha t |} ∈ files) ∧
  (∀ c, c ∈ calls m → is_content_call c = true →
     ∃ repo t, (repo, t) ∈ entries ∧
       to_fetch (bucket prevState (Repo.full_name repo)) t ∧
       c = content_call repo t) ∧
  (∀ f, f ∈ files →
     ∃ repo t, (repo, t) ∈ entries ∧
       to_fetch (bucket prevState (Repo.full_name repo)) t ∧
       content_of w octokit repo t = Return (ScrapedFile.content f) ∧
       ScrapedFile.repo f = Repo.full_name repo ∧
       ScrapedFile.path f = TreeEntry.path t ∧
       ScrapedFile.sha f = TreeEntry.sha t).
Proof.
  intros Hrun octokit entries.
  destruct (run_requests_records _ _ _ _ _ _ _ Hrun) as [Hreq Hfiles].
  destruct (run_fetched _ _ _ _ _ _ _ Hrun) as [Hin Hrec].
  subst entries octokit. simpl in Hreq, Hfiles, Hin, Hrec.
  split; [done|]. split; [done|]. split; [|split; [|done]].
  - intros repo t Hin' Hfetch. split.
    + assert (content_call repo t ∈ List.filter is_content_call (calls m)) as Hc.
      { rewrite Hreq. apply list_elem_of_In, in_flat_map. exists (repo, t).
        split; [by apply list_elem_of_In|].
        unfold request_of. rewrite decide_True by done. by left. }
      apply list_elem_of_In, filter_In in Hc as [Hc _]. by apply list_elem_of_In.
    + intros content Hcontent. by apply Hin.
  - intros c Hc Hkind.
    assert (c ∈ List.filter is_content_call (calls m)) as Hc'.
    { apply list_elem_of_In, filter_In. split; [by apply list_elem_of_In|done]. }
    rewrite Hreq in Hc'.
    apply list_elem_of_In, in_flat_map in Hc' as ([repo t] & Hwalked & Hreq').
    unfold request_of in Hreq'.
    destruct (decide _) as [Hfetch|]; [|done].
    destruct Hreq' as [<-|[]]. exists repo, t.
    split; [by apply list_elem_of_In|done].
Qed.

Lemma C1_fetch_iff_changed_witness :
  ∃ files st m,
    run (test_world false false false) (test_config None) test_prevState 0
      = (Return (files, st), m) ∧
    List.filter is_content_call (calls m)
      = [CallGetFileContent (Some "test-org") (Some "repo-b") "README.md"] ∧
    ScrapedFile.path <$> files = ["README.md"].
Proof.
  do 3 eexists.
  match goal with
  | |- ?eq ∧ _ => assert eq as Hrun by (vm_compute; reflexivity)
  end.
  split; [exact Hrun|].
  destruct (C1_fetch_iff_changed _ _ _ _ _ _ _ Hrun) as (Hcalls & Hfiles & _).
  split; [rewrite Hcalls|]; vm_compute; reflexivity.
Defined.

(** C1 as stated fails: with an empty previous store and a content request
    that is rejected for [docs/guide.md] of [repo-a], the entry is walked
    and its path is absent from the previous bucket, yet no record of it is
    appended. *)
Lemma C1_counterexample :
  ∃ files st m,
    run (test_world false false true) (test_config None) empty_state 0
      = (Return (files, st), m) ∧
    (repo_a, guide_a) ∈ walked (test_world false false true)
                          (octokit_of (test_config None))
                          (repos_of (test_world false false true) (test_config None)) ∧
    to_fetch (bucket empty_state (Repo.full_name repo_a)) guide_a ∧
    (ScrapedFile.repo <$> files, ScrapedFile.path <$> files)
      = (["test-org/repo-a"; "test-org/repo-b"], ["README.md"; "README.md"]).
Proof.
  do 3 eexists. split; [vm_compute; reflexivity|].
  split; [|split; [by left|vm_compute; reflexivity]].
  vm_compute. apply list_elem_of_In. right. by left.
Qed.

(** C10.  Whatever the inputs and whichever request fails, every event a
    run hands to the progress callback has phase [repos], [tree], [files]
    or [done]; [error] is never emitted. *)
Theorem C10_no_error_phase w config prevState n :
  Forall (λ e, ScrapeProgress.phase e ∈
               [Phase.repos; Phase.tree; Phase.files; Phase.done])
    (progress (run w config prevState n).2).
Proof.
  destruct (run_progress_shape w config prevState n) as (events & -> & Hev).
  unfold emitted. destruct (ScrapeConfig.onProgress config); [|done].
  apply Forall_cons. split.
  - simpl. apply list_elem_of_here.
  - eapply Forall_impl; [exact Hev|].
    intros e [[-> _]|[[-> | ->] _]]; apply list_elem_of_In; simpl; tauto.
Qed.

(** C8 (as amended).  In every run, returning or not, the events handed to
    the progress callback are monotone: a later event never reports a
    smaller [fetched + skipped] nor a smaller [total].  The run returns
    exactly when the repository listing is fulfilled.  When the run
    returns and a callback was supplied, the last event has phase [done]
    and carries the final counts: the number of files returned, the
    number of walked entries with an unchanged fingerprint, and the number
    of walked entries.  When the repository listing is rejected, the run
    raises the error of the listing and the events handed to the callback
    are the single event of phase [repos], and nothing else. *)
Theorem C8_progress_monotone w config prevState n :
  monotone (progress (run w config prevState n).2) ∧
  (∀ files st m,
     run w config prevState n = (Return (files, st), m) →
     ScrapeConfig.onProgress config = true →
     let entries := walked w (octokit_of config) (repos_of w config) in
     last (progress m)
     = Some (done_event (length files)
               (length (filter (unchanged prevState) entries))
               (length entries))) ∧
  (∀ allRepos,
     listOrgRepos (github w) (octokit_of config) (ScrapeConfig.org config)
       = Return allRepos →
     ∃ files st m, run w config prevState n = (Return (files, st), m)) ∧
  (∀ e,
     listOrgRepos (github w) (octokit_of config) (ScrapeConfig.org config)
       = Throw e →
     ∃ m,
       run w config prevState n = (Throw e, m) ∧
       progress m = emitted config [repos_event config] ∧
       (ScrapeConfig.onProgress config = true →
        ScrapeProgress.phase <$> progress m = [Phase.repos])).
Proof.
  split; [apply run_monotone_always|]. split; [|split].
  - intros files st m (allRepos & Hlist & Hrepos & Hpost)%run_inv_post Hsink entries.
    subst entries. rewrite Hrepos.
    destruct (run_progress _ _ _ _ _ _ _ _ Hpost) as (events & Hp & _).
    rewrite Hp. unfold emitted. rewrite Hsink.
    by rewrite app_comm_cons, last_snoc.
  - intros allRepos Hlist.
    destruct (run_Return w config prevState n allRepos Hlist)
      as (files & st & m & Hrun & _).
    by exists files, st, m.
  - intros e Hlist. exists (started w config n).
    split; [by apply run_Throw|].
    assert (progress (started w config n) = emitted config [repos_event config])
      as Hp by (unfold started, emitted; simpl;
                by destruct (ScrapeConfig.onProgress config)).
    split; [exact Hp|].
    intros Hsink. rewrite Hp. unfold emitted. by rewrite Hsink.
Qed.

Lemma C8_progress_monotone_witness :
  (∃ files st m,
     run (test_world false false false) (test_config None) test_prevState 0
       = (Return (files, st), m) ∧
     last (progress m) = Some (done_event 1 2 3) ∧
     (done_count <$> progress m, ScrapeProgress.total <$> progress m)
       = ([0; 0; 1; 2; 2; 2; 3], [0; 0; 2; 2; 2; 3; 3])) ∧
  (∃ m,
     run (test_world true false false) (test_config None) test_prevState 0
       = (Throw (Error.mk "Not Found"), m) ∧
     ScrapeProgress.phase <$> progress m = [Phase.repos]).
Proof.
  split.
  - do 3 eexists.
    match goal with
    | |- ?eq ∧ _ => assert eq as Hrun by (vm_compute; reflexivity)
    end.
    split; [exact Hrun|]. split.
    + rewrite (proj1 (proj2 (C8_progress_monotone _ _ _ _)) _ _ _ Hrun eq_refl).
      vm_compute. reflexivity.
    + vm_compute. reflexivity.
  - destruct (proj2 (proj2 (proj2
                (C8_progress_monotone (test_world true false false)
                   (test_config None) test_prevState 0)))
                (Error.mk "Not Found") eq_refl)
      as (m & Hrun & _ & Hphase).
    exists m. split; [exact Hrun|]. by apply Hphase.
Defined.

(** C8 as stated fails: when the repository listing is rejected the run
    raises, and the last (and only) event it has emitted has phase
    [repos], not [done]. *)
Lemma C8_counterexample :
  ∃ e m,
    run (test_world true false false) (test_config None) empty_state 0 = (Throw e, m) ∧
    ScrapeProgress.phase <$> last (progress m) = Some Phase.repos.
Proof. do 2 eexists. split; vm_compute; reflexivity. Qed.

Lemma NoDup_fmap_elem_inj {A B} (f : A → B) (l : list A) x y :
  NoDup (f <$> l) → x ∈ l → y ∈ l → f x = f y → x = y.
Proof.
  induction l as [|a l IH]; intros Hnd Hx Hy Hf; [by apply elem_of_nil in Hx|].
  rewrite fmap_cons in Hnd. apply NoDup_cons in Hnd as [Hfresh Hnd].
  apply elem_of_cons in Hx as [->|Hx]; apply elem_of_cons in Hy as [->|Hy].
  - done.
  - exfalso. apply Hfresh. rewrite Hf. apply list_elem_of_fmap. eauto.
  - exfalso. apply Hfresh. rewrite <- Hf. apply list_elem_of_fmap. eauto.
  - by apply IH.
Qed.

Lemma repos_of_matching w config test repo :
  ScrapeConfig.repoFilter config = Some test →
  repo ∈ repos_of w config → matching w config test (Repo.full_name repo).
Proof.
  intros Hfilter. unfold repos_of, matching.
  destruct (listOrgRepos _ _ _) as [allRepos|]; [|by intros ?%elem_of_nil].
  intros [? Htest]%elem_of_retained. exists allRepos, repo. eauto.
Qed.

(** C7.  With a filter, every record of the output and every progress
    event that names a repository (the [tree] and [files] events) names a
    repository of the listing whose short name passes the filter.  When the
    listing has distinct full names, this says that a repository whose
    short name fails the filter is named by no record and by no event. *)
Theorem C7_filter_only_matching w config prevState n test out m :
  ScrapeConfig.repoFilter config = Some test →
  run w config prevState n = (out, m) →
  ((∀ files st f, out = Return (files, st) → f ∈ files →
      matching w config test (ScrapedFile.repo f)) ∧
   (∀ e full_name, e ∈ progress m → ScrapeProgress.repo e = Some full_name →
      matching w config test full_name)) ∧
  (∀ allRepos repo,
     listOrgRepos (github w) (octokit_of config) (ScrapeConfig.org config)
       = Return allRepos →
     NoDup (Repo.full_name <$> allRepos) →
     repo ∈ allRepos → test (Repo.name repo) = false →
     (∀ files st f, out = Return (files, st) → f ∈ files →
        ScrapedFile.repo f ≠ Repo.full_name repo) ∧
     (∀ e, e ∈ progress m → ScrapeProgress.repo e ≠ Some (Repo.full_name repo))).
Proof.
  intros Hfilter Hrun.
  assert ((∀ files st f, out = Return (files, st) → f ∈ files →
             matching w config test (ScrapedFile.repo f)) ∧
          (∀ e full_name, e ∈ progress m → ScrapeProgress.repo e = Some full_name →
             matching w config test full_name)) as [Hfiles Hevents].
  { split.
    - intros files st f -> Hf.
      destruct (run_fetched _ _ _ _ _ _ _ Hrun) as [_ Hrec].
      destruct (Hrec f Hf) as (repo & t & [Hin _]%elem_of_walked & _ & _ & -> & _).
      by apply repos_of_matching.
    - intros e full_name He Hname.
      destruct (run_progress_shape w config prevState n) as (events & Hp & Hev).
      rewrite Hrun in Hp. simpl in Hp. rewrite Hp in He.
      unfold emitted in He. destruct (ScrapeConfig.onProgress config);
        [|by apply elem_of_nil in He].
      apply elem_of_cons in He as [->|He]; [done|].
      rewrite Forall_forall in Hev.
      destruct (Hev e He) as [[_ Hnone]|[_ (repo & Hrepo & Hsome)]]; [congruence|].
      assert (full_name = Repo.full_name repo) as -> by congruence.
      by apply repos_of_matching. }
  split; [done|].
  intros allRepos repo Hlist Hnd Hrepo Hfail.
  assert (¬ matching w config test (Repo.full_name repo)) as Hno.
  { intros (allRepos' & repo' & Hlist' & Hrepo' & Hpass & Hsame).
    assert (allRepos' = allRepos) as -> by congruence.
    assert (repo' = repo) as -> by (by eapply NoDup_fmap_elem_inj).
    congruence. }
  split.
  - intros files st f Hout Hf Hsame. apply Hno. rewrite <- Hsame. by eapply Hfiles.
  - intros e He Hsame. apply Hno. by eapply Hevents.
Qed.

(** [it('applies repoFilter to skip non-matching repos')] *)
Lemma C7_filter_only_matching_witness :
  ∃ files st m,
    run (test_world false false false) (test_config (Some only_repo_a)) empty_state 0
      = (Return (files, st), m) ∧
    ScrapedFile.repo <$> files = ["test-org/repo-a"; "test-org/repo-a"] ∧
    (∀ f, f ∈ files → ScrapedFile.repo f ≠ Repo.full_name repo_b) ∧
    (∀ e, e ∈ progress m → ScrapeProgress.repo e ≠ Some (Repo.full_name repo_b)).
Proof.
  do 3 eexists.
  match goal with
  | |- ?eq ∧ _ => assert eq as Hrun by (vm_compute; reflexivity)
  end.
  split; [exact Hrun|]. split; [vm_compute; reflexivity|].
  destruct (C7_filter_only_matching (test_world false false false)
              (test_config (Some only_repo_a)) empty_state 0 only_repo_a _ _
              eq_refl Hrun) as [_ Hnever].
  destruct (Hnever [repo_a; repo_b] repo_b) as [Hfiles Hevents].
  - reflexivity.
  - compute_done.
  - apply list_elem_of_In. simpl. tauto.
  - reflexivity.
  - split; [|done]. intros f Hf. by eapply Hfiles.
Defined.

Lemma elem_of_repos_of w config repo :
  repo ∈ repos_of w config →
  ∃ allRepos,
    listOrgRepos (github w) (octokit_of config) (ScrapeConfig.org config)
      = Return allRepos ∧
    repos_of w config = retained config allRepos.
Proof.
  unfold repos_of. destruct (listOrgRepos _ _ _) as [allRepos|];
    [eauto|by intros ?%elem_of_nil].
Qed.

(** A run whose repository listing is fulfilled returns, and its new store
    holds the bucket of every repository whose tree listing is fulfilled. *)
Lemma run_bucket_of w config prevState n repo mdFiles :
  NoDup (Repo.full_name <$> repos_of w config) →
  repo ∈ repos_of w config →
  tree_of w (octokit_of config) repo = Return mdFiles →
  ∃ files st m cache,
    run w config prevState n = (Return (files, st), m) ∧
    run_post w config prevState n
      (default [] (match listOrgRepos (github w) (octokit_of config)
                           (ScrapeConfig.org config) with
                   | Return allRepos => Some allRepos | Throw _ => None end))
      files st m ∧
    ScrapeState.repos st !! Repo.full_name repo = Some cache ∧
    bucket st (Repo.full_name repo) = RepoCache.files cache ∧
    dom (RepoCache.files cache) = list_to_set (TreeEntry.path <$> mdFiles) ∧
    (NoDup (TreeEntry.path <$> mdFiles) → ∀ t, t ∈ mdFiles → ∃ stamp,
       RepoCache.files cache !! TreeEntry.path t = Some (entry_for t stamp) ∧
       stamp_of w (bucket prevState (Repo.full_name repo) !! TreeEntry.path t)
         t n (reads m) stamp).
Proof.
  intros Hnd Hrepo Htree.
  destruct (elem_of_repos_of _ _ _ Hrepo) as (allRepos & Hlist & Hrepos).
  rewrite Hlist. simpl. rewrite Hrepos in *.
  destruct (run_Return w config prevState n allRepos Hlist)
    as (files & st & m & Hrun & _ & _ & Hpost).
  destruct (run_bucket _ _ _ _ _ _ _ _ Hpost Hnd repo mdFiles Hrepo Htree)
    as (cache & Hcache & Hdom & Hent).
  exists files, st, m, cache. split; [done|]. split; [done|]. split; [done|].
  split; [unfold bucket; by rewrite Hcache|]. split; [done|].
  intros Hnd' t Ht. destruct (Hent Hnd' t Ht) as (stamp & ? & ?).
  exists stamp. by rewrite <- lookup_prev_bucket.
Qed.

(** The stamp of an entry that is new or changed is a reading of the
    clock. *)
Lemma stamp_of_to_fetch w (P : gmap string FileEntry.t) t lo hi stamp :
  stamp_of w (P !! TreeEntry.path t) t lo hi stamp →
  to_fetch P t →
  ∃ k, lo ≤ k < hi ∧ stamp = clock w k.
Proof.
  intros Hstamp Hfetch.
  destruct Hstamp as [e' s' He' Hsha' _|e' k He' Hsha' _ _|k _ Hk]; [| |eauto].
  - destruct Hfetch as [Hnone|(e & He & Hne)]; congruence.
  - destruct Hfetch as [Hnone|(e & He & Hne)]; congruence.
Qed.

(** C3.  Take a run whose retained repositories have distinct full names,
    a repository of it whose tree listing is fulfilled with distinct paths,
    and an entry [t] of that listing.  The run returns, and the bucket of
    the new store maps the path of [t] to the fingerprint of [t] with a
    time stamp which is: the previous time stamp itself, when the previous
    store has an entry for the path with the same fingerprint; a reading
    of the clock taken during the run ("now"), when that previous entry has
    no time stamp, or when the path is new or the fingerprint differs. *)
Theorem C3_timestamp_carried_or_now w config prevState n repo mdFiles t :
  NoDup (Repo.full_name <$> repos_of w config) →
  repo ∈ repos_of w config →
  tree_of w (octokit_of config) repo = Return mdFiles →
  NoDup (TreeEntry.path <$> mdFiles) →
  t ∈ mdFiles →
  ∃ files st m stamp,
    run w config prevState n = (Return (files, st), m) ∧
    bucket st (Repo.full_name repo) !! TreeEntry.path t
      = Some {| FileEntry.sha := TreeEntry.sha t;
                FileEntry.lastFetched := Some stamp |} ∧
    let previous := bucket prevState (Repo.full_name repo) !! TreeEntry.path t in
    let now := ∃ k, n ≤ k < reads m ∧ stamp = clock w k in
    (∀ e previous_stamp,
       previous = Some e → FileEntry.sha e = TreeEntry.sha t →
       FileEntry.lastFetched e = Some previous_stamp → stamp = previous_stamp) ∧
    (∀ e,
       previous = Some e → FileEntry.sha e = TreeEntry.sha t →
       FileEntry.lastFetched e = None → now) ∧
    (to_fetch (bucket prevState (Repo.full_name repo)) t → now).
Proof.
  intros Hnd Hrepo Htree Hnd' Ht.
  destruct (run_bucket_of w config prevState n repo mdFiles Hnd Hrepo Htree)
    as (files & st & m & cache & Hrun & _ & _ & Hbucket & _ & Hent).
  destruct (Hent Hnd' t Ht) as (stamp & Hlook & Hstamp).
  exists files, st, m, stamp. split; [done|]. split; [by rewrite Hbucket|].
  simpl. split; [|split].
  - intros e s He Hsha Hs.
    destruct Hstamp as [e' s' He' _ Hs'|e' k He' _ Hs' _|k Hne _]; [congruence..|].
    by destruct (Hne e He).
  - intros e He Hsha Hs.
    destruct Hstamp as [e' s' He' _ Hs'|e' k He' _ Hs' Hk|k Hne Hk]; [congruence|eauto..].
  - intros Hfetch. by eapply stamp_of_to_fetch.
Qed.

Lemma C3_timestamp_carried_or_now_witness :
  ∃ files st m,
    run (test_world false false false) (test_config None) test_prevState 0
      = (Return (files, st), m) ∧
    bucket st "test-org/repo-a" !! "README.md"
      = Some (FileEntry.mk "sha-readme-a" (Some 5%Z)).
Proof.
  destruct (C3_timestamp_carried_or_now (test_world false false false)
              (test_config None) test_prevState 0 repo_a [readme_a; guide_a] readme_a)
    as (files & st & m & stamp & Hrun & Hlook & Hcarried & _).
  - compute_done.
  - apply list_elem_of_In. simpl. tauto.
  - reflexivity.
  - compute_done.
  - apply list_elem_of_In. simpl. tauto.
  - exists files, st, m. split; [done|].
    assert (stamp = 5%Z) as ->; [|exact Hlook].
    apply (Hcarried (FileEntry.mk "sha-readme-a" (Some 5%Z))); vm_compute; reflexivity.
Defined.

(** C4.  For a repository whose tree listing is fulfilled (the retained
    repositories having distinct full names), the run returns and the
    bucket of the new store has exactly the paths of the listing; a path
    of the previous bucket that the listing no longer has is absent. *)
Theorem C4_bucket_paths_are_tree_paths w config prevState n repo mdFiles :
  NoDup (Repo.full_name <$> repos_of w config) →
  repo ∈ repos_of w config →
  tree_of w (octokit_of config) repo = Return mdFiles →
  ∃ files st m,
    run w config prevState n = (Return (files, st), m) ∧
    is_Some (ScrapeState.repos st !! Repo.full_name repo) ∧
    dom (bucket st (Repo.full_name repo)) = list_to_set (TreeEntry.path <$> mdFiles) ∧
    ∀ path, path ∈ dom (bucket prevState (Repo.full_name repo)) →
            path ∉ TreeEntry.path <$> mdFiles →
            bucket st (Repo.full_name repo) !! path = None.
Proof.
  intros Hnd Hrepo Htree.
  destruct (run_bucket_of w config prevState n repo mdFiles Hnd Hrepo Htree)
    as (files & st & m & cache & Hrun & _ & Hcache & Hbucket & Hdom & _).
  exists files, st, m. split; [done|]. split; [by rewrite Hcache|].
  rewrite Hbucket. split; [done|].
  intros path _ Hgone. apply not_elem_of_dom. rewrite Hdom.
  by rewrite elem_of_list_to_set.
Qed.

Lemma C4_bucket_paths_are_tree_paths_witness :
  ∃ files st m,
    run (test_world false false false) (test_config None) test_stale 0
      = (Return (files, st), m) ∧
    dom (bucket st "test-org/repo-a") = {[ "README.md"; "docs/guide.md" ]} ∧
    bucket st "test-org/repo-a" !! "old/gone.md" = None.
Proof.
  destruct (C4_bucket_paths_are_tree_paths (test_world false false false)
              (test_config None) test_stale 0 repo_a [readme_a; guide_a])
    as (files & st & m & Hrun & _ & Hdom & Hgone).
  - compute_done.
  - apply list_elem_of_In. simpl. tauto.
  - reflexivity.
  - exists files, st, m. split; [done|]. split.
    + etransitivity; [exact Hdom|]. vm_compute. reflexivity.
    + apply Hgone; compute_done.
Defined.

(** C5.  When the tree listing of a retained repository is rejected (the
    retained repositories having distinct full names), the run still
    returns; the new store has no bucket for that repository and no
    returned record names it; and the walk goes on: every entry of any
    other repository that is new or changed and whose content request is
    fulfilled has its record in the output. *)
Theorem C5_tree_failure_skips_repository w config prevState n repo e :
  NoDup (Repo.full_name <$> repos_of w config) →
  repo ∈ repos_of w config →
  tree_of w (octokit_of config) repo = Throw e →
  ∃ files st m,
    run w config prevState n = (Return (files, st), m) ∧
    ScrapeState.repos st !! Repo.full_name repo = None ∧
    (∀ f, f ∈ files → ScrapedFile.repo f ≠ Repo.full_name repo) ∧
    (∀ other mdFiles t content,
       other ∈ repos_of w config →
       tree_of w (octokit_of config) other = Return mdFiles → t ∈ mdFiles →
       to_fetch (bucket prevState (Repo.full_name other)) t →
       content_of w (octokit_of config) other t = Return content →
       {| ScrapedFile.repo := Repo.full_name other;
          ScrapedFile.path := TreeEntry.path t;
          ScrapedFile.content := content;
          ScrapedFile.sha := TreeEntry.sha t |} ∈ files).
Proof.
  intros Hnd Hrepo Htree.
  destruct (elem_of_repos_of _ _ _ Hrepo) as (allRepos & Hlist & Hrepos).
  destruct (run_Return w config prevState n allRepos Hlist)
    as (files & st & m & Hrun & _ & _ & Hpost).
  exists files, st, m. split; [done|].
  destruct (run_fetched _ _ _ _ _ _ _ Hrun) as [Hin Hrec].
  simpl in Hin, Hrec. rewrite Hrepos in *.
  split; [|split].
  - apply (run_absent _ _ _ _ _ _ _ _ Hpost).
    intros repo' Hrepo' Hsame.
    assert (repo' = repo) as -> by (by eapply NoDup_fmap_elem_inj). eauto.
  - intros f Hf Hsame.
    destruct (Hrec f Hf) as (repo' & t & [Hrepo' (mdFiles & Htree' & _)]%elem_of_walked
                               & _ & _ & Hname & _).
    assert (repo' = repo) as -> by (eapply NoDup_fmap_elem_inj; [done..|congruence]).
    congruence.
  - intros other mdFiles t content Hother Htree' Ht Hfetch Hcontent.
    apply (Hin other _ _); [|done..]. apply elem_of_walked. eauto.
Qed.

Lemma C5_tree_failure_skips_repository_witness :
  ∃ files st m,
    run (test_world false true false) (test_config None) empty_state 0
      = (Return (files, st), m) ∧
    ScrapeState.repos st !! "test-org/repo-b" = None ∧
    ScrapedFile.repo <$> files = ["test-org/repo-a"; "test-org/repo-a"].
Proof.
  destruct (C5_tree_failure_skips_repository (test_world false true false)
              (test_config None) empty_state 0 repo_b
              (Error.mk "Git Repository is empty."))
    as (files & st & m & Hrun & Hnone & _).
  - compute_done.
  - apply list_elem_of_In. simpl. tauto.
  - reflexivity.
  - exists files, st, m. split; [done|]. split; [exact Hnone|].
    assert (run (test_world false true false) (test_config None) empty_state 0
            = (Return (files, st), m)) as Hrun' by done.
    vm_compute in Hrun'. injection Hrun' as <- _ _. reflexivity.
Defined.

(** What contributes nothing may be left out of the walk. *)
Lemma flat_map_filter_nil {A B} (P : A → Prop) `{!∀ x, Decision (P x)}
    (f : A → list B) (l : list A) :
  (∀ x, x ∈ l → ¬ P x → f x = []) → flat_map f (filter P l) = flat_map f l.
Proof.
  induction l as [|x l IH]; intros Hnil; [done|].
  rewrite filter_cons. simpl.
  destruct (decide (P x)) as [HP|HP]; simpl.
  - f_equal. apply IH. intros y Hy. apply Hnil. by right.
  - rewrite (Hnil x) by (done || by left). apply IH.
    intros y Hy. apply Hnil. by right.
Qed.

(** C6.  When the content request of a walked entry [t] that is new or
    changed is rejected (distinct full names, distinct paths), the run still
    returns; no returned record has the repository and path of [t]; the
    bucket of the new store nevertheless maps the path to the fingerprint
    of [t], stamped with a reading of the clock taken during the run; hence,
    against the new store, an entry with that path is to be fetched exactly
    when its fingerprint differs from that of [t].  The walk goes on: every
    other new or changed entry whose content request is fulfilled has its
    record in the output.

    Any later run that is given the new store and returns, whatever the
    remote, the configuration and the time, skips the file: its content
    requests and its records are exactly those of its walk with the entries
    left out that have the repository, the path and the fingerprint of [t];
    so no record of it has them.  When the fingerprint of such an entry has
    changed, its content is requested, and the record is returned when the
    request is fulfilled. *)
Theorem C6_content_failure_recorded w config prevState n repo mdFiles t e :
  NoDup (Repo.full_name <$> repos_of w config) →
  repo ∈ repos_of w config →
  tree_of w (octokit_of config) repo = Return mdFiles →
  NoDup (TreeEntry.path <$> mdFiles) →
  t ∈ mdFiles →
  to_fetch (bucket prevState (Repo.full_name repo)) t →
  content_of w (octokit_of config) repo t = Throw e →
  ∃ files st m k,
    run w config prevState n = (Return (files, st), m) ∧
    (∀ f, f ∈ files →
       ¬ (ScrapedFile.repo f = Repo.full_name repo ∧
          ScrapedFile.path f = TreeEntry.path t)) ∧
    n ≤ k < reads m ∧
    bucket st (Repo.full_name repo) !! TreeEntry.path t
      = Some {| FileEntry.sha := TreeEntry.sha t;
                FileEntry.lastFetched := Some (clock w k) |} ∧
    (∀ t', TreeEntry.path t' = TreeEntry.path t →
       (to_fetch (bucket st (Repo.full_name repo)) t' ↔
        TreeEntry.sha t' ≠ TreeEntry.sha t)) ∧
    (∀ other mdFiles' t' content,
       other ∈ repos_of w config →
       tree_of w (octokit_of config) other = Return mdFiles' → t' ∈ mdFiles' →
       to_fetch (bucket prevState (Repo.full_name other)) t' →
       content_of w (octokit_of config) other t' = Return content →
       {| ScrapedFile.repo := Repo.full_name other;
          ScrapedFile.path := TreeEntry.path t';
          ScrapedFile.content := content;
          ScrapedFile.sha := TreeEntry.sha t' |} ∈ files) ∧
    (∀ w' config' n' files' st' m',
       run w' config' st n' = (Return (files', st'), m') →
       let octokit' := octokit_of config' in
       let entries' := walked w' octokit' (repos_of w' config') in
       let others := filter (λ rt, ¬ same_file repo t rt) entries' in
       List.filter is_content_call (calls m') = flat_map (request_of st) others ∧
       files' = flat_map (record_of w' octokit' st) others ∧
       (∀ f, f ∈ files' →
          ¬ (ScrapedFile.repo f = Repo.full_name repo ∧
             ScrapedFile.path f = TreeEntry.path t ∧
             ScrapedFile.sha f = TreeEntry.sha t)) ∧
       (∀ repo' t', (repo', t') ∈ entries' →
          Repo.full_name repo' = Repo.full_name repo →
          TreeEntry.path t' = TreeEntry.path t →
          TreeEntry.sha t' ≠ TreeEntry.sha t →
          content_call repo' t' ∈ calls m' ∧
          ∀ content, content_of w' octokit' repo' t' = Return content →
            {| ScrapedFile.repo := Repo.full_name repo';
               ScrapedFile.path := TreeEntry.path t';
               ScrapedFile.content := content;
               ScrapedFile.sha := TreeEntry.sha t' |} ∈ files')).
Proof.
  intros Hnd Hrepo Htree Hnd' Ht Hfetch Hcontent.
  destruct (run_bucket_of w config prevState n repo mdFiles Hnd Hrepo Htree)
    as (files & st & m & cache & Hrun & _ & _ & Hbucket & _ & Hent).
  destruct (Hent Hnd' t Ht) as (stamp & Hlook & Hstamp).
  rewrite <- Hbucket in Hlook.
  destruct (stamp_of_to_fetch _ _ _ _ _ _ Hstamp Hfetch) as (k & Hk & ->).
  exists files, st, m, k. split; [done|].
  destruct (run_fetched _ _ _ _ _ _ _ Hrun) as [Hin Hrec].
  simpl in Hin, Hrec.
  assert (∀ repo' t', Repo.full_name repo' = Repo.full_name repo →
            TreeEntry.path t' = TreeEntry.path t →
            (to_fetch (bucket st (Repo.full_name repo')) t' ↔
             TreeEntry.sha t' ≠ TreeEntry.sha t)) as Hlater.
  { intros repo' t' Hname Hpath. unfold to_fetch. rewrite Hname, Hpath, Hlook. split.
    - intros [?|(e' & [= <-] & Hne)]; [done|]. simpl in Hne. congruence.
    - intros Hne. right. eexists. split; [done|]. simpl. congruence. }
  split; [|split; [done|split; [done|split; [|split]]]].
  - intros f Hf [Hname Hpath].
    destruct (Hrec f Hf) as (repo' & t' & _ & _ & Hc & Hname' & Hpath' & _).
    unfold content_of in Hc, Hcontent.
    rewrite <- Hname', Hname, <- Hpath', Hpath in Hc. congruence.
  - intros t' Hpath. by apply (Hlater repo t').
  - intros other mdFiles' t' content Hother Htree' Ht' Hfetch' Hcontent'.
    apply (Hin other _ _); [|done..]. apply elem_of_walked. eauto.
  - intros w' config' n' files' st' m' Hrun' octokit' entries' others.
    destruct (run_requests_records _ _ _ _ _ _ _ Hrun') as [Hreq' Hfiles'].
    destruct (run_fetched _ _ _ _ _ _ _ Hrun') as [Hin' Hrec'].
    simpl in Hreq', Hfiles', Hin', Hrec'.
    assert (∀ rt, ¬ ¬ same_file repo t rt →
              ¬ to_fetch (bucket st (Repo.full_name rt.1)) rt.2) as Hskip.
    { intros [repo' t'] Hsame Hfetch'. simpl in Hfetch'.
      destruct (decide (same_file repo t (repo', t'))) as [(? & ? & ?)|]; [|done].
      by apply (Hlater repo' t') in Hfetch'. }
    split; [|split; [|split]].
    + rewrite Hreq'. subst others entries' octokit'. symmetry.
      apply flat_map_filter_nil. intros [repo' t'] _ Hsame.
      unfold request_of. rewrite decide_False; [done|]. by apply (Hskip (repo', t')).
    + rewrite Hfiles'. subst others entries' octokit'. symmetry.
      apply flat_map_filter_nil. intros [repo' t'] _ Hsame.
      unfold record_of. rewrite decide_False; [done|]. by apply (Hskip (repo', t')).
    + intros f Hf (Hname & Hpath & Hsha).
      destruct (Hrec' f Hf) as (repo' & t' & _ & Hfetch' & _ & Hname' & Hpath' & Hsha').
      apply (Hlater repo' t') in Hfetch'; congruence.
    + intros repo' t' Hwalked Hname Hpath Hsha.
      assert (to_fetch (bucket st (Repo.full_name repo')) t') as Hfetch'
        by by apply (Hlater repo' t').
      split; [|intros content Hc; by apply Hin'].
      assert (content_call repo' t' ∈ List.filter is_content_call (calls m')) as Hc.
      { rewrite Hreq'. apply list_elem_of_In, in_flat_map. exists (repo', t').
        split; [by apply list_elem_of_In|].
        unfold request_of. rewrite decide_True by done. by left. }
      apply list_elem_of_In, filter_In in Hc as [Hc _]. by apply list_elem_of_In.
Qed.

(** The first run loses [docs/guide.md] of [repo-a] to a rejected request;
    the second run, given the store of the first and a remote that now
    serves every file, requests nothing and returns nothing. *)
Lemma C6_content_failure_recorded_witness :
  ∃ files st m files' st' m',
    run (test_world false false true) (test_config None) empty_state 0
      = (Return (files, st), m) ∧
    ScrapedFile.path <$> files = ["README.md"; "README.md"] ∧
    is_Some (bucket st "test-org/repo-a" !! "docs/guide.md") ∧
    ¬ to_fetch (bucket st "test-org/repo-a") guide_a ∧
    run (test_world false false false) (test_config None) st (reads m)
      = (Return (files', st'), m') ∧
    List.filter is_content_call (calls m') = [] ∧
    files' = [].
Proof.
  destruct (C6_content_failure_recorded (test_world false false true)
              (test_config None) empty_state 0 repo_a [readme_a; guide_a] guide_a
              (Error.mk "Server Error"))
    as (files & st & m & k & Hrun & _ & _ & Hlook & Hlater & _ & Hsecond).
  - compute_done.
  - apply list_elem_of_In. simpl. tauto.
  - reflexivity.
  - compute_done.
  - apply list_elem_of_In. simpl. tauto.
  - left. vm_compute. reflexivity.
  - vm_compute. reflexivity.
  - assert (run (test_world false false true) (test_config None) empty_state 0
            = (Return (files, st), m)) as Hrun' by done.
    vm_compute in Hrun'. injection Hrun' as Hfiles Hst Hm.
    destruct (run_Return (test_world false false false) (test_config None) st
                (reads m) [repo_a; repo_b] eq_refl)
      as (files' & st' & m' & Hrun2 & _).
    exists files, st, m, files', st', m'. split; [done|].
    split; [by rewrite <- Hfiles|]. split; [eexists; exact Hlook|].
    split.
    { intros Hfetch. destruct (Hlater guide_a eq_refl) as [Hne _].
      exact (Hne Hfetch eq_refl). }
    split; [exact Hrun2|].
    destruct (Hsecond _ _ _ _ _ _ Hrun2) as (Hcalls & Hrecords & _).
    rewrite Hcalls, Hrecords, <- Hst. split; vm_compute; reflexivity.
Defined.

Lemma listed_or_not w octokit (repos : list Repo.t) full_name :
  (∃ repo mdFiles, repo ∈ repos ∧ Repo.full_name repo = full_name ∧
                   tree_of w octokit repo = Return mdFiles) ∨
  (∀ repo, repo ∈ repos → Repo.full_name repo = full_name →
           ∃ e, tree_of w octokit repo = Throw e).
Proof.
  induction repos as [|repo repos [(r & l & Hr & ? & ?)|IH]].
  - right. by intros repo ?%elem_of_nil.
  - left. exists r, l. split; [by right|done].
  - destruct (decide (Repo.full_name repo = full_name)) as [Hname|Hname].
    + destruct (tree_of w octokit repo) as [mdFiles|e] eqn:Htree.
      * left. exists repo, mdFiles. split; [by left|done].
      * right. intros r [->|Hr]%elem_of_cons ?; eauto.
    + right. intros r [->|Hr]%elem_of_cons ?; [done|eauto].
Qed.

Lemma flat_map_all_nil {A B} (f : A → list B) (l : list A) :
  (∀ x, x ∈ l → f x = []) → flat_map f l = [].
Proof.
  induction l as [|x l IH]; intros Hall; simpl; [done|].
  rewrite (Hall x) by by left. apply IH. intros y Hy. apply Hall. by right.
Qed.

(** C2 (as amended).  Take a run that returns, whose retained repositories
    have distinct full names and whose fulfilled tree listings have
    distinct paths.  A second run against the same remote, given the new
    store of the first as its previous store, returns no file, makes no
    content request, and returns a store with the same buckets: the same
    paths, fingerprints and time stamps under the same repositories.  Its
    [lastScrape] is the time at which the second run started. *)
Theorem C2_rerun_fetches_nothing w config prevState n1 n2 files1 st1 m1 :
  NoDup (Repo.full_name <$> repos_of w config) →
  distinct_paths w (octokit_of config) (repos_of w config) →
  run w config prevState n1 = (Return (files1, st1), m1) →
  ∃ st2 m2,
    run w config st1 n2 = (Return ([], st2), m2) ∧
    List.filter is_content_call (calls m2) = [] ∧
    ScrapeState.repos st2 = ScrapeState.repos st1 ∧
    ScrapeState.lastScrape st2 = Some (toISOString w (clock w n2)).
Proof.
  intros Hnd Hpaths Hrun1.
  destruct (run_inv_post _ _ _ _ _ _ _ Hrun1) as (allRepos & Hlist & Hrepos & Hpost1).
  destruct (run_Return w config st1 n2 allRepos Hlist)
    as (files2 & st2 & m2 & Hrun2 & _ & _ & Hpost2).
  assert (∀ repo mdFiles,
            repo ∈ repos_of w config →
            tree_of w (octokit_of config) repo = Return mdFiles →
            ∃ cache1 cache2,
              ScrapeState.repos st1 !! Repo.full_name repo = Some cache1 ∧
              ScrapeState.repos st2 !! Repo.full_name repo = Some cache2 ∧
              dom (RepoCache.files cache1) = list_to_set (TreeEntry.path <$> mdFiles) ∧
              dom (RepoCache.files cache2) = list_to_set (TreeEntry.path <$> mdFiles) ∧
              ∀ t, t ∈ mdFiles → ∃ stamp,
                RepoCache.files cache1 !! TreeEntry.path t = Some (entry_for t stamp) ∧
                RepoCache.files cache2 !! TreeEntry.path t = Some (entry_for t stamp))
    as Hboth.
  { intros repo mdFiles Hrepo Htree.
    assert (NoDup (TreeEntry.path <$> mdFiles)) as Hnd'.
    { unfold distinct_paths in Hpaths. rewrite Forall_forall in Hpaths.
      specialize (Hpaths repo Hrepo). by rewrite Htree in Hpaths. }
    destruct (run_bucket_of w config prevState n1 repo mdFiles Hnd Hrepo Htree)
      as (f1 & s1 & k1 & cache1 & Hr1 & _ & Hc1 & Hb1 & Hdom1 & Hent1).
    rewrite Hrun1 in Hr1. injection Hr1 as <- <- <-.
    destruct (run_bucket_of w config st1 n2 repo mdFiles Hnd Hrepo Htree)
      as (f2 & s2 & k2 & cache2 & Hr2 & _ & Hc2 & _ & Hdom2 & Hent2).
    rewrite Hrun2 in Hr2. injection Hr2 as <- <- <-.
    exists cache1, cache2. do 4 (split; [done|]).
    intros t Ht.
    destruct (Hent1 Hnd' t Ht) as (stamp1 & Hlook1 & _).
    destruct (Hent2 Hnd' t Ht) as (stamp2 & Hlook2 & Hstamp2).
    exists stamp1. split; [done|]. rewrite Hlook2. do 2 f_equal.
    rewrite Hb1, Hlook1 in Hstamp2.
    destruct Hstamp2 as [e s [= <-] _ [= <-]|e k [= <-] _ [=]|k Hne _]; [done|].
    by destruct (Hne _ eq_refl). }
  assert (∀ rt, rt ∈ walked w (octokit_of config) (retained config allRepos) →
                ¬ to_fetch (bucket st1 (Repo.full_name rt.1)) rt.2) as Hskip.
  { intros [repo t]. rewrite <- Hrepos.
    intros [Hrepo (mdFiles & Htree & Ht)]%elem_of_walked. simpl.
    destruct (Hboth repo mdFiles Hrepo Htree) as (cache1 & cache2 & Hc1 & _ & _ & _ & Hent).
    destruct (Hent t Ht) as (stamp & Hlook & _).
    unfold bucket. rewrite Hc1. simpl.
    intros [Hnone|(e & He & Hne)]; [congruence|].
    assert (e = entry_for t stamp) as -> by congruence. by apply Hne. }
  assert (files2 = []) as ->.
  { rewrite (run_files _ _ _ _ _ _ _ _ Hpost2). apply flat_map_all_nil.
    intros [repo t] Hin. unfold record_of.
    rewrite decide_False; [done|]. apply (Hskip (repo, t) Hin). }
  exists st2, m2. split; [done|]. split; [|split].
  - rewrite (run_calls _ _ _ _ _ _ _ _ Hpost2). simpl.
    rewrite content_calls_of. apply flat_map_all_nil.
    intros [repo t] Hin. unfold request_of.
    rewrite decide_False; [done|]. apply (Hskip (repo, t) Hin).
  - apply map_eq. intros full_name.
    destruct (listed_or_not w (octokit_of config) (repos_of w config) full_name)
      as [(repo & mdFiles & Hrepo & <- & Htree)|Hfail].
    + destruct (Hboth repo mdFiles Hrepo Htree)
        as (cache1 & cache2 & -> & -> & Hdom1 & Hdom2 & Hent).
      f_equal. destruct cache1 as [files1'], cache2 as [files2']. simpl in *.
      f_equal. apply map_eq. intros path.
      destruct (decide (path ∈ TreeEntry.path <$> mdFiles)) as [Hin|Hout].
      * apply list_elem_of_fmap in Hin as (t & -> & Ht).
        destruct (Hent t Ht) as (stamp & -> & ->). done.
      * rewrite (proj1 (not_elem_of_dom files1' path)),
                (proj1 (not_elem_of_dom files2' path)); [done|..].
        -- by rewrite Hdom2, elem_of_list_to_set.
        -- by rewrite Hdom1, elem_of_list_to_set.
    + rewrite Hrepos in Hfail.
      rewrite (run_absent _ _ _ _ _ _ _ _ Hpost1 full_name Hfail).
      by rewrite (run_absent _ _ _ _ _ _ _ _ Hpost2 full_name Hfail).
  - by destruct Hpost2.
Qed.

Lemma C2_rerun_fetches_nothing_witness :
  ∃ files1 st1 m1 st2 m2,
    run (test_world false false false) (test_config None) test_prevState 0
      = (Return (files1, st1), m1) ∧
    run (test_world false false false) (test_config None) st1 (reads m1)
      = (Return ([], st2), m2) ∧
    ScrapeState.repos st2 = ScrapeState.repos st1.
Proof.
  do 3 eexists.
  match goal with
  | |- ∃ st2 m2, ?eq ∧ _ => assert eq as Hrun by (vm_compute; reflexivity)
  end.
  assert (NoDup (Repo.full_name <$>
            repos_of (test_world false false false) (test_config None)))
    as Hnd by compute_done.
  assert (distinct_paths (test_world false false false)
            (octokit_of (test_config None))
            (repos_of (test_world false false false) (test_config None)))
    as Hpaths by (repeat constructor; compute_done).
  match type of Hrun with
  | _ = (_, ?m1) =>
      destruct (C2_rerun_fetches_nothing _ _ _ _ (reads m1) _ _ _ Hnd Hpaths Hrun)
        as (st2 & m2 & Hrun2 & _ & Hsame & _)
  end.
  exists st2, m2. split; [exact Hrun|]. split; [exact Hrun2|exact Hsame].
Defined.

(** C2 as stated fails: the store also holds [lastScrape], which every run
    sets to its own starting time; rerun four clock readings later against
    the unchanged organisation, the engine fetches nothing but returns a
    store that differs from the first in that field. *)
Lemma C2_counterexample :
  ∃ files1 st1 m1 st2 m2,
    run (test_world false false false) (test_config None) empty_state 0
      = (Return (files1, st1), m1) ∧
    run (test_world false false false) (test_config None) st1 (reads m1)
      = (Return ([], st2), m2) ∧
    ScrapeState.lastScrape st1 = Some "1970-01-01T00:00:00.000Z" ∧
    ScrapeState.lastScrape st2 = Some "1970-01-01T00:00:04.000Z" ∧
    st2 ≠ st1.
Proof.
  do 5 eexists. split; [vm_compute; reflexivity|].
  split; [vm_compute; reflexivity|].
  split; [reflexivity|]. split; [reflexivity|].
  intros Heq%(f_equal ScrapeState.lastScrape). discriminate.
Qed.

(** * The two engines agree *)

Module RefSim.
Import Ref.

(** ** Stores in a growing heap *)

Lemma rep_entry_weaken h h' l v : h ⊆ h' → rep_entry h l v → rep_entry h' l v.
Proof. unfold rep_entry. intros Hsub Hl. by eapply lookup_weaken. Qed.

Lemma rep_cache_weaken h h' l cache : h ⊆ h' → rep_cache h l cache → rep_cache h' l cache.
Proof.
  intros Hsub (files & props & Hl & Hfiles & Hall).
  exists files, props. split; [by eapply lookup_weaken|].
  split; [by eapply lookup_weaken|].
  eapply map_Forall2_impl; [exact Hall|]. intros k e v. by apply rep_entry_weaken.
Qed.

Lemma rep_state_weaken h h' l st : h ⊆ h' → rep_state h l st → rep_state h' l st.
Proof.
  intros Hsub (repos & props & Hl & Hrepos & Hall).
  exists repos, props. split; [by eapply lookup_weaken|].
  split; [by eapply lookup_weaken|].
  eapply map_Forall2_impl; [exact Hall|]. intros k c cache. by apply rep_cache_weaken.
Qed.

Lemma new_cache_rep h0 h repos l cache : new_cache h0 h repos l cache → rep_cache h l cache.
Proof.
  intros (_ & files & props & Hl & _ & _ & Hfiles & Hall).
  exists files, props. split; [done|]. split; [done|].
  eapply map_Forall2_impl; [exact Hall|]. by intros k e v [_ ?].
Qed.

Lemma new_state_rep h0 h s st : new_state h0 h s st → rep_state h s st.
Proof.
  intros (_ & repos & props & Hs & _ & Hrepos & Hall & _).
  exists repos, props. split; [done|]. split; [done|].
  eapply map_Forall2_impl; [exact Hall|]. intros k c cache. apply new_cache_rep.
Qed.

Lemma in_cache_new h0 h repos c cache l :
  new_cache h0 h repos c cache → in_cache h c l →
  (l ∉ dom h0) ∧ is_Some (h !! l).
Proof.
  intros (Hc & files & props & Hl & Hfiles & Hne & Hprops & Hall).
  intros [->|(files' & Hl' & [->|(props' & path & Hprops' & Hpath)])].
  - split; [done|]. by eexists.
  - assert (files' = files) as -> by congruence. split; [done|]. by eexists.
  - assert (files' = files) as -> by congruence.
    assert (props' = props) as -> by congruence.
    specialize (Hall path). rewrite Hpath in Hall.
    inversion Hall as [e v [Hfresh He] Heq1 Heq2|]. subst.
    split; [done|]. by eexists.
Qed.

(** The only dictionary among the objects of a bucket is its [files]. *)
Lemma in_cache_dict h0 h repos c cache l props :
  new_cache h0 h repos c cache → in_cache h c l →
  h !! l = Some (ODict props) → h !! c = Some (OCache l).
Proof.
  intros (Hc & files & props' & Hl & Hfiles & Hne & Hprops & Hall).
  intros [->|(files' & Hl' & [->|(props'' & path & Hprops' & Hpath)])] Hdict.
  - congruence.
  - done.
  - assert (files' = files) as -> by congruence.
    assert (props'' = props') as -> by congruence.
    specialize (Hall path). rewrite Hpath in Hall.
    inversion Hall as [e v [Hfresh He] Heq1 Heq2|]. subst.
    unfold rep_entry in He. congruence.
Qed.

(** An assignment outside a bucket leaves the bucket as it is. *)
Lemma new_cache_insert h0 h repos c cache x o :
  new_cache h0 h repos c cache → ¬ in_cache h c x →
  new_cache h0 (<[x := o]> h) repos c cache.
Proof.
  intros (Hc & files & props & Hl & Hfiles & Hne & Hprops & Hall) Hout.
  assert (x ≠ c) as Hxc by (intros ->; apply Hout; by left).
  assert (x ≠ files) as Hxf.
  { intros ->. apply Hout. right. exists files. split; [done|]. by left. }
  split; [done|]. exists files, props.
  split; [by rewrite lookup_insert_ne|]. split; [done|]. split; [done|].
  split; [by rewrite lookup_insert_ne|].
  intros path. specialize (Hall path).
  destruct (props !! path) as [e|] eqn:Hpath;
    inversion Hall as [e' v [Hfresh He] Heq1 Heq2|]; subst; constructor.
  split; [done|]. unfold rep_entry. rewrite lookup_insert_ne; [done|].
  intros ->. apply Hout. right. exists files. split; [done|]. right. eauto.
Qed.

Lemma in_store_new h0 h s st l :
  new_state h0 h s st → in_store h s l → l ∉ dom h0.
Proof.
  intros (Hs & repos & props & Hl & Hrepos & Hprops & Hall & _).
  intros [->|(repos' & ls & Hl' & [->|(props' & full_name & c & Hprops' & Hc & Hin)])].
  - done.
  - congruence.
  - assert (repos' = repos) as -> by congruence.
    assert (props' = props) as -> by congruence.
    specialize (Hall full_name). rewrite Hc in Hall.
    inversion Hall as [c' cache Hcache Heq1 Heq2|]. subst.
    by destruct (in_cache_new _ _ _ _ _ _ Hcache Hin).
Qed.

(** ** Allocation and assignment keep the invariant *)

Lemma fresh_lookup (h : gmap loc obj) : h !! fresh (dom h) = None.
Proof. apply not_elem_of_dom, is_fresh. Qed.

Lemma new_state_bucket h0 h s st repos props full_name c :
  new_state h0 h s st →
  h !! s = Some (OState repos (ScrapeState.lastScrape st)) →
  h !! repos = Some (ODict props) →
  props !! full_name = Some c →
  ∃ cache, ScrapeState.repos st !! full_name = Some cache ∧
           new_cache h0 h repos c cache.
Proof.
  intros (_ & repos' & props' & Hs & _ & Hrepos & Hall & _) Hs' Hrepos' Hc.
  assert (repos' = repos) as -> by congruence.
  assert (props' = props) as -> by congruence.
  specialize (Hall full_name). rewrite Hc in Hall.
  inversion Hall as [c' cache Hcache Heq1 Heq2|]. subst. eauto.
Qed.

(** A new object leaves the store under construction as it is. *)
Lemma new_state_alloc h0 h s st l o :
  new_state h0 h s st → h !! l = None → new_state h0 (<[l := o]> h) s st.
Proof.
  intros Hnew Hl.
  pose proof Hnew as (Hs & repos & props & Hst & Hr & Hrepos & Hall & Hun).
  assert (∀ k c, props !! k = Some c → l ≠ c ∧ ¬ in_cache h c l) as Hout.
  { intros k c Hc.
    destruct (new_state_bucket _ _ _ _ _ _ _ _ Hnew Hst Hrepos Hc) as (cache & _ & Hcache).
    split.
    - intros ->. destruct Hcache as (_ & ? & ? & ? & _). congruence.
    - intros Hin. destruct (in_cache_new _ _ _ _ _ _ Hcache Hin) as [_ [? ?]].
      congruence. }
  split; [done|]. exists repos, props.
  split; [rewrite lookup_insert_ne; [done|congruence]|]. split; [done|].
  split; [rewrite lookup_insert_ne; [done|congruence]|]. split.
  - intros k. specialize (Hall k).
    destruct (props !! k) as [c|] eqn:Hc; inversion Hall; subst; constructor.
    apply new_cache_insert; [done|]. by apply (Hout k).
  - intros k1 k2 c1 c2 files H1 H2.
    destruct (Hout _ _ H1) as [? _], (Hout _ _ H2) as [? _].
    rewrite !lookup_insert_ne by done. by apply Hun.
Qed.

Lemma inv_alloc h0 s st h l o :
  inv h0 s st h → h !! l = None → inv h0 s st (<[l := o]> h).
Proof.
  intros [Hframe Hnew] Hl. split; [|by apply new_state_alloc].
  apply insert_subseteq_r; [|done].
  destruct (h0 !! l) eqn:Hl0; [|done].
  by rewrite (lookup_weaken _ _ _ _ Hl0 Hframe) in Hl.
Qed.

Lemma inv_put h0 s st h repos props full_name c files fprops path e v :
  inv h0 s st h →
  h !! s = Some (OState repos (ScrapeState.lastScrape st)) →
  h !! repos = Some (ODict props) →
  props !! full_name = Some c →
  h !! c = Some (OCache files) →
  h !! files = Some (ODict fprops) →
  new_entry h0 h e v →
  inv h0 s (put full_name path v st)
    (<[files := ODict (<[path := e]> fprops)]> h).
Proof.
  intros [Hframe Hnew] Hs Hrepos Hc Hcache Hfiles [He0 He].
  pose proof Hnew as (Hs0 & repos' & props' & Hs' & Hr0 & Hrepos' & Hall & Hun).
  assert (repos' = repos) as -> by congruence.
  assert (props' = props) as -> by congruence.
  destruct (new_state_bucket _ _ _ _ _ _ _ _ Hnew Hs Hrepos Hc)
    as (cache & Hcache' & Hnc).
  pose proof Hnc as (Hc0 & files' & fprops' & Hcache'' & Hf0 & Hfr & Hfiles' & Hentries).
  assert (files' = files) as -> by congruence.
  assert (fprops' = fprops) as -> by congruence.
  assert (∀ l, (∃ x, h !! l = Some x ∧ ∀ d, x ≠ ODict d) → files ≠ l) as Hkind.
  { intros l (x & Hl & Hx) ->. rewrite Hfiles in Hl. injection Hl as <-.
    by apply (Hx fprops). }
  assert (files ≠ s) as Hfs by (apply Hkind; eexists; split; [done|done]).
  assert (files ≠ c) as Hfc by (apply Hkind; eexists; split; [done|done]).
  assert (files ≠ e) as Hfe by (apply Hkind; eexists; split; [exact He|done]).
  split.
  { apply insert_subseteq_r; [by apply not_elem_of_dom|done]. }
  split; [done|]. exists repos, props. simpl.
  split; [by rewrite lookup_insert_ne|]. split; [done|].
  split; [by rewrite lookup_insert_ne|]. split.
  - intros k. rewrite lookup_alter. case_decide as Hk.
    + subst k. rewrite Hc, Hcache'. simpl. constructor.
      split; [done|]. exists files, (<[path := e]> fprops).
      split; [by rewrite lookup_insert_ne|]. split; [done|]. split; [done|].
      split; [by rewrite lookup_insert_eq|]. simpl.
      intros p. rewrite !lookup_insert. case_decide.
      * constructor. split; [done|]. unfold rep_entry. by rewrite lookup_insert_ne.
      * specialize (Hentries p).
        destruct (fprops !! p) as [e'|] eqn:Hp;
          inversion Hentries as [e'' v' [? He'] Heq1 Heq2|]; subst; constructor.
        split; [done|]. unfold rep_entry. rewrite lookup_insert_ne; [done|].
        apply Hkind. eexists. split; [exact He'|done].
    + specialize (Hall k).
      destruct (props !! k) as [c'|] eqn:Hc';
        inversion Hall as [c'' cache' Hnc' Heq1 Heq2|]; subst; constructor.
      apply new_cache_insert; [done|]. intros Hin.
      pose proof (in_cache_dict _ _ _ _ _ _ _ Hnc' Hin Hfiles) as Hshared.
      apply Hk. symmetry. by apply (Hun k full_name c' c files).
  - intros k1 k2 c1 c2 f H1 H2 Hc1 Hc2.
    rewrite lookup_insert in Hc1. rewrite lookup_insert in Hc2.
    destruct (decide (files = c1)); [discriminate|].
    destruct (decide (files = c2)); [discriminate|].
    by apply (Hun k1 k2 c1 c2 f).
Qed.

Lemma inv_new_bucket h0 s st h repos props full_name :
  inv h0 s st h →
  h !! s = Some (OState repos (ScrapeState.lastScrape st)) →
  h !! repos = Some (ODict props) →
  let files := fresh (dom h) in
  let h1 := <[files := ODict ∅]> h in
  let c := fresh (dom h1) in
  let h2 := <[c := OCache files]> h1 in
  inv h0 s (bucket_added full_name st)
    (<[repos := ODict (<[full_name := c]> props)]> h2).
Proof.
  intros Hinv Hs Hrepos files h1 c h2.
  assert (h !! files = None) as Hfiles.
  { apply not_elem_of_dom, is_fresh. }
  assert (h1 !! c = None) as Hc.
  { apply not_elem_of_dom, is_fresh. }
  assert (c ≠ files) as Hcf.
  { intros Heq. subst h1. rewrite Heq, lookup_insert_eq in Hc. discriminate. }
  assert (h !! c = None) as Hc'.
  { subst h1. by rewrite lookup_insert_ne in Hc. }
  assert (inv h0 s st h2) as [Hframe Hnew].
  { apply inv_alloc; [by apply inv_alloc|done]. }
  assert (h2 !! s = Some (OState repos (ScrapeState.lastScrape st))) as Hs2.
  { subst h2 h1. rewrite !lookup_insert_ne; [done|congruence..]. }
  assert (h2 !! repos = Some (ODict props)) as Hrepos2.
  { subst h2 h1. rewrite !lookup_insert_ne; [done|congruence..]. }
  assert (h2 !! c = Some (OCache files)) as Hc2.
  { subst h2. by rewrite lookup_insert_eq. }
  assert (h2 !! files = Some (ODict ∅)) as Hfiles2.
  { subst h2 h1. rewrite lookup_insert_ne by done. by rewrite lookup_insert_eq. }
  assert ((files ∉ dom h0) ∧ (c ∉ dom h0)) as [Hf0 Hc0].
  { destruct Hinv as [Hsub _]. split; intros [x Hx]%elem_of_dom.
    - by rewrite (lookup_weaken _ _ _ _ Hx Hsub) in Hfiles.
    - by rewrite (lookup_weaken _ _ _ _ Hx Hsub) in Hc'. }
  assert (files ≠ repos) as Hfr by congruence.
  assert (repos ≠ c) as Hrc by congruence.
  pose proof Hnew as (Hs0 & repos' & props' & Hs' & Hr0 & Hrepos' & Hall & Hun).
  assert (repos' = repos) as -> by congruence.
  assert (props' = props) as -> by congruence.
  assert (∀ k c', props !! k = Some c' →
            ∃ cache files', new_cache h0 h2 repos c' cache ∧
              h2 !! c' = Some (OCache files') ∧ files' ≠ files ∧ c' ≠ c ∧ repos ≠ c')
    as Hold.
  { intros k c' Hk.
    destruct (new_state_bucket _ _ _ _ _ _ _ _ (inv_new _ _ _ _ Hinv) Hs Hrepos Hk)
      as (cache & _ & Hnc).
    destruct (new_state_bucket _ _ _ _ _ _ _ _ Hnew Hs2 Hrepos2 Hk)
      as (cache2 & _ & Hnc2).
    pose proof Hnc as (_ & files' & fprops' & Hc1 & _ & _ & Hf1 & _).
    exists cache2, files'. split; [done|].
    split; [subst h2 h1; rewrite !lookup_insert_ne; [done|congruence..]|].
    split; [congruence|]. split; congruence. }
  split.
  { apply insert_subseteq_r; [by apply not_elem_of_dom|done]. }
  split; [done|]. exists repos, (<[full_name := c]> props). simpl.
  split; [rewrite lookup_insert_ne; [done|congruence]|]. split; [done|].
  split; [by rewrite lookup_insert_eq|]. split.
  - intros k. rewrite !lookup_insert. case_decide.
    + constructor. split; [done|]. exists files, ∅.
      split; [by rewrite lookup_insert_ne|]. split; [done|]. split; [done|].
      split; [by rewrite lookup_insert_ne|]. apply map_Forall2_empty.
    + specialize (Hall k).
      destruct (props !! k) as [c'|] eqn:Hc'';
        inversion Hall as [c'' cache' Hnc' Heq1 Heq2|]; subst; constructor.
      apply new_cache_insert; [done|]. intros Hin.
      pose proof (in_cache_dict _ _ _ _ _ _ _ Hnc' Hin Hrepos2) as Hshared.
      destruct Hnc' as (_ & ? & ? & ? & _ & ? & _). congruence.
  - intros k1 k2 c1 c2 f H1 H2 Hat1 Hat2.
    rewrite lookup_insert in H1. rewrite lookup_insert in H2.
    destruct (decide (full_name = k1)) as [<-|Hk1];
      destruct (decide (full_name = k2)) as [<-|Hk2]; [done|..].
    + injection H1 as <-.
      destruct (Hold _ _ H2) as (_ & f' & _ & Hf' & ? & ? & ?).
      rewrite lookup_insert_ne in Hat1 by done.
      rewrite lookup_insert_ne in Hat2 by done. congruence.
    + injection H2 as <-.
      destruct (Hold _ _ H1) as (_ & f' & _ & Hf' & ? & ? & ?).
      rewrite lookup_insert_ne in Hat1 by done.
      rewrite lookup_insert_ne in Hat2 by done. congruence.
    + destruct (Hold _ _ H1) as (_ & ? & _ & _ & _ & _ & ?).
      destruct (Hold _ _ H2) as (_ & ? & _ & _ & _ & _ & ?).
      rewrite lookup_insert_ne in Hat1 by done.
      rewrite lookup_insert_ne in Hat2 by done. by apply (Hun k1 k2 c1 c2 f).
Qed.

(** ** The shared effects do not look at the memory *)

Section Oblivious.
Context {S S' : Type}.
Variable w : World.
Variable config : ScrapeConfig.t.
Variable h : S'.
Implicit Type m : Machine S.
Local Abbreviation repo_prefix := (repo_prefix w config).

Lemma lastFetched_of_with_mem prevEntry file m :
  lastFetched_of w prevEntry file (with_mem h m)
  = ((lastFetched_of w prevEntry file m).1,
     with_mem h (lastFetched_of w prevEntry file m).2).
Proof.
  unfold lastFetched_of. destruct (same_sha prevEntry file); [|done].
  by destruct (prevEntry ≫= FileEntry.lastFetched).
Qed.

Lemma lastFetched_of_mem prevEntry file m :
  mem (lastFetched_of w prevEntry file m).2 = mem m.
Proof.
  unfold lastFetched_of. destruct (same_sha prevEntry file); [|done].
  by destruct (prevEntry ≫= FileEntry.lastFetched).
Qed.

Lemma fetch_or_skip_with_mem octokit repo owner repoName file prevEntry m :
  fetch_or_skip w config octokit repo owner repoName file prevEntry (with_mem h m)
  = ((fetch_or_skip w config octokit repo owner repoName file prevEntry m).1,
     with_mem h (fetch_or_skip w config octokit repo owner repoName file prevEntry m).2).
Proof.
  unfold fetch_or_skip, bind, try_catch, request, bind, modify, await,
    emit_totals, emit, modify, console_warn, modify.
  destruct (same_sha prevEntry file); simpl.
  - by destruct (ScrapeConfig.onProgress config).
  - destruct (getFileContent _ _ _ _ _); by destruct (ScrapeConfig.onProgress config).
Qed.

Lemma fetch_or_skip_mem octokit repo owner repoName file prevEntry m :
  mem (fetch_or_skip w config octokit repo owner repoName file prevEntry m).2 = mem m.
Proof.
  unfold fetch_or_skip, bind, try_catch, request, bind, modify, await,
    emit_totals, emit, modify, console_warn, modify.
  destruct (same_sha prevEntry file); simpl.
  - by destruct (ScrapeConfig.onProgress config).
  - destruct (getFileContent _ _ _ _ _); by destruct (ScrapeConfig.onProgress config).
Qed.

Lemma emit_totals_with_mem phase repo message m :
  emit_totals config phase repo message (with_mem h m)
  = (Return tt, with_mem h (emit_totals config phase repo message m).2).
Proof.
  unfold emit_totals, emit, modify. simpl.
  by destruct (ScrapeConfig.onProgress config).
Qed.

Lemma list_tree_with_mem octokit repo owner repoName m :
  list_tree w octokit repo owner repoName (with_mem h m)
  = ((list_tree w octokit repo owner repoName m).1,
     with_mem h (list_tree w octokit repo owner repoName m).2).
Proof.
  unfold list_tree, try_catch, bind, request, bind, modify, await, console_warn,
    modify, ret. simpl.
  by destruct (getRepoTree _ _ _ _ _).
Qed.

Lemma repo_prefix_mem octokit repo owner repoName m :
  mem (repo_prefix octokit repo owner repoName m).2 = mem m.
Proof.
  unfold repo_prefix, list_tree, try_catch, bind, request, bind, modify, await,
    console_warn, modify, ret, emit_totals, emit, modify. simpl.
  destruct (getRepoTree _ _ _ _ _); by destruct (ScrapeConfig.onProgress config).
Qed.
End Oblivious.

Lemma repo_prefix_with_mem {S S'} w config (h : S') octokit repo owner repoName
    (m : Machine S) :
  repo_prefix w config octokit repo owner repoName (with_mem h m)
  = ((repo_prefix w config octokit repo owner repoName m).1,
     with_mem h (repo_prefix w config octokit repo owner repoName m).2).
Proof.
  unfold repo_prefix, list_tree, try_catch, bind, request, bind, modify, await,
    console_warn, modify, ret, emit_totals, emit, modify. simpl.
  destruct (getRepoTree _ _ _ _ _); by destruct (ScrapeConfig.onProgress config).
Qed.

(** ** The object primitives on a known heap *)

Section Primitives.
Context {S : Type}.
Implicit Type m : Machine S.
Implicit Type h : gmap loc obj.

Lemma alloc_eq h m o :
  alloc o (with_mem h m)
  = (Return (fresh (dom h)), with_mem (<[fresh (dom h) := o]> h) m).
Proof. done. Qed.

Lemma get_repos_eq h m l repos lastScrape :
  h !! l = Some (OState repos lastScrape) →
  get_repos l (with_mem h m) = (Return (Some repos), with_mem h m).
Proof. intros Hl. unfold get_repos. simpl. by rewrite Hl. Qed.

Lemma get_files_eq h m l files :
  h !! l = Some (OCache files) →
  get_files l (with_mem h m) = (Return (Some files), with_mem h m).
Proof. intros Hl. unfold get_files. simpl. by rewrite Hl. Qed.

Lemma get_prop_eq w object h m l props key :
  h !! l = Some (ODict props) →
  get_prop w object (Some l) key (with_mem h m) = (Return (props !! key), with_mem h m).
Proof. intros Hl. unfold get_prop. simpl. by rewrite Hl. Qed.

Lemma set_prop_eq w object h m l props key v :
  h !! l = Some (ODict props) →
  set_prop w object (Some l) key v (with_mem h m)
  = (Return tt, with_mem (<[l := ODict (<[key := v]> props)]> h) m).
Proof. intros Hl. unfold set_prop. simpl. by rewrite Hl. Qed.

Lemma read_entry_eq h m l v :
  rep_entry h l v → read_entry (Some l) (with_mem h m) = (Return (Some v), with_mem h m).
Proof. intros Hl. unfold read_entry. simpl. rewrite Hl. by destruct v. Qed.
End Primitives.

(** What the value model does with one file, given the bucket. *)
Lemma scrapeFile_missing w config prevState octokit repo owner repoName file
    (m : Machine ScrapeState.t) :
  ScrapeState.repos (mem m) !! Repo.full_name repo = None →
  Val.scrapeFile w config prevState octokit repo owner repoName file m
  = (Throw (files_undefined w), m).
Proof.
  intros Hnone. unfold Val.scrapeFile, bind, Val.bucket_files.
  by rewrite Hnone.
Qed.

Lemma scrapeFile_present w config prevState octokit repo owner repoName file
    (m : Machine ScrapeState.t) cache :
  ScrapeState.repos (mem m) !! Repo.full_name repo = Some cache →
  ∃ stamp m1,
    lastFetched_of w
      (Val.lookup_prev prevState (Repo.full_name repo) (TreeEntry.path file))
      file m = (Return stamp, m1) ∧
    mem m1 = mem m ∧
    Val.scrapeFile w config prevState octokit repo owner repoName file m
    = fetch_or_skip w config octokit repo owner repoName file
        (Val.lookup_prev prevState (Repo.full_name repo) (TreeEntry.path file))
        (set_mem (put (Repo.full_name repo) (TreeEntry.path file)
                    {| FileEntry.sha := TreeEntry.sha file;
                       FileEntry.lastFetched := Some stamp |}) m1).
Proof.
  intros Hcache.
  destruct (lastFetched_of_spec w
              (Val.lookup_prev prevState (Repo.full_name repo) (TreeEntry.path file))
              file m) as (stamp & k & Hlast & _ & _).
  exists stamp, (set_reads (λ n, n + k) m). split; [done|]. split; [done|].
  unfold Val.scrapeFile, bind, Val.bucket_files.
  by rewrite Hcache, Hlast.
Qed.

(** ** The simulation *)

Section Simulation.
Variable w : World.
Variable config : ScrapeConfig.t.
Variable h0 : gmap loc obj.
Variable p : loc.
Variable prevState : ScrapeState.t.
Variable s : loc.
Hypothesis Hprev : rep_state h0 p prevState.
Implicit Type m : Machine ScrapeState.t.
Implicit Type h : gmap loc obj.

(** Reading the previous store through the heap gives what the value
    model reads. *)
Lemma lookup_prev_sim h m full_name path :
  h0 ⊆ h →
  ∃ prevEntry,
    lookup_prev w p full_name path (with_mem h m) = (Return prevEntry, with_mem h m) ∧
    option_Forall2 (rep_entry h0) prevEntry
      (Val.lookup_prev prevState full_name path).
Proof.
  intros Hsub. destruct Hprev as (repos & props & Hp & Hrepos & Hall).
  unfold lookup_prev, Val.lookup_prev.
  unfold bind at 1.
  rewrite (get_repos_eq h m p _ _ (lookup_weaken _ _ _ _ Hp Hsub)).
  unfold bind at 1.
  rewrite (get_prop_eq w _ h m repos _ _ (lookup_weaken _ _ _ _ Hrepos Hsub)).
  specialize (Hall full_name).
  destruct (props !! full_name) as [c|];
    inversion Hall as [c' cache (files & fprops & Hc & Hfiles & Hentries) Heq1 Heq2|];
    subst; simpl.
  - unfold bind at 1.
    rewrite (get_files_eq h m c _ (lookup_weaken _ _ _ _ Hc Hsub)).
    rewrite (get_prop_eq w _ h m files _ _ (lookup_weaken _ _ _ _ Hfiles Hsub)).
    eexists. split; [done|]. apply Hentries.
  - eexists. split; [done|]. constructor.
Qed.

Lemma read_entry_sim h m prevEntry v :
  h0 ⊆ h → option_Forall2 (rep_entry h0) prevEntry v →
  read_entry prevEntry (with_mem h m) = (Return v, with_mem h m).
Proof.
  intros Hsub [e v' He|]; [|done].
  apply read_entry_eq. by eapply rep_entry_weaken.
Qed.

(** One file: the reference model does to the heap what the value model
    does to the store. *)
Lemma scrapeFile_sim octokit repo owner repoName file m h :
  inv h0 s (mem m) h →
  ∃ h',
    scrapeFile w config p s octokit repo owner repoName file (with_mem h m)
    = ((Val.scrapeFile w config prevState octokit repo owner repoName file m).1,
       with_mem h'
         (Val.scrapeFile w config prevState octokit repo owner repoName file m).2) ∧
    inv h0 s
      (mem (Val.scrapeFile w config prevState octokit repo owner repoName file m).2)
      h'.
Proof.
  intros Hinv. pose proof Hinv as [Hframe Hnew].
  destruct (lookup_prev_sim h m (Repo.full_name repo) (TreeEntry.path file) Hframe)
    as (prevEntry & Hlookup & Hentry).
  pose proof Hnew as (Hs0 & repos & props & Hs & Hr0 & Hrepos & Hall & Hun).
  unfold scrapeFile.
  unfold bind at 1. rewrite Hlookup.
  unfold bind at 1. unfold bucket_files.
  unfold bind at 1. rewrite (get_repos_eq h m s _ _ Hs).
  unfold bind at 1. rewrite (get_prop_eq w _ h m repos _ _ Hrepos).
  pose proof (Hall (Repo.full_name repo)) as Hbucket.
  destruct (props !! Repo.full_name repo) as [c|] eqn:Hc;
    inversion Hbucket as [c' cache Hcache Heq1 Heq2|]; subst.
  2:{ rewrite scrapeFile_missing by done. by exists h. }
  pose proof Hcache as (Hc0 & files & fprops & Hcc & Hf0 & Hfr & Hfiles & Hentries).
  destruct (scrapeFile_present w config prevState octokit repo owner repoName file m cache)
    as (stamp & m1 & Hlast & Hmem & ->); [done|].
  rewrite (get_files_eq h m c _ Hcc).
  unfold bind at 1. rewrite (read_entry_sim h m _ _ Hframe Hentry).
  unfold bind at 1. rewrite lastFetched_of_with_mem, Hlast. simpl.
  set (entry := {| FileEntry.sha := TreeEntry.sha file;
                   FileEntry.lastFetched := Some stamp |}).
  set (e := fresh (dom h)).
  assert (h !! e = None) as He by apply fresh_lookup.
  set (h1 := <[e := OEntry (TreeEntry.sha file) (Some stamp)]> h).
  set (h2 := <[files := ODict (<[TreeEntry.path file := e]> fprops)]> h1).
  assert (h1 !! files = Some (ODict fprops)) as Hfiles1.
  { subst h1. rewrite lookup_insert_ne; [done|congruence]. }
  assert (inv h0 s (put (Repo.full_name repo) (TreeEntry.path file) entry (mem m1)) h2)
    as Hinv2.
  { rewrite Hmem.
    apply (inv_put h0 s (mem m) h1 repos props (Repo.full_name repo) c files fprops
             (TreeEntry.path file) e entry).
    - by apply inv_alloc.
    - subst h1. rewrite lookup_insert_ne; [done|congruence].
    - subst h1. rewrite lookup_insert_ne; [done|congruence].
    - done.
    - subst h1. rewrite lookup_insert_ne; [done|congruence].
    - done.
    - split.
      + intros [x Hx]%elem_of_dom. by rewrite (lookup_weaken _ _ _ _ Hx Hframe) in He.
      + unfold rep_entry. subst h1. by rewrite lookup_insert_eq. }
  exists h2. split.
  - unfold bind at 1. rewrite alloc_eq. fold e. fold h1.
    unfold bind at 1. rewrite (set_prop_eq w _ h1 m1 files _ _ _ Hfiles1). fold h2.
    unfold bind at 1.
    rewrite (read_entry_sim h2 m1 _ _ (inv_frame _ _ _ _ Hinv2) Hentry).
    apply (fetch_or_skip_with_mem w config h2 octokit repo owner repoName file _
             (set_mem (put (Repo.full_name repo) (TreeEntry.path file) entry) m1)).
  - by rewrite fetch_or_skip_mem.
Qed.

Lemma for_of_sim {A} (body : A → Eff ScrapeState.t unit)
    (body' : A → Eff (gmap loc obj) unit) (l : list A) :
  (∀ x m h, inv h0 s (mem m) h →
     ∃ h', body' x (with_mem h m) = ((body x m).1, with_mem h' (body x m).2) ∧
           inv h0 s (mem (body x m).2) h') →
  ∀ m h, inv h0 s (mem m) h →
    ∃ h', for_of l body' (with_mem h m)
          = ((for_of l body m).1, with_mem h' (for_of l body m).2) ∧
          inv h0 s (mem (for_of l body m).2) h'.
Proof.
  intros Hbody. induction l as [|x l IH]; intros m h Hinv; simpl.
  - by exists h.
  - destruct (Hbody x m h Hinv) as (h1 & Hrun & Hinv1).
    unfold bind. rewrite Hrun.
    destruct (body x m) as [[[]|e] m1]; simpl in *.
    + apply IH, Hinv1.
    + by exists h1.
Qed.

Lemma new_bucket_sim full_name m h :
  inv h0 s (mem m) h →
  ∃ h', new_bucket w s full_name (with_mem h m)
        = (Return tt, with_mem h' (set_mem (bucket_added full_name) m)) ∧
        inv h0 s (bucket_added full_name (mem m)) h'.
Proof.
  intros Hinv. pose proof Hinv as [Hframe Hnew].
  pose proof Hnew as (Hs0 & repos & props & Hs & Hr0 & Hrepos & Hall & Hun).
  set (files := fresh (dom h)).
  set (h1 := <[files := ODict ∅]> h).
  set (c := fresh (dom h1)).
  set (h2 := <[c := OCache files]> h1).
  assert (h !! files = None) as Hfiles by apply fresh_lookup.
  assert (h1 !! c = None) as Hc by apply fresh_lookup.
  assert (h1 !! repos = Some (ODict props)) as Hrepos1.
  { subst h1. rewrite lookup_insert_ne; [done|congruence]. }
  assert (h2 !! repos = Some (ODict props)) as Hrepos2.
  { subst h2. rewrite lookup_insert_ne; [done|congruence]. }
  eexists. split.
  - unfold new_bucket.
    unfold bind at 1. rewrite (get_repos_eq h m s _ _ Hs).
    unfold bind at 1. rewrite alloc_eq. fold files. fold h1.
    unfold bind at 1. rewrite alloc_eq. fold c. fold h2.
    rewrite (set_prop_eq w _ h2 m repos _ _ _ Hrepos2). done.
  - by apply (inv_new_bucket h0 s (mem m) h repos props full_name).
Qed.

Lemma scrapeRepo_prefix octokit repo h (m : Machine ScrapeState.t) :
  let '(owner, repoName) := destructure_full_name (Repo.full_name repo) in
  scrapeRepo w config p s octokit repo (with_mem h m)
  = match repo_prefix w config octokit repo owner repoName (with_mem h m) with
    | (Return (Some mdFiles), m1) =>
        bind (new_bucket w s (Repo.full_name repo))
          (λ _, for_of mdFiles (scrapeFile w config p s octokit repo owner repoName)) m1
    | (Return None, m1) => (Return tt, m1)
    | (Throw e, m1) => (Throw e, m1)
    end.
Proof.
  unfold scrapeRepo, repo_prefix.
  destruct (destructure_full_name (Repo.full_name repo)) as [owner repoName].
  unfold bind.
  destruct (emit_totals _ _ _ _ _) as [[[]|e] m1]; [|done].
  by destruct (list_tree w octokit repo owner repoName m1) as [[[mdFiles|]|e] m2].
Qed.

Lemma value_scrapeRepo_prefix octokit repo (m : Machine ScrapeState.t) :
  let '(owner, repoName) := destructure_full_name (Repo.full_name repo) in
  Val.scrapeRepo w config prevState octokit repo m
  = match repo_prefix w config octokit repo owner repoName m with
    | (Return (Some mdFiles), m1) =>
        bind (Val.new_bucket (Repo.full_name repo))
          (λ _, for_of mdFiles
                  (Val.scrapeFile w config prevState octokit repo owner repoName)) m1
    | (Return None, m1) => (Return tt, m1)
    | (Throw e, m1) => (Throw e, m1)
    end.
Proof.
  unfold Val.scrapeRepo, repo_prefix.
  destruct (destructure_full_name (Repo.full_name repo)) as [owner repoName].
  unfold bind.
  destruct (emit_totals _ _ _ _ _) as [[[]|e] m1]; [|done].
  by destruct (list_tree w octokit repo owner repoName m1) as [[[mdFiles|]|e] m2].
Qed.

(** One repository. *)
Lemma scrapeRepo_sim octokit repo m h :
  inv h0 s (mem m) h →
  ∃ h',
    scrapeRepo w config p s octokit repo (with_mem h m)
    = ((Val.scrapeRepo w config prevState octokit repo m).1,
       with_mem h' (Val.scrapeRepo w config prevState octokit repo m).2) ∧
    inv h0 s (mem (Val.scrapeRepo w config prevState octokit repo m).2) h'.
Proof.
  intros Hinv.
  pose proof (scrapeRepo_prefix octokit repo h m) as Href.
  pose proof (value_scrapeRepo_prefix octokit repo m) as Hval.
  destruct (destructure_full_name (Repo.full_name repo)) as [owner repoName].
  rewrite Href, Hval, repo_prefix_with_mem.
  pose proof (repo_prefix_mem w config octokit repo owner repoName m) as Hmem.
  destruct (repo_prefix w config octokit repo owner repoName m)
    as [[[mdFiles|]|e] m1]; simpl in *.
  - destruct (new_bucket_sim (Repo.full_name repo) m1 h) as (h1 & Hnb & Hinv1);
      [by rewrite Hmem|].
    unfold bind at 1 2. rewrite Hnb.
    unfold Val.new_bucket, modify.
    apply for_of_sim; [|done].
    intros x m' h' Hinv'. by apply scrapeFile_sim.
  - exists h. split; [done|]. by rewrite Hmem.
  - exists h. split; [done|]. by rewrite Hmem.
Qed.
End Simulation.

Lemma ref_run_prefix w config p h0 n :
  run w config p h0 n =
  match listOrgRepos (github w) (createOctokit (ScrapeConfig.token config))
          (ScrapeConfig.org config) with
  | Return allRepos =>
      bind (for_of (retained config allRepos)
              (scrapeRepo w config p (started_newState h0)
                 (createOctokit (ScrapeConfig.token config))))
        (λ _, bind (emit_totals config Phase.done None None)
           (λ _, bind (gets results) (λ files, ret (files, started_newState h0))))
        (with_mem (started_heap w h0 n) (started w config n))
  | Throw e => (Throw e, with_mem (started_heap w h0 n) (started w config n))
  end.
Proof.
  unfold run, scrapeOrg, started, emitted, repos_event, started_heap,
    started_newState, started_repos.
  unfold bind at 1. unfold Date_now at 1.
  unfold bind at 1. unfold alloc at 1.
  unfold bind at 1. unfold alloc at 1.
  unfold bind at 1. unfold modify at 1.
  unfold bind at 1. unfold emit at 1, modify at 1.
  unfold bind at 1. unfold request at 1, bind at 1, modify at 1, await at 1.
  unfold boot, init_locals, set_reads, set_calls, set_progress, set_mem, with_mem,
    set_mem. simpl.
  destruct (ScrapeConfig.onProgress config); simpl;
    destruct (listOrgRepos _ _ _); reflexivity.
Qed.

Lemma inv_started w h0 n :
  inv h0 (started_newState h0)
    {| ScrapeState.repos := ∅;
       ScrapeState.lastScrape := Some (toISOString w (clock w n)) |}
    (started_heap w h0 n).
Proof.
  unfold started_heap, started_newState, started_repos.
  pose proof (fresh_lookup h0) as Hrepos.
  remember (fresh (dom h0)) as repos eqn:Er. clear Er.
  pose proof (fresh_lookup (<[repos := ODict ∅]> h0)) as Hs.
  remember (fresh (dom (<[repos := ODict ∅]> h0))) as s eqn:Es. clear Es.
  assert (s ≠ repos) as Hsr.
  { intros ->. rewrite lookup_insert_eq in Hs. discriminate. }
  assert (h0 !! s = None) as Hs0 by (by rewrite lookup_insert_ne in Hs).
  split.
  - apply insert_subseteq_r; [done|]. by apply insert_subseteq.
  - split; [by apply not_elem_of_dom|]. exists repos, ∅. simpl.
    split; [by rewrite lookup_insert_eq|].
    split; [by apply not_elem_of_dom|].
    split; [rewrite lookup_insert_ne by done; by rewrite lookup_insert_eq|].
    split; [apply map_Forall2_empty|].
    intros k1 k2 c1 c2 f H1. by rewrite lookup_empty in H1.
Qed.

(** One run: the reference model returns what the value model returns,
    with the new store in fresh objects of a heap that extends [h0]. *)
Lemma run_sim w config h0 p prevState n :
  rep_state h0 p prevState →
  ∃ h,
    (run w config p h0 n).2
      = with_mem h (Val.run w config prevState n).2 ∧
    h0 ⊆ h ∧
    match (Val.run w config prevState n).1 with
    | Return (files, st) =>
        ∃ s, (run w config p h0 n).1 = Return (files, s) ∧ new_state h0 h s st
    | Throw e => (run w config p h0 n).1 = Throw e
    end.
Proof.
  intros Hprev. rewrite ref_run_prefix, run_prefix.
  pose proof (inv_started w h0 n) as Hinv.
  set (s := started_newState h0) in *.
  destruct (listOrgRepos (github w) (createOctokit (ScrapeConfig.token config))
              (ScrapeConfig.org config)) as [allRepos|e].
  2:{ exists (started_heap w h0 n). split; [done|]. split; [by destruct Hinv|done]. }
  destruct (for_of_sim h0 s
              (Val.scrapeRepo w config prevState
                 (createOctokit (ScrapeConfig.token config)))
              (scrapeRepo w config p s (createOctokit (ScrapeConfig.token config)))
              (retained config allRepos)
              (λ x m h, scrapeRepo_sim w config h0 p prevState s Hprev _ x m h)
              (started w config n) (started_heap w h0 n) Hinv) as (h3 & Hloop & Hinv3).
  unfold bind. rewrite Hloop.
  destruct (for_of (retained config allRepos) (Val.scrapeRepo _ _ _ _)
              (started w config n)) as [[[]|e] m2]; simpl in *.
  - exists h3. unfold emit_totals, emit, modify, gets, ret. simpl.
    destruct Hinv3 as [Hframe Hnew].
    destruct (ScrapeConfig.onProgress config); simpl;
      (split; [done|]); (split; [done|]); by exists s.
  - exists h3. split; [done|]. split; [by destruct Hinv3|done].
Qed.

End RefSim.

(** ** The claim on aliasing *)

Lemma test_heap_rep : Ref.rep_state test_heap 1%positive test_prevState.
Proof.
  exists 2%positive, {[ "test-org/repo-a" := 3%positive; "test-org/repo-b" := 7%positive ]}.
  split; [reflexivity|]. split; [reflexivity|].
  apply map_Forall2_insert_2; [|apply map_Forall2_singleton].
  - exists 4%positive, {[ "README.md" := 5%positive; "docs/guide.md" := 6%positive ]}.
    split; [reflexivity|]. split; [reflexivity|].
    apply map_Forall2_insert_2; [reflexivity|]. by apply map_Forall2_singleton.
  - exists 8%positive, ∅. split; [reflexivity|]. split; [reflexivity|].
    apply map_Forall2_empty.
Qed.

(** C9.  Let the previous store be any object graph that holds a store
    (reached from [p] in the heap [h0]).  After a run, returning or not,
    every object of [h0] is what it was: no bucket, entry, fingerprint or
    time stamp of the previous store has been assigned to, and [p] still
    holds the same store.  When the run returns, the store it returns is
    made of objects allocated during the run only (none of them is an
    object of [h0], so it shares nothing with the previous store), and it
    holds the store that the value model returns, with the same files. *)
Theorem C9_previous_store_not_mutated w config h0 p prevState n out m :
  Ref.rep_state h0 p prevState →
  Ref.run w config p h0 n = (out, m) →
  (∀ l, l ∈ dom h0 → mem m !! l = h0 !! l) ∧
  Ref.rep_state (mem m) p prevState ∧
  ∀ files s, out = Return (files, s) →
    (∀ l, Ref.in_store (mem m) s l → l ∉ dom h0) ∧
    ∃ st, (run w config prevState n).1 = Return (files, st) ∧
          Ref.rep_state (mem m) s st.
Proof.
  intros Hprev Hrun.
  destruct (RefSim.run_sim w config h0 p prevState n Hprev) as (h & Hm & Hframe & Hout).
  rewrite Hrun in Hm, Hout. simpl in Hm, Hout. subst m. simpl.
  split; [|split].
  - intros l [o Hl]%elem_of_dom. rewrite Hl. by eapply lookup_weaken.
  - by eapply RefSim.rep_state_weaken.
  - intros files s ->.
    destruct (run w config prevState n).1 as [[files' st]|e]; [|discriminate].
    destruct Hout as (s' & [= <- <-] & Hnew). split.
    + intros l Hl. by eapply RefSim.in_store_new.
    + exists st. split; [done|]. by eapply RefSim.new_state_rep.
Qed.

Lemma C9_previous_store_not_mutated_witness :
  ∃ files s m,
    Ref.run (test_world false false false) (test_config None) 1%positive test_heap 0
      = (Return (files, s), m) ∧
    ScrapedFile.path <$> files = ["README.md"] ∧
    (∀ l, l ∈ dom test_heap → mem m !! l = test_heap !! l) ∧
    s ∉ dom test_heap.
Proof.
  do 3 eexists.
  match goal with
  | |- ?eq ∧ _ => assert eq as Hrun by (vm_compute; reflexivity)
  end.
  split; [exact Hrun|]. split; [reflexivity|].
  destruct (C9_previous_store_not_mutated _ _ _ _ _ _ _ _ test_heap_rep Hrun)
    as (Hframe & _ & Hnew).
  split; [exact Hframe|].
  destruct (Hnew _ _ eq_refl) as [Hfresh _]. apply Hfresh. by left.
Defined.

(** * More on [scrapeOrg]: requests, warnings and counters *)

Section Warnings.
Context {S : Type}.
Variable w : World.
Variable config : ScrapeConfig.t.
Variable prevState : ScrapeState.t.
Variable octokit : Octokit.
Implicit Type m : Machine S.

Lemma fetch_or_skip_console (repo : Repo.t) (file : TreeEntry.t) m :
  let '(owner, repoName) := destructure_full_name (Repo.full_name repo) in
  console (fetch_or_skip w config octokit repo owner repoName file
             (lookup_prev prevState (Repo.full_name repo) (TreeEntry.path file)) m).2
  = console m ++ file_warnings w octokit prevState (repo, file).
Proof.
  pose proof (same_sha_false prevState (Repo.full_name repo) file) as Hfalse.
  pose proof (same_sha_true prevState (Repo.full_name repo) file) as Htrue.
  unfold fetch_or_skip, file_warnings, content_of, failed_line.
  destruct (destructure_full_name (Repo.full_name repo)) as [owner repoName].
  unfold bind, try_catch, request, bind, modify, await, emit_totals, emit, modify,
    console_warn, modify.
  destruct (same_sha _ file) eqn:Hsame.
  - apply proj1 in Htrue. specialize (Htrue eq_refl).
    rewrite decide_False by done.
    destruct (ScrapeConfig.onProgress config); simpl; by rewrite app_nil_r.
  - apply proj1 in Hfalse. specialize (Hfalse eq_refl).
    rewrite decide_True by done.
    destruct (getFileContent (github w) octokit owner repoName (TreeEntry.path file));
      destruct (ScrapeConfig.onProgress config); simpl; by rewrite ?app_nil_r.
Qed.
End Warnings.

Lemma record_of_length w octokit prevState (repo : Repo.t) (t : TreeEntry.t) :
  length (record_of w octokit prevState (repo, t))
  ≤ if decide (to_fetch (bucket prevState (Repo.full_name repo)) t) then 1 else 0.
Proof.
  unfold record_of. destruct (decide _); [|done].
  destruct (content_of w octokit repo t); simpl; lia.
Qed.

Section Audit.
Variable w : World.
Variable config : ScrapeConfig.t.
Variable prevState : ScrapeState.t.
Variable octokit : Octokit.
Implicit Type m : Machine ScrapeState.t.
Local Abbreviation tree_audit := (tree_audit w config prevState octokit).
Local Abbreviation org_audit := (org_audit w config prevState octokit).

Lemma scrapeFile_console (repo : Repo.t) (file : TreeEntry.t) m cache :
  ScrapeState.repos (mem m) !! Repo.full_name repo = Some cache →
  let '(owner, repoName) := destructure_full_name (Repo.full_name repo) in
  console (scrapeFile w config prevState octokit repo owner repoName file m).2
  = console m ++ file_warnings w octokit prevState (repo, file).
Proof.
  intros Hcache.
  destruct (lastFetched_of_spec w
              (lookup_prev prevState (Repo.full_name repo) (TreeEntry.path file))
              file m) as (stamp & k & Hlast & _).
  pose proof (fetch_or_skip_console (S:=ScrapeState.t) w config prevState octokit
                repo file) as Hrest.
  destruct (destructure_full_name (Repo.full_name repo)) as [owner repoName].
  unfold scrapeFile, bind, bucket_files. rewrite Hcache, Hlast.
  unfold put_entry, modify. by rewrite Hrest.
Qed.

Lemma files_audit repo (mdFiles : list TreeEntry.t) m0 owner repoName :
  destructure_full_name (Repo.full_name repo) = (owner, repoName) →
  ScrapeState.repos (mem m0) !! Repo.full_name repo
    = Some {| RepoCache.files := ∅ |} →
  Forall within_total (progress m0) →
  totalFetched m0 + totalSkipped m0 + length mdFiles ≤ totalFiles m0 →
  ∃ m', for_of mdFiles (scrapeFile w config prevState octokit repo owner repoName) m0
          = (Return tt, m') ∧
        tree_audit repo mdFiles m0 mdFiles m'.
Proof.
  intros Hsplit Hbucket Hev Hroom.
  apply (for_of_invariant (tree_audit repo mdFiles m0)).
  - split; simpl; rewrite ?app_nil_r; try done; [by apply tree_post_start|lia].
  - intros pre x post m Hl [Hpost Hcons Hevs Hrm].
    destruct (tree_post_step w config prevState octokit repo m0 pre x m owner repoName
                Hsplit Hpost) as (m' & Hrun & Hpost').
    exists m'. split; [done|].
    destruct (tree_bucket _ _ _ _ _ _ _ _ Hpost) as (cache & Hcache & _).
    pose proof (scrapeFile_spec w config prevState octokit repo x m cache Hcache) as Hspec.
    pose proof (scrapeFile_console repo x m cache Hcache) as Hwarn.
    rewrite Hsplit in Hspec, Hwarn. rewrite Hrun in Hwarn. simpl in Hwarn.
    destruct Hspec as (m'' & stamp & Hrun' & _ & _ & _ & _ & Hfile).
    rewrite Hrun in Hrun'. injection Hrun' as <-.
    destruct Hfile as [_ _ Hf Hs Ht (message & Hp)].
    pose proof (record_of_length w octokit prevState repo x) as Hlen.
    assert (length mdFiles = length pre + Datatypes.S (length post)) as Hlens.
    { rewrite Hl, length_app. simpl. lia. }
    split.
    + done.
    + rewrite Hwarn, Hcons, fmap_app, flat_map_app. simpl.
      by rewrite app_nil_r, app_assoc.
    + rewrite Hp. apply Forall_app. split; [done|].
      unfold emitted. destruct (ScrapeConfig.onProgress config); [|done].
      apply Forall_singleton. unfold within_total. simpl.
      destruct (decide _); lia.
    + rewrite length_app. simpl. destruct (decide _); lia.
Qed.


Lemma scrapeRepo_Throw_eq repo m e :
  tree_of w octokit repo = Throw e →
  scrapeRepo w config prevState octokit repo m
  = (Return tt, set_console (λ l, l ++ [skipping_line repo e]) (asked config repo m)).
Proof.
  unfold tree_of, scrapeRepo, asked, tree_call, emitted, skipping_line.
  destruct (destructure_full_name (Repo.full_name repo)) as [owner repoName].
  intros Htree.
  unfold bind, emit_totals, emit, list_tree, try_catch, bind, request, bind, modify, await.
  rewrite Htree. unfold console_warn, modify, ret.
  destruct (ScrapeConfig.onProgress config); simpl; [reflexivity|].
  unfold set_console, set_calls, set_progress; simpl. by rewrite app_nil_r.
Qed.

Lemma scrapeRepo_Return_eq repo m mdFiles owner repoName :
  destructure_full_name (Repo.full_name repo) = (owner, repoName) →
  tree_of w octokit repo = Return mdFiles →
  scrapeRepo w config prevState octokit repo m
  = for_of mdFiles (scrapeFile w config prevState octokit repo owner repoName)
      (listed config repo mdFiles m).
Proof.
  intros Hsplit Htree.
  unfold tree_of in Htree.
  unfold scrapeRepo, listed, asked, tree_call, emitted.
  rewrite Hsplit in *.
  unfold bind, emit_totals, emit, list_tree, try_catch, bind, request, bind, modify, await.
  rewrite Htree. unfold new_bucket, modify, ret.
  destruct (ScrapeConfig.onProgress config); simpl; [reflexivity|].
  unfold set_mem, set_totalFiles, set_calls, set_progress; simpl.
  by rewrite app_nil_r.
Qed.

Lemma filter_tree_listed_snoc (pre : list Repo.t) repo :
  List.filter (tree_listed w octokit) (pre ++ [repo]) =
  List.filter (tree_listed w octokit) pre ++
    (if tree_listed w octokit repo then [repo] else []).
Proof. by rewrite List.filter_app. Qed.

Lemma repo_warnings_snoc (pre : list Repo.t) repo :
  flat_map (repo_warnings w octokit prevState) (pre ++ [repo]) =
  flat_map (repo_warnings w octokit prevState) pre ++
    repo_warnings w octokit prevState repo.
Proof. rewrite flat_map_app. simpl. by rewrite app_nil_r. Qed.

Lemma org_audit_step m0 pre repo m :
  org_audit m0 pre m →
  ∃ m', scrapeRepo w config prevState octokit repo m = (Return tt, m') ∧
        org_audit m0 (pre ++ [repo]) m'.
Proof.
  intros [Hpost Hcons Hevs Hroom Hdom].
  destruct (org_post_step w config prevState octokit m0 pre repo m Hpost)
    as (m' & Hrun & Hpost').
  exists m'. split; [done|].
  assert (Forall within_total (progress (asked config repo m))) as Hasked.
  { unfold asked. simpl. apply Forall_app. split; [done|].
    unfold emitted. destruct (ScrapeConfig.onProgress config); [|done].
    apply Forall_singleton. unfold within_total. simpl. lia. }
  destruct (tree_of w octokit repo) as [mdFiles|e] eqn:Htree.
  - destruct (destructure_full_name (Repo.full_name repo)) as [owner repoName] eqn:Hsplit.
    rewrite (scrapeRepo_Return_eq repo m mdFiles owner repoName Hsplit Htree) in Hrun.
    destruct (files_audit repo mdFiles (listed config repo mdFiles m) owner repoName Hsplit)
      as (m'' & Hrun' & [Htp Hc He Hr]).
    { simpl. by rewrite lookup_insert_eq. }
    { done. }
    { simpl. lia. }
    rewrite Hrun in Hrun'. injection Hrun' as <-.
    split.
    + done.
    + assert (repo_warnings w octokit prevState repo
              = flat_map (file_warnings w octokit prevState) (pair repo <$> mdFiles))
        as Hone by (unfold repo_warnings; by rewrite Htree).
      rewrite Hc, repo_warnings_snoc, Hone. unfold listed, asked. simpl.
      by rewrite Hcons, app_assoc.
    + done.
    + lia.
    + rewrite filter_tree_listed_snoc. unfold tree_listed at 2. rewrite Htree.
      rewrite fmap_app, list_to_set_app_L. simpl.
      rewrite union_empty_r_L, (assoc_L (∪)), <- Hdom.
      destruct (tree_bucket _ _ _ _ _ _ _ _ Htp) as (cache & Hcache & _).
      pose proof (tree_others _ _ _ _ _ _ _ _ Htp) as Hothers.
      apply set_eq. intros k. rewrite elem_of_union, !elem_of_dom, elem_of_singleton.
      destruct (decide (k = Repo.full_name repo)) as [->|Hne].
      * rewrite Hcache. split; [by right|by eexists].
      * rewrite (Hothers k Hne). simpl. rewrite lookup_insert_ne by done.
        split; [by left|]. by intros [?|?].
  - rewrite (scrapeRepo_Throw_eq repo m e Htree) in Hrun. injection Hrun as <-.
    split.
    + done.
    + assert (repo_warnings w octokit prevState repo = [skipping_line repo e])
        as Hone by (unfold repo_warnings; by rewrite Htree).
      rewrite repo_warnings_snoc, Hone. simpl. by rewrite Hcons, app_assoc.
    + done.
    + simpl. lia.
    + rewrite filter_tree_listed_snoc. unfold tree_listed at 2. rewrite Htree.
      by rewrite app_nil_r.
Qed.

Lemma repos_audit (repos : list Repo.t) m0 :
  Forall within_total (progress m0) →
  totalFetched m0 + totalSkipped m0 ≤ totalFiles m0 →
  ∃ m', for_of repos (scrapeRepo w config prevState octokit) m0 = (Return tt, m') ∧
        org_audit m0 repos m'.
Proof.
  intros Hev Hroom.
  apply (for_of_invariant (org_audit m0)).
  - split; simpl; rewrite ?app_nil_r; try done; [apply org_post_start|].
    by rewrite union_empty_r_L.
  - intros pre x post m _ Hinv. by apply org_audit_step.
Qed.
End Audit.


Lemma run_audit w config prevState n allRepos :
  listOrgRepos (github w) (octokit_of config) (ScrapeConfig.org config)
    = Return allRepos →
  ∃ files st m,
    run w config prevState n = (Return (files, st), m) ∧
    console m = flat_map (repo_warnings w (octokit_of config) prevState)
                  (retained config allRepos) ∧
    Forall within_total (progress m) ∧
    dom (ScrapeState.repos st) =
      list_to_set (Repo.full_name <$>
        List.filter (tree_listed w (octokit_of config)) (retained config allRepos)).
Proof.
  intros Hlist. unfold octokit_of in *. rewrite run_prefix, Hlist.
  destruct (repos_audit w config prevState (createOctokit (ScrapeConfig.token config))
              (retained config allRepos) (started w config n))
    as (m' & Hloop & [_ Hcons Hevs Hroom Hdom]).
  { unfold started, emitted. simpl.
    destruct (ScrapeConfig.onProgress config); [|done].
    apply Forall_singleton. unfold within_total. simpl. lia. }
  { simpl. lia. }
  unfold bind at 1. rewrite Hloop.
  set (final := done_event (totalFetched m') (totalSkipped m') (totalFiles m')).
  exists (results m'), (mem m'),
    (set_progress (λ l, l ++ emitted config [final]) m').
  split.
  { unfold bind, emit_totals, emit, modify, gets, ret, emitted. subst final.
    unfold done_event.
    destruct (ScrapeConfig.onProgress config); simpl; [done|].
    unfold set_progress. simpl. rewrite app_nil_r. by destruct m'. }
  simpl in *. split; [done|]. split.
  - apply Forall_app. split; [done|]. unfold emitted.
    destruct (ScrapeConfig.onProgress config); [|done].
    apply Forall_singleton. subst final. unfold within_total. simpl. lia.
  - by rewrite Hdom, dom_empty_L, union_empty_l_L.
Qed.

(** Every walked entry is accounted for once: returned, unchanged, or
    failed. *)
Lemma walked_accounted w octokit prevState (l : list (Repo.t * TreeEntry.t)) :
  length l =
  length (flat_map (record_of w octokit prevState) l) +
  length (filter (unchanged prevState) l) +
  length (List.filter (fetch_failed w octokit prevState) l).
Proof.
  induction l as [|[repo t] l IH]; [done|].
  simpl. rewrite length_app, filter_cons.
  unfold fetch_failed at 1. unfold unchanged at 1. simpl.
  destruct (decide (to_fetch (bucket prevState (Repo.full_name repo)) t)) as [Hf|Hf].
  - rewrite decide_False by (by intros ?). rewrite bool_decide_eq_true_2 by done.
    destruct (content_of w octokit repo t); simpl; lia.
  - rewrite decide_True by done. rewrite bool_decide_eq_false_2 by done.
    simpl. lia.
Qed.

Lemma request_of_length prevState (l : list (Repo.t * TreeEntry.t)) :
  length (flat_map (request_of prevState) l) = length (filter (changed prevState) l).
Proof.
  induction l as [|[repo t] l IH]; [done|].
  simpl. rewrite length_app, filter_cons. unfold changed at 1. simpl.
  destruct (decide _); simpl; lia.
Qed.

Lemma tree_calls_request_of prevState (l : list (Repo.t * TreeEntry.t)) :
  List.filter is_tree_call (flat_map (request_of prevState) l) = [].
Proof.
  induction l as [|[repo t] l IH]; [done|].
  simpl. rewrite List.filter_app, IH. unfold request_of, content_call.
  destruct (decide _); [|done].
  by destruct (destructure_full_name (Repo.full_name repo)).
Qed.

Lemma calls_of_cons w octokit prevState repo (repos : list Repo.t) :
  calls_of w octokit prevState (repo :: repos) =
  tree_call repo :: flat_map (request_of prevState) (walked w octokit [repo]) ++
    calls_of w octokit prevState repos.
Proof. reflexivity. Qed.

Lemma is_tree_call_tree_call repo : is_tree_call (tree_call repo) = true.
Proof.
  unfold tree_call. by destruct (destructure_full_name (Repo.full_name repo)).
Qed.

Lemma tree_calls_of w octokit prevState (repos : list Repo.t) :
  List.filter is_tree_call (calls_of w octokit prevState repos) = tree_call <$> repos.
Proof.
  induction repos as [|repo repos IH]; [done|].
  rewrite calls_of_cons. cbn [List.filter]. rewrite is_tree_call_tree_call.
  by rewrite List.filter_app, IH, tree_calls_request_of.
Qed.

Lemma calls_of_length w octokit prevState (repos : list Repo.t) :
  length (calls_of w octokit prevState repos)
  = length repos + length (flat_map (request_of prevState) (walked w octokit repos)).
Proof.
  induction repos as [|repo repos IH]; [done|].
  rewrite calls_of_cons.
  change (repo :: repos) with ([repo] ++ repos) at 2.
  rewrite walked_app, flat_map_app. cbn [length]. rewrite !length_app, IH. lia.
Qed.

Lemma run_calls_always w config prevState n :
  calls (run w config prevState n).2
  = CallListOrgRepos (ScrapeConfig.org config) ::
    calls_of w (octokit_of config) prevState (repos_of w config).
Proof.
  unfold repos_of.
  destruct (listOrgRepos (github w) (octokit_of config) (ScrapeConfig.org config))
    as [allRepos|e] eqn:Hlist.
  - destruct (run_Return w config prevState n allRepos Hlist)
      as (files & st & m & Hrun & _ & _ & Hpost).
    rewrite Hrun. by destruct Hpost.
  - by rewrite (run_Throw w config prevState n e Hlist).
Qed.

Lemma scrapeOrg_console_always w config prevState n :
  console (run w config prevState n).2
  = flat_map (repo_warnings w (octokit_of config) prevState) (repos_of w config).
Proof.
  unfold repos_of.
  destruct (listOrgRepos (github w) (octokit_of config) (ScrapeConfig.org config))
    as [allRepos|e] eqn:Hlist.
  - destruct (run_audit w config prevState n allRepos Hlist)
      as (files & st & m & Hrun & Hcons & _).
    by rewrite Hrun.
  - by rewrite (run_Throw w config prevState n e Hlist).
Qed.


(** X1.  [scrapeOrg] rejects exactly when the repository listing is
    rejected, and with the error of the listing itself; it has then made
    that one request only, warned of nothing, and handed the callback the
    [repos] event only.  No other failure is fatal. *)
Theorem scrapeOrg_rejects_iff_listing_rejects w config prevState n e :
  ((run w config prevState n).1 = Throw e ↔
   listOrgRepos (github w) (octokit_of config) (ScrapeConfig.org config) = Throw e) ∧
  (listOrgRepos (github w) (octokit_of config) (ScrapeConfig.org config) = Throw e →
   let m := (run w config prevState n).2 in
   calls m = [CallListOrgRepos (ScrapeConfig.org config)] ∧
   console m = [] ∧ results m = [] ∧
   progress m = emitted config [repos_event config]).
Proof.
  split.
  - split.
    + destruct (listOrgRepos (github w) (octokit_of config) (ScrapeConfig.org config))
        as [allRepos|e'] eqn:Hlist.
      * destruct (run_Return w config prevState n allRepos Hlist)
          as (files & st & m & Hrun & _). by rewrite Hrun.
      * rewrite (run_Throw w config prevState n e' Hlist). simpl. congruence.
    + intros Hlist. by rewrite (run_Throw w config prevState n e Hlist).
  - intros Hlist. by rewrite (run_Throw w config prevState n e Hlist).
Qed.

(** X2.  The requests of a run, returning or not, in order: one repository
    listing, then for each retained repository one tree listing followed by
    the content requests of its new or changed entries.  So every retained
    repository has its tree listed exactly once, in the order of the
    listing, and the run makes [1 + repositories + new or changed entries]
    requests. *)
Theorem scrapeOrg_request_trace w config prevState n :
  let m := (run w config prevState n).2 in
  let repos := repos_of w config in
  let entries := walked w (octokit_of config) repos in
  calls m = CallListOrgRepos (ScrapeConfig.org config) ::
            calls_of w (octokit_of config) prevState repos ∧
  List.filter is_tree_call (calls m) = tree_call <$> repos ∧
  length (calls m) = 1 + length repos + length (filter (changed prevState) entries).
Proof.
  simpl. rewrite run_calls_always. split; [done|]. split.
  - cbn [List.filter is_tree_call]. apply tree_calls_of.
  - cbn [length]. by rewrite calls_of_length, request_of_length.
Qed.

(** X3.  The lines [scrapeOrg] gives to [console.warn] in a run, returning
    or not, in order: one [Skipping ...] line for each retained repository
    whose tree listing is rejected, one [Failed to fetch ...] line for each
    new or changed entry whose content request is rejected, each with the
    message of the error, and nothing else. *)
Theorem scrapeOrg_warns_each_failure_once w config prevState n :
  console (run w config prevState n).2
  = flat_map (repo_warnings w (octokit_of config) prevState) (repos_of w config).
Proof. apply scrapeOrg_console_always. Qed.

(** X4.  In every event of a run, returning or not, [fetched + skipped]
    is at most [total].  When the run returns and a callback was supplied,
    the last event has phase [done], and its [total] exceeds
    [fetched + skipped] by the number of new or changed entries whose
    content request was rejected. *)
Theorem scrapeOrg_events_within_total w config prevState n :
  Forall within_total (progress (run w config prevState n).2) ∧
  ∀ files st m,
    run w config prevState n = (Return (files, st), m) →
    ScrapeConfig.onProgress config = true →
    ∃ e, last (progress m) = Some e ∧
      ScrapeProgress.phase e = Phase.done ∧
      ScrapeProgress.total e =
        ScrapeProgress.fetched e + ScrapeProgress.skipped e +
        length (List.filter (fetch_failed w (octokit_of config) prevState)
                  (walked w (octokit_of config) (repos_of w config))).
Proof.
  split.
  - destruct (listOrgRepos (github w) (octokit_of config) (ScrapeConfig.org config))
      as [allRepos|e] eqn:Hlist.
    + destruct (run_audit w config prevState n allRepos Hlist)
        as (files & st & m & Hrun & _ & Hev & _).
      by rewrite Hrun.
    + rewrite (run_Throw w config prevState n e Hlist). unfold started, emitted. simpl.
      destruct (ScrapeConfig.onProgress config); [|done].
      apply Forall_singleton. unfold within_total. simpl. lia.
  - intros files st m (allRepos & Hlist & Hrepos & Hpost)%run_inv_post Hsink.
    rewrite Hrepos.
    destruct (run_progress _ _ _ _ _ _ _ _ Hpost) as (events & Hp & _).
    pose proof (run_files _ _ _ _ _ _ _ _ Hpost) as Hfiles.
    eexists. split.
    { rewrite Hp. unfold emitted. rewrite Hsink.
      by rewrite app_comm_cons, last_snoc. }
    split; [done|]. simpl.
    rewrite (walked_accounted w (octokit_of config) prevState
               (walked w (octokit_of config) (retained config allRepos))) at 1.
    by rewrite Hfiles.
Qed.

(** X5.  The new store of a run that returns has a bucket for exactly the
    full names of the retained repositories whose tree listing was
    fulfilled: none for a repository that was filtered out, whose listing
    was rejected, or that only the previous store knew. *)
Theorem scrapeOrg_store_domain w config prevState n files st m :
  run w config prevState n = (Return (files, st), m) →
  dom (ScrapeState.repos st) =
  list_to_set (Repo.full_name <$>
    List.filter (tree_listed w (octokit_of config)) (repos_of w config)).
Proof.
  intros Hrun.
  destruct (run_inv_post _ _ _ _ _ _ _ Hrun) as (allRepos & Hlist & Hrepos & _).
  destruct (run_audit w config prevState n allRepos Hlist)
    as (files' & st' & m' & Hrun' & _ & _ & Hdom).
  rewrite Hrun in Hrun'. injection Hrun' as <- <- <-. by rewrite Hrepos.
Qed.

Lemma scrapeOrg_store_domain_witness :
  ∃ files st m,
    run (test_world false true false) (test_config None) test_prevState 0
      = (Return (files, st), m) ∧
    dom (ScrapeState.repos st) = {[ "test-org/repo-a" ]}.
Proof.
  do 3 eexists.
  match goal with
  | |- ?eq ∧ _ => assert eq as Hrun by (vm_compute; reflexivity)
  end.
  split; [exact Hrun|].
  rewrite (scrapeOrg_store_domain _ _ _ _ _ _ _ Hrun).
  vm_compute. reflexivity.
Defined.

Lemma to_fetch_empty_state full_name t : to_fetch (bucket empty_state full_name) t.
Proof. left. unfold bucket, empty_state. simpl. by rewrite lookup_empty. Qed.

Lemma request_of_empty_state (l : list (Repo.t * TreeEntry.t)) :
  flat_map (request_of empty_state) l = (λ rt, content_call rt.1 rt.2) <$> l.
Proof.
  induction l as [|[repo t] l IH]; [done|].
  simpl. rewrite IH, decide_True by apply to_fetch_empty_state. done.
Qed.

Lemma unchanged_empty_state (l : list (Repo.t * TreeEntry.t)) :
  filter (unchanged empty_state) l = [].
Proof.
  induction l as [|[repo t] l IH]; [done|].
  rewrite filter_cons, decide_False; [done|].
  intros Hun. apply Hun, to_fetch_empty_state.
Qed.

(** X6.  Without a previous store (the default [{ repos: {} }]), a run
    that returns has requested the content of every walked entry, in
    order, and returned the record of every entry whose request was
    fulfilled; nothing is skipped: the last event, when a callback was
    supplied, reports [skipped = 0]. *)
Theorem scrapeOrg_first_run_fetches_everything w config n files st m :
  run w config empty_state n = (Return (files, st), m) →
  let entries := walked w (octokit_of config) (repos_of w config) in
  List.filter is_content_call (calls m) = (λ rt, content_call rt.1 rt.2) <$> entries ∧
  (∀ repo t content, (repo, t) ∈ entries →
     content_of w (octokit_of config) repo t = Return content →
     {| ScrapedFile.repo := Repo.full_name repo;
        ScrapedFile.path := TreeEntry.path t;
        ScrapedFile.content := content;
        ScrapedFile.sha := TreeEntry.sha t |} ∈ files) ∧
  (ScrapeConfig.onProgress config = true →
   ScrapeProgress.skipped <$> last (progress m) = Some 0).
Proof.
  intros Hrun entries.
  destruct (run_requests_records _ _ _ _ _ _ _ Hrun) as [Hreq _].
  destruct (run_fetched _ _ _ _ _ _ _ Hrun) as [Hin _].
  simpl in Hreq, Hin. subst entries. split; [|split].
  - rewrite Hreq. apply request_of_empty_state.
  - intros repo t content Hwalked Hcontent.
    by apply (Hin repo t content Hwalked (to_fetch_empty_state _ _)).
  - intros Hsink.
    destruct (run_inv_post _ _ _ _ _ _ _ Hrun) as (allRepos & _ & _ & Hpost).
    destruct (run_progress _ _ _ _ _ _ _ _ Hpost) as (events & Hp & _).
    rewrite Hp. unfold emitted. rewrite Hsink.
    rewrite app_comm_cons, last_snoc. simpl. by rewrite unchanged_empty_state.
Qed.

Lemma scrapeOrg_first_run_fetches_everything_witness :
  ∃ files st m,
    run (test_world false false true) (test_config None) empty_state 0
      = (Return (files, st), m) ∧
    length (List.filter is_content_call (calls m)) = 3 ∧
    ScrapeProgress.skipped <$> last (progress m) = Some 0.
Proof.
  do 3 eexists.
  match goal with
  | |- ?eq ∧ _ => assert eq as Hrun by (vm_compute; reflexivity)
  end.
  split; [exact Hrun|].
  destruct (scrapeOrg_first_run_fetches_everything _ _ _ _ _ _ Hrun)
    as (Hcalls & _ & Hskipped).
  split; [rewrite Hcalls; vm_compute; reflexivity|].
  by apply Hskipped.
Defined.

(** * A previous store that is not a store *)

Module RefEdge.
Import Ref.

Section Prefix.
Context {S : Type}.
Variable w : World.
Variable config : ScrapeConfig.t.

Lemma repo_prefix_outcome octokit repo owner repoName (m : Machine S) :
  destructure_full_name (Repo.full_name repo) = (owner, repoName) →
  (repo_prefix w config octokit repo owner repoName m).1 =
    match tree_of w octokit repo with
    | Return mdFiles => Return (Some mdFiles)
    | Throw _ => Return None
    end ∧
  results (repo_prefix w config octokit repo owner repoName m).2 = results m ∧
  List.filter is_content_call (calls (repo_prefix w config octokit repo owner repoName m).2)
  = List.filter is_content_call (calls m).
Proof.
  intros Hsplit. unfold tree_of. rewrite Hsplit.
  unfold repo_prefix, list_tree, try_catch, bind, request, bind, modify, await,
    console_warn, modify, ret, emit_totals, emit, modify. simpl.
  destruct (getRepoTree _ _ _ _ _); destruct (ScrapeConfig.onProgress config); simpl;
    rewrite ?List.filter_app; simpl; by rewrite ?app_nil_r.
Qed.
End Prefix.

Section Unusable.
Variable w : World.
Variable config : ScrapeConfig.t.
Variable p : loc.
Variable o : obj.
Variable s : loc.
Hypothesis Hno : no_repos o.
Implicit Type m : Machine (gmap loc obj).

Lemma scrapeRepo_unfold octokit repo owner repoName m :
  destructure_full_name (Repo.full_name repo) = (owner, repoName) →
  scrapeRepo w config p s octokit repo m
  = match repo_prefix w config octokit repo owner repoName m with
    | (Return (Some mdFiles), m1) =>
        bind (new_bucket w s (Repo.full_name repo))
          (λ _, for_of mdFiles (scrapeFile w config p s octokit repo owner repoName)) m1
    | (Return None, m1) => (Return tt, m1)
    | (Throw e, m1) => (Throw e, m1)
    end.
Proof.
  intros Hsplit. unfold scrapeRepo, repo_prefix. rewrite Hsplit.
  unfold bind.
  destruct (emit_totals _ _ _ _ _) as [[[]|e] m1]; [|done].
  by destruct (list_tree w octokit repo owner repoName m1) as [[[mdFiles|]|e] m2].
Qed.

Lemma scrapeFile_unusable octokit repo owner repoName file m :
  unusable p o s (mem m) →
  scrapeFile w config p s octokit repo owner repoName file m
  = (Throw (repos_undefined w repo), m).
Proof.
  intros [Hp _]. unfold scrapeFile, lookup_prev, bind, get_repos. rewrite Hp.
  simpl. unfold no_repos in Hno. by rewrite Hno.
Qed.

Lemma new_bucket_unusable full_name m :
  unusable p o s (mem m) →
  ∃ m', new_bucket w s full_name m = (Return tt, m') ∧
        unusable p o s (mem m') ∧
        results m' = results m ∧ calls m' = calls m.
Proof.
  intros (Hp & repos & lastScrape & props & Hs & Hrepos & Hne).
  set (h := mem m) in *.
  set (files := fresh (dom h)).
  set (h1 := <[files := ODict ∅]> h).
  set (cache := fresh (dom h1)).
  set (h2 := <[cache := OCache files]> h1).
  assert (h !! files = None) as Hfiles by apply RefSim.fresh_lookup.
  assert (h1 !! cache = None) as Hcache by apply RefSim.fresh_lookup.
  assert (∀ l x, h !! l = Some x → h2 !! l = Some x) as Hkeep.
  { intros l x Hl. subst h2 h1.
    rewrite !lookup_insert_ne; [done| |].
    - intros <-. congruence.
    - intros <-. rewrite lookup_insert_ne in Hcache by (intros <-; congruence).
      congruence. }
  eexists. split.
  { pose proof (Hkeep _ _ Hrepos) as Hk. unfold h2, cache, h1, files, h in Hk.
    pose proof Hs as Hs'. unfold h in Hs'.
    unfold new_bucket, bind, get_repos, alloc, set_prop. rewrite Hs'.
    simpl. rewrite Hk. reflexivity. }
  simpl. split; [|done].
  assert (s ≠ repos) as Hsr by (intros <-; congruence).
  assert (s ≠ p) as Hsp by (intros <-; destruct o; simplify_eq; done).
  split.
  - rewrite lookup_insert_ne by done. by apply Hkeep.
  - exists repos, lastScrape, (<[full_name := cache]> props).
    split; [|split; [|done]].
    + rewrite lookup_insert_ne by done. by apply Hkeep.
    + by rewrite lookup_insert_eq.
Qed.

Lemma repos_loop_unusable octokit (repos : list Repo.t) m :
  unusable p o s (mem m) →
  let r := for_of repos (scrapeRepo w config p s octokit) m in
  results r.2 = results m ∧
  List.filter is_content_call (calls r.2) = List.filter is_content_call (calls m) ∧
  r.1 = match walked w octokit repos with
        | [] => Return tt
        | (repo, _) :: _ => Throw (repos_undefined w repo)
        end.
Proof.
  revert m. induction repos as [|repo repos IH]; intros m Hm; [done|].
  destruct (destructure_full_name (Repo.full_name repo)) as [owner repoName] eqn:Hsplit.
  destruct (repo_prefix_outcome w config octokit repo owner repoName m Hsplit)
    as (Hout & Hres & Hcalls).
  pose proof (RefSim.repo_prefix_mem w config octokit repo owner repoName m) as Hmem.
  intros r.
  change (walked w octokit (repo :: repos)) with (walked w octokit ([repo] ++ repos)).
  rewrite walked_app.
  assert (r = for_of (repo :: repos) (scrapeRepo w config p s octokit) m) as Hr
    by reflexivity.
  clearbody r.
  cbn [for_of] in Hr. unfold bind at 1 in Hr.
  rewrite (scrapeRepo_unfold octokit repo owner repoName m Hsplit) in Hr.
  destruct (repo_prefix w config octokit repo owner repoName m) as [out1 m1].
  simpl in Hout, Hres, Hcalls, Hmem. rewrite <- Hmem in Hm.
  destruct (tree_of w octokit repo) as [mdFiles|e] eqn:Htree; subst out1.
  - destruct (new_bucket_unusable (Repo.full_name repo) m1 Hm)
      as (m2 & Hnew & Hm2 & Hres2 & Hcalls2).
    unfold bind at 1 in Hr. rewrite Hnew in Hr.
    rewrite (walked_one_Return _ _ _ _ Htree).
    destruct mdFiles as [|file mdFiles].
    + cbn [for_of ret] in Hr. subst r.
      destruct (IH m2 Hm2) as (IHres & IHcalls & IHout).
      rewrite IHres, IHcalls, Hres2, Hcalls2, Hres, Hcalls. done.
    + cbn [for_of] in Hr. unfold bind at 1 in Hr.
      rewrite (scrapeFile_unusable octokit repo owner repoName file m2 Hm2) in Hr.
      subst r. cbn [fst snd]. rewrite Hres2, Hcalls2, Hres, Hcalls. done.
  - rewrite (walked_one_Throw _ _ _ _ Htree). subst r.
    destruct (IH m1 Hm) as (IHres & IHcalls & IHout).
    rewrite IHres, IHcalls, Hres, Hcalls. done.
Qed.
End Unusable.
End RefEdge.


Lemma started_unusable w h0 p o n :
  h0 !! p = Some o →
  unusable p o (Ref.started_newState h0) (Ref.started_heap w h0 n).
Proof.
  intros Hp. unfold unusable, Ref.started_heap.
  assert (h0 !! Ref.started_repos h0 = None) as Hrepos by apply RefSim.fresh_lookup.
  assert ((<[Ref.started_repos h0 := Ref.ODict ∅]> h0) !! Ref.started_newState h0 = None)
    as Hnew by apply RefSim.fresh_lookup.
  assert (Ref.started_repos h0 ≠ p) as Hne by (intros <-; congruence).
  assert (Ref.started_newState h0 ≠ Ref.started_repos h0) as Hne'.
  { intros Heq. rewrite Heq, lookup_insert_eq in Hnew. done. }
  assert (Ref.started_newState h0 ≠ p) as Hne''.
  { intros Heq. rewrite Heq, lookup_insert_ne, Hp in Hnew; done. }
  split.
  - by rewrite !lookup_insert_ne.
  - eexists _, _, _. split; [apply lookup_insert_eq|]. split; [|done].
    rewrite lookup_insert_ne by done. apply lookup_insert_eq.
Qed.

(** A run on a previous store without [repos], once the organisation is
    listed. *)
Lemma run_unusable w config h0 p o n allRepos :
  h0 !! p = Some o →
  no_repos o →
  listOrgRepos (github w) (octokit_of config) (ScrapeConfig.org config) = Return allRepos →
  let r := Ref.run w config p h0 n in
  List.filter is_content_call (calls r.2) = [] ∧
  results r.2 = [] ∧
  r.1 = match walked w (octokit_of config) (retained config allRepos) with
        | [] => Return ([], Ref.started_newState h0)
        | (repo, _) :: _ => Throw (repos_undefined w repo)
        end.
Proof.
  intros Hp Hno Hlist r. unfold octokit_of in *.
  assert (r = bind (for_of (retained config allRepos)
                     (Ref.scrapeRepo w config p (Ref.started_newState h0)
                        (createOctokit (ScrapeConfig.token config))))
                (λ _, bind (emit_totals config Phase.done None None)
                   (λ _, bind (gets results)
                      (λ files, ret (files, Ref.started_newState h0))))
                (Ref.with_mem (Ref.started_heap w h0 n) (started w config n))) as Hr.
  { subst r. rewrite RefSim.ref_run_prefix. by rewrite Hlist. }
  clearbody r.
  pose proof (RefEdge.repos_loop_unusable w config p o (Ref.started_newState h0) Hno
    (createOctokit (ScrapeConfig.token config)) (retained config allRepos)
    (Ref.with_mem (Ref.started_heap w h0 n) (started w config n))
    (started_unusable w h0 p o n Hp)) as (Hres & Hcalls & Hout).
  unfold bind at 1 in Hr.
  destruct (for_of _ _ _) as [out m]. simpl in Hres, Hcalls, Hout.
  destruct (walked w (createOctokit (ScrapeConfig.token config))
              (retained config allRepos)) as [|[repo t] entries]; subst out r.
  - unfold bind, emit_totals, emit, modify, gets, ret. simpl.
    destruct (ScrapeConfig.onProgress config); simpl; by rewrite Hres.
  - done.
Qed.

(** X7.  [scrapeOrg] called with a previous store that has no property
    [repos] (an object read from a state file that is not a store), when
    the listing of the organisation is fulfilled.  If no retained
    repository lists a markdown file, the run returns no record and the
    new store.  Otherwise it is rejected at the first entry it walks,
    with the [TypeError] the engine raises for reading the full name of
    that entry's repository from [prevState.repos], which is [undefined].
    Either way it asks for no file content. *)
Theorem scrapeOrg_previous_store_without_repos w config h0 p o n allRepos :
  h0 !! p = Some o →
  no_repos o →
  listOrgRepos (github w) (octokit_of config) (ScrapeConfig.org config) = Return allRepos →
  let r := Ref.run w config p h0 n in
  List.filter is_content_call (calls r.2) = [] ∧
  r.1 = match walked w (octokit_of config) (retained config allRepos) with
        | [] => Return ([], Ref.started_newState h0)
        | (repo, _) :: _ =>
            Throw (typeError w (Reading "prevState.repos" (Repo.full_name repo)))
        end.
Proof.
  intros Hp Hno Hlist.
  destruct (run_unusable w config h0 p o n allRepos Hp Hno Hlist) as (? & _ & ?).
  done.
Qed.

Lemma scrapeOrg_previous_store_without_repos_witness :
  ∃ o allRepos,
    test_heap !! 2%positive = Some o ∧
    no_repos o ∧
    listOrgRepos (github (test_world false false false)) (octokit_of (test_config None))
      (ScrapeConfig.org (test_config None)) = Return allRepos ∧
    (Ref.run (test_world false false false) (test_config None) 2%positive test_heap 0).1
    = Throw (Error.mk "Cannot read properties of undefined (reading 'test-org/repo-a')").
Proof.
  do 2 eexists.
  match goal with |- ?a ∧ ?b ∧ ?c ∧ _ =>
    assert a as Ha by reflexivity;
    assert b as Hb by reflexivity;
    assert c as Hc by reflexivity
  end.
  split; [exact Ha|]. split; [exact Hb|]. split; [exact Hc|].
  destruct (scrapeOrg_previous_store_without_repos _ _ _ _ _ 0 _ Ha Hb Hc) as [_ Hout].
  rewrite Hout. vm_compute. reflexivity.
Defined.

(** * The command line *)

Lemma startsWith_dashes s :
  startsWith s "--" = true → s = "--" +:+ slice 2 s.
Proof.
  destruct s as [|a [|b s]]; cbn [startsWith slice]; try done.
  - by rewrite andb_false_r.
  - intros [Ha [Hb _]%andb_true_iff]%andb_true_iff.
    apply Ascii.eqb_eq in Ha, Hb. by subst.
Qed.

Lemma startsWith_append k : startsWith ("--" +:+ k) "--" = true.
Proof. reflexivity. Qed.

Lemma truthy_true s : truthy s = true ↔ s ≠ "".
Proof.
  unfold truthy. destruct (String.eqb_spec s ""); simpl; split; congruence.
Qed.

Module CliFacts.
Import Cli.

Lemma lookup_set_flag key value flags k :
  set_flag key value flags !! k =
  if decide (key = k ∧ key ≠ "__proto__") then Some value else flags !! k.
Proof.
  unfold set_flag. destruct (decide (key = "__proto__")) as [->|Hne].
  - rewrite decide_False; [done|]. by intros [_ ?].
  - rewrite lookup_insert. destruct (decide (key = k)) as [->|Hk].
    + by rewrite decide_True.
    + rewrite decide_False; [done|]. by intros [? _].
Qed.

(** Induction on the arguments, one or two at a time as the loop consumes
    them. *)
Lemma parse_loop_ind (P : list string → string → gmap string string → Prop) :
  (∀ command flags, P [] command flags) →
  (∀ arg rest command flags,
     (∀ command' flags', P rest command' flags') →
     (∀ next rest' command' flags', rest = next :: rest' → P rest' command' flags') →
     P (arg :: rest) command flags) →
  ∀ args command flags, P args command flags.
Proof.
  intros Hnil Hcons args.
  assert (∀ n args, length args ≤ n → ∀ command flags, P args command flags) as Hgen.
  { induction n as [|n IH]; intros [|arg rest] Hlen command flags; simpl in Hlen.
    - apply Hnil.
    - lia.
    - apply Hnil.
    - apply Hcons.
      + intros. apply IH. lia.
      + intros next rest' command' flags' ->. apply IH. simpl in Hlen. lia. }
  intros. by eapply Hgen.
Qed.

Lemma parse_loop_values (all : list string) args command flags :
  args ⊆ all →
  command_ok all command →
  map_Forall (λ k v, k ≠ "__proto__" ∧ value_ok all v) flags →
  command_ok all (parse_loop args command flags).1 ∧
  map_Forall (λ k v, k ≠ "__proto__" ∧ value_ok all v)
    (parse_loop args command flags).2.
Proof.
  revert args command flags.
  apply (parse_loop_ind (λ args command flags,
    args ⊆ all → command_ok all command →
    map_Forall (λ k v, k ≠ "__proto__" ∧ value_ok all v) flags →
    command_ok all (parse_loop args command flags).1 ∧
    map_Forall (λ k v, k ≠ "__proto__" ∧ value_ok all v)
      (parse_loop args command flags).2)).
  { done. }
  intros arg rest command flags IH1 IH2 Hsub Hc Hfl.
  assert (rest ⊆ all) as Hrest by (intros x Hx; apply Hsub; by right).
  assert (∀ key v, value_ok all v →
            map_Forall (λ k v, k ≠ "__proto__" ∧ value_ok all v) (set_flag key v flags))
    as Hset.
  { intros key v Hv k v'. rewrite lookup_set_flag.
    destruct (decide _) as [[<- Hne]|_]; [by intros [= <-]|apply Hfl]. }
  cbn [parse_loop]. destruct (bool_decide _) eqn:Hhelp.
  { apply IH1; [exact Hrest|exact Hc|]. apply Hset. by left. }
  apply bool_decide_eq_false in Hhelp.
  destruct (startsWith arg "--") eqn:Hopt.
  - destruct rest as [|next rest'].
    + split; [exact Hc|]. apply Hset. by left.
    + destruct (truthy next && negb (startsWith next "--")) eqn:Hnext.
      * apply andb_true_iff in Hnext as [Hne%truthy_true Hdash%negb_true_iff].
        apply (IH2 next rest' _ _ eq_refl); [|exact Hc|].
        -- intros x Hx. apply Hrest. by right.
        -- apply Hset. right. split; [|done]. apply Hrest. by left.
      * apply IH1; [exact Hrest|exact Hc|]. apply Hset. by left.
  - destruct (truthy command) eqn:Hcmd.
    + by apply IH1.
    + apply IH1; [exact Hrest| |exact Hfl].
      destruct (decide (arg = "")) as [->|Hne]; [by left|].
      right. split; [apply Hsub; by left|].
      split; [done|]. split; [done|].
      intros ->. apply Hhelp. by right.
Qed.

Lemma parseArgs_eq argv :
  parseArgs argv =
  {| command := (parse_loop (drop 2 argv) "" ∅).1;
     flags := (parse_loop (drop 2 argv) "" ∅).2 |}.
Proof. unfold parseArgs. by destruct (parse_loop _ _ _). Qed.

(** X8.  Whatever the arguments, every flag value [parseArgs] returns is
    [true] or one of the arguments, not empty and not starting with two
    dashes, and no flag is named [__proto__]; the command is empty or an
    argument that is not empty, does not start with two dashes and is not
    [-h]. *)
Theorem parseArgs_shape argv :
  command_ok (drop 2 argv) (command (parseArgs argv)) ∧
  map_Forall (λ k v, k ≠ "__proto__" ∧ value_ok (drop 2 argv) v)
    (flags (parseArgs argv)).
Proof.
  rewrite parseArgs_eq. simpl.
  apply parse_loop_values; [done|by left|]. apply map_Forall_empty.
Qed.

(** Once set, or with [--help] still to come, the help flag is set at the
    end. *)
Lemma parse_loop_help args command flags :
  "--help" ∈ args ∨ flags !! "help" = Some "true" →
  (parse_loop args command flags).2 !! "help" = Some "true".
Proof.
  revert args command flags.
  apply (parse_loop_ind (λ args command flags,
    "--help" ∈ args ∨ flags !! "help" = Some "true" →
    (parse_loop args command flags).2 !! "help" = Some "true")).
  { intros command flags [Hin|Hset]; [by apply elem_of_nil in Hin|done]. }
  intros arg rest command flags IH1 IH2 Hhelp.
  cbn [parse_loop]. destruct (bool_decide _) eqn:Harg.
  { apply IH1. right. by rewrite lookup_set_flag, decide_True. }
  apply bool_decide_eq_false in Harg.
  assert ("--help" ∈ rest ∨ flags !! "help" = Some "true") as Hrest.
  { destruct Hhelp as [[Heq|Hin]%elem_of_cons|Hset]; [|by left|by right].
    destruct Harg. by left. }
  destruct (startsWith arg "--") eqn:Hopt.
  - assert (∀ v, "--help" ∈ rest ∨ flags !! "help" = Some "true" →
              "--help" ∈ rest ∨ set_flag (slice 2 arg) v flags !! "help" = Some "true")
      as Hkeep.
    { intros v [Hin|Hset]; [by left|right].
      rewrite lookup_set_flag, decide_False; [done|].
      intros [Hkey _]. apply Harg. left.
      by rewrite (startsWith_dashes arg Hopt), Hkey. }
    destruct rest as [|next rest'].
    + apply (Hkeep "true") in Hrest as [Hin|Hset]; [by apply elem_of_nil in Hin|done].
    + destruct (truthy next && negb (startsWith next "--")) eqn:Hnext.
      * apply andb_true_iff in Hnext as [_ Hdash%negb_true_iff].
        apply (IH2 next rest' _ _ eq_refl).
        destruct (Hkeep next Hrest) as [[Heq|Hin]%elem_of_cons|Hset];
          [by rewrite <- Heq in Hdash|by left|by right].
      * apply IH1. by apply Hkeep.
  - destruct (truthy command); by apply IH1.
Qed.

Lemma parse_loop_no_help args command flags :
  "--help" ∉ args → "-h" ∉ args → flags !! "help" = None →
  (parse_loop args command flags).2 !! "help" = None.
Proof.
  revert args command flags.
  apply (parse_loop_ind (λ args command flags,
    "--help" ∉ args → "-h" ∉ args → flags !! "help" = None →
    (parse_loop args command flags).2 !! "help" = None)).
  { done. }
  intros arg rest command flags IH1 IH2 Hlong Hshort Hnone.
  apply not_elem_of_cons in Hlong as [Hl Hlong], Hshort as [Hs Hshort].
  cbn [parse_loop]. rewrite bool_decide_eq_false_2 by (intros [?|?]; congruence).
  destruct (startsWith arg "--") eqn:Hopt.
  - assert (∀ v, set_flag (slice 2 arg) v flags !! "help" = None) as Hkeep.
    { intros v. rewrite lookup_set_flag, decide_False; [done|].
      intros [Hkey _]. apply Hl.
      by rewrite (startsWith_dashes arg Hopt), Hkey. }
    destruct rest as [|next rest'].
    + apply Hkeep.
    + apply not_elem_of_cons in Hlong as [? ?], Hshort as [? ?].
      destruct (truthy next && negb (startsWith next "--")).
      * by apply (IH2 next rest' _ _ eq_refl).
      * apply IH1; [by apply not_elem_of_cons..|done].
  - destruct (truthy command); by apply IH1.
Qed.

Lemma option_not_help k : k ≠ "help" → ¬ ("--" +:+ k = "--help" ∨ "--" +:+ k = "-h").
Proof.
  change ("--" +:+ k) with (String "-" (String "-" k)).
  intros Hk [[= ->]|[=]]. done.
Qed.

Lemma parse_loop_option_value k v rest command flags :
  k ≠ "help" → v ≠ "" → startsWith v "--" = false →
  parse_loop (("--" +:+ k) :: v :: rest) command flags
  = parse_loop rest command (set_flag k v flags).
Proof.
  intros Hk Hv%truthy_true Hdash. cbn [parse_loop].
  rewrite bool_decide_eq_false_2 by by apply option_not_help.
  by rewrite startsWith_append, Hv, Hdash.
Qed.

Lemma parse_loop_option_end k command flags :
  k ≠ "help" →
  parse_loop ["--" +:+ k] command flags = (command, set_flag k "true" flags).
Proof.
  intros Hk. cbn [parse_loop].
  rewrite bool_decide_eq_false_2 by by apply option_not_help.
  by rewrite startsWith_append.
Qed.

Lemma parse_loop_option_bare k k' rest command flags :
  k ≠ "help" →
  parse_loop (("--" +:+ k) :: ("--" +:+ k') :: rest) command flags
  = parse_loop (("--" +:+ k') :: rest) command (set_flag k "true" flags).
Proof.
  intros Hk.
  change (parse_loop (("--" +:+ k) :: ("--" +:+ k') :: rest) command flags)
    with (if bool_decide ("--" +:+ k = "--help" ∨ "--" +:+ k = "-h") then
            parse_loop (("--" +:+ k') :: rest) command (set_flag "help" "true" flags)
          else if startsWith ("--" +:+ k) "--" then
            if truthy ("--" +:+ k') && negb (startsWith ("--" +:+ k') "--") then
              parse_loop rest command (set_flag k ("--" +:+ k') flags)
            else parse_loop (("--" +:+ k') :: rest) command (set_flag k "true" flags)
          else if truthy command then
            parse_loop (("--" +:+ k') :: rest) command flags
          else parse_loop (("--" +:+ k') :: rest) ("--" +:+ k) flags).
  rewrite bool_decide_eq_false_2 by by apply option_not_help.
  by rewrite !startsWith_append, andb_false_r.
Qed.

Lemma parse_loop_positional c rest flags :
  positional c → parse_loop (c :: rest) "" flags = parse_loop rest c flags.
Proof.
  intros (Hne & Hdash & Hh). cbn [parse_loop].
  rewrite bool_decide_eq_false_2.
  2:{ intros [Heq|Heq]; subst c; [done|by apply Hh]. }
  by rewrite Hdash.
Qed.

Lemma parse_loop_options opts command flags :
  Forall well_formed opts →
  parse_loop (flat_map option_args opts) command flags
  = (command, foldl (λ flags opt, set_flag opt.1 (default "true" opt.2) flags) flags opts).
Proof.
  intros Hopts. revert flags.
  induction Hopts as [|[k [v|]] opts [Hk Hv] Hopts IH]; intros flags; [done|..].
  - destruct (Hv v eq_refl) as [Hne Hdash].
    cbn [flat_map option_args fst snd app foldl default].
    by rewrite parse_loop_option_value, IH.
  - cbn [flat_map option_args fst snd app foldl default].
    destruct opts as [|[k' v'] opts].
    + by apply parse_loop_option_end.
    + assert (∃ rest, flat_map option_args ((k', v') :: opts) = ("--" +:+ k') :: rest)
        as [rest Hrest] by (destruct v'; by eexists).
      rewrite Hrest in *. by rewrite parse_loop_option_bare, IH.
Qed.

Local Ltac solve_well_formed :=
  repeat (apply Forall_cons_2; [split; [done|intros ? ?; by simplify_eq/=]|]);
  apply Forall_nil_2.

Lemma parseArgs_rendered node script command opts :
  (∀ c, command = Some c → positional c) →
  Forall well_formed opts →
  parseArgs (node :: script :: render command opts)
  = {| command := default "" command; flags := flags_of opts |}.
Proof.
  intros Hc Hopts. rewrite parseArgs_eq.
  change (drop 2 (node :: script :: render command opts)) with (render command opts).
  unfold render, flags_of. destruct command as [c|].
  - change (option_list (Some c) ++ flat_map option_args opts)
      with (c :: flat_map option_args opts).
    by rewrite parse_loop_positional, parse_loop_options by auto.
  - change (option_list None ++ flat_map option_args opts)
      with (flat_map option_args opts).
    by rewrite parse_loop_options.
Qed.

(** X9.  A command line in the form the help shows is read back as it
    was written: [parseArgs] returns the command (empty when there is
    none) and, for each option, its value or [true] when it is bare, the
    last occurrence of an option winning.  This holds for a command that is
    not empty, does not start with two dashes and is not [-h], options
    other than [--help], and values that are not empty and do not start
    with two dashes. *)
Theorem parseArgs_reads_back node script command opts :
  (∀ c, command = Some c → positional c) →
  Forall well_formed opts →
  parseArgs (node :: script :: render command opts)
  = {| command := default "" command; flags := flags_of opts |}.
Proof. apply parseArgs_rendered. Qed.

Lemma parseArgs_reads_back_witness :
  parseArgs ["node"; "cli.js"; "scrape"; "--org"; "my-org"; "--verbose";
             "--org"; "other"; "--token"; "-h"]
  = {| command := "scrape";
       flags := {[ "org" := "other"; "verbose" := "true"; "token" := "-h" ]} |}.
Proof.
  etransitivity.
  - apply (parseArgs_reads_back "node" "cli.js" (Some "scrape")
             [("org", Some "my-org"); ("verbose", None); ("org", Some "other");
              ("token", Some "-h")]).
    + intros c [= <-]. by repeat split.
    + solve_well_formed.
  - vm_compute. reflexivity.
Defined.

Lemma flags_of_no_help opts :
  Forall well_formed opts → flags_of opts !! "help" = None.
Proof.
  intros Hopts. unfold flags_of.
  assert (∀ flags, flags !! "help" = None →
            foldl (λ flags opt, set_flag opt.1 (default "true" opt.2) flags) flags opts
              !! "help" = None) as Hgen.
  { induction Hopts as [|[k v] opts [Hk _] _ IH]; intros flags Hnone; [done|].
    simpl. apply IH. rewrite lookup_set_flag, decide_False; [done|]. by intros [? _]. }
  by apply Hgen.
Qed.

(** X10.  [--help] anywhere among the arguments makes [main] print the
    help and do nothing else, whatever the command, the other options and
    the environment.  [-h] does not always: where it directly follows an
    option it is taken as the value of that option, and the help is not
    printed. *)
Theorem main_help_wins argv env :
  ("--help" ∈ drop 2 argv → main argv env = PrintHelp) ∧
  (∀ node script key,
     key ≠ "help" → main [node; script; "--" +:+ key; "-h"] env ≠ PrintHelp).
Proof.
  split.
  - intros Hin. unfold main. rewrite parseArgs_eq. simpl.
    by rewrite parse_loop_help by by left.
  - intros node script key Hkey.
    change [node; script; "--" +:+ key; "-h"]
      with (node :: script :: render None [(key, Some "-h")]).
    unfold main.
    rewrite (parseArgs_rendered node script None [(key, Some "-h")]).
    + cbn [flags command]. rewrite flags_of_no_help.
      * simpl. repeat case_match; done.
      * solve_well_formed.
    + done.
    + solve_well_formed.
Qed.

(** X11.  A command other than [scrape] and [build] makes [main] do
    nothing at all: with a command line in the form the help shows, it
    neither scrapes nor builds, and it reports no error, whatever the
    options and the environment. *)
Theorem main_unknown_command_does_nothing node script cmd opts env :
  positional cmd → cmd ≠ "scrape" → cmd ≠ "build" →
  Forall well_formed opts →
  main (node :: script :: render (Some cmd) opts) env = Proceed None None.
Proof.
  intros Hcmd Hscrape Hbuild Hopts. unfold main.
  rewrite (parseArgs_rendered node script (Some cmd) opts) by (done || by intros c [= <-]).
  cbn [flags command]. change (default "" (Some cmd)) with cmd.
  rewrite flags_of_no_help by done.
  destruct Hcmd as (Hne & _).
  rewrite !bool_decide_eq_false_2 by (intros [?|?]; congruence).
  done.
Qed.

Lemma main_unknown_command_does_nothing_witness :
  main ["node"; "cli.js"; "deploy"; "--org"; "my-org"] ∅ = Proceed None None.
Proof.
  apply (main_unknown_command_does_nothing "node" "cli.js" "deploy"
           [("org", Some "my-org")] ∅).
  - by repeat split.
  - done.
  - done.
  - solve_well_formed.
Defined.

Lemma parseArgs_values_nonempty argv k v :
  flags (parseArgs argv) !! k = Some v → v ≠ "".
Proof.
  rewrite parseArgs_eq. simpl. intros Hk.
  destruct (parse_loop_values (drop 2 argv) (drop 2 argv) "" ∅) as [_ Hall];
    [done|by left|apply map_Forall_empty|].
  destruct (Hall k v Hk) as [_ [->|(_ & Hne & _)]]; done.
Qed.

(** X12.  [main] reports a missing organisation only when no [--org]
    option was given at all and [GITHUB_ORG] is unset or empty (a bare
    [--org] counts: the organisation is then [true]); and whenever it goes
    on to scrape, the organisation it passes is not empty.  The [build]
    command alone never needs one. *)
Theorem main_org_required argv env :
  (main argv env = MissingOrg →
   flags (parseArgs argv) !! "org" = None ∧
   default "" (env !! "GITHUB_ORG") = "" ∧
   command (parseArgs argv) ≠ "build") ∧
  (∀ options build, main argv env = Proceed (Some options) build →
     org options ≠ "") ∧
  (command (parseArgs argv) = "build" → main argv env ≠ MissingOrg).
Proof.
  pose proof (parseArgs_values_nonempty argv) as Hvalues.
  unfold main.
  destruct (default false (truthy <$> flags (parseArgs argv) !! "help"));
    [by repeat split|].
  set (org := nullish (flags (parseArgs argv) !! "org") (env !! "GITHUB_ORG")).
  destruct (bool_decide (command (parseArgs argv) = "scrape" ∨
                         command (parseArgs argv) = "")) eqn:Hscrape.
  - destruct (default false (truthy <$> org)) eqn:Horg; cbn [andb negb].
    + split; [done|]. split; [|done].
      intros options build [= <- _]. simpl.
      destruct org as [o|]; [|done]. simpl in *. by apply truthy_true.
    + split; [|split; [done|]].
      * intros _. apply bool_decide_eq_true in Hscrape.
        destruct (flags (parseArgs argv) !! "org") as [v|] eqn:Hflag.
        -- exfalso. pose proof (Hvalues "org" v Hflag) as Hv.
           subst org. simpl in Horg. apply truthy_true in Hv. congruence.
        -- split; [done|]. split.
           ++ subst org. simpl in Horg.
              destruct (env !! "GITHUB_ORG") as [o|]; [|done]. simpl in *.
              destruct (String.eqb_spec o ""); [done|].
              unfold truthy in Horg. by destruct (String.eqb_spec o "").
           ++ destruct Hscrape as [-> | ->]; done.
      * intros Hbuild. apply bool_decide_eq_true in Hscrape.
        rewrite Hbuild in Hscrape. by destruct Hscrape.
  - cbn [andb]. split; [done|]. split; [done|]. done.
Qed.
End CliFacts.

(** * The scrape command *)

Module ScrapeFacts.
Import Scrape.

Lemma record_record evs evs' (m : Machine Process) :
  record evs' (record evs m) = record (evs ++ evs') m.
Proof. unfold record, set_mem, set_trace. simpl. by rewrite app_assoc. Qed.

Lemma record_nil (m : Machine Process) : record [] m = m.
Proof.
  destruct m as [[h p t] ? ? ? ? ? ? ? ?]. unfold record, set_mem, set_trace. simpl.
  by rewrite app_nil_r.
Qed.

Section Command.
Variable host : Host.
Variable w : World.

Local Abbreviation answer := (answer host).
Local Abbreviation attempted := (attempted host).

Lemma does_eq {A} ev (a : outcome A) m : does ev a m = (a, record [ev] m).
Proof. reflexivity. Qed.

Lemma attempted_app evs evs' :
  attempted (evs ++ evs') =
  match attempted evs with
  | (Return _, t) => ((attempted evs').1, t ++ (attempted evs').2)
  | (Throw e, t) => (Throw e, t)
  end.
Proof.
  induction evs as [|ev evs IH]; simpl.
  - by destruct (attempted evs').
  - destruct (answer ev) as [[]|e]; [|done].
    rewrite IH. destruct (attempted evs) as [[[]|e] t]; simpl; [|done].
    by destruct (attempted evs').
Qed.

Lemma attempted_Return evs :
  (attempted evs).1 = Return tt →
  (attempted evs).2 = evs ∧ Forall (λ ev, answer ev = Return tt) evs.
Proof.
  induction evs as [|ev evs IH]; simpl; [done|].
  destruct (answer ev) as [[]|e] eqn:Hev; [|done].
  destruct (attempted evs) as [o t]. simpl in *. intros Ho.
  destruct (IH Ho) as [-> Hall]. split; [done|]. by constructor.
Qed.

Lemma attempted_Throw evs e :
  (attempted evs).1 = Throw e →
  ∃ done ev rest,
    evs = done ++ ev :: rest ∧ (attempted evs).2 = done ++ [ev] ∧
    answer ev = Throw e ∧ Forall (λ ev, answer ev = Return tt) done.
Proof.
  induction evs as [|ev evs IH]; simpl; [done|].
  destruct (answer ev) as [[]|e'] eqn:Hev.
  - destruct (attempted evs) as [o t]. simpl in *. intros Ho.
    destruct (IH Ho) as (done & ev' & rest & -> & -> & Hev' & Hall).
    exists (ev :: done), ev', rest. split; [done|]. split; [done|].
    split; [done|]. by constructor.
  - simpl. intros [= ->]. exists [], ev, evs. by repeat split.
Qed.

Lemma write_docs_eq docsDir files m :
  for_of files (write_doc host docsDir) m =
  ((attempted (flat_map (doc_events host docsDir) files)).1,
   record (attempted (flat_map (doc_events host docsDir) files)).2 m).
Proof.
  revert m. induction files as [|file files IH]; intros m.
  - simpl. by rewrite record_nil.
  - cbn [for_of flat_map]. unfold bind at 1. unfold write_doc at 1.
    unfold bind at 1. rewrite does_eq.
    change (doc_events host docsDir file ++ flat_map (doc_events host docsDir) files)
      with (MkdirSync (dirname host (destPath host docsDir file)) ::
            WriteFileSync (destPath host docsDir file) (ScrapedFile.content file) ::
            flat_map (doc_events host docsDir) files).
    cbn [Scrape.attempted Scrape.answer].
    destruct (mkdirSync host _) as [[]|e]; [|done].
    rewrite does_eq.
    destruct (writeFileSync host _ _) as [[]|e]; [|by rewrite record_record].
    rewrite IH. destruct (attempted _) as [o t]. simpl.
    by rewrite !record_record.
Qed.

Lemma save_eq opts files state m :
  save host opts files state m =
  let a := attempted (save_events host opts files
                        (JSON_stringify host (heap (mem m)) state)) in
  (a.1, record a.2 m).
Proof.
  unfold save, save_events. rewrite attempted_app.
  unfold bind at 1. rewrite write_docs_eq.
  destruct (attempted (flat_map _ files)) as [[[]|e] t]; [|done].
  cbn [fst snd]. unfold bind at 1. unfold console_log at 1. rewrite does_eq.
  unfold bind at 1, gets at 1. cbn [Scrape.attempted Scrape.answer].
  change (heap (mem (record [ConsoleLog (wrote_line (length files)
            (Cli.scrape_docsDir opts))] (record t m)))) with (heap (mem m)).
  unfold bind at 1. rewrite does_eq.
  destruct (writeFileSync host _ _) as [[]|e].
  - unfold console_log. rewrite does_eq. simpl. rewrite !record_record.
    by rewrite <- ?app_assoc.
  - simpl. rewrite !record_record. by rewrite <- ?app_assoc.
Qed.

Lemma count_repos_state m : (count_repos w m).2 = m.
Proof.
  unfold count_repos.
  destruct (heap (mem m) !! prevState (mem m) ≫= _) as [repos|]; [|done].
  by destruct (heap (mem m) !! repos).
Qed.

Lemma load_absent stateFile m :
  existsSync host stateFile = false →
  load host w stateFile m = (Return tt, record [ExistsSync stateFile] m).
Proof.
  intros Hno. unfold load. unfold bind at 1. rewrite does_eq. by rewrite Hno.
Qed.

Lemma load_unreadable stateFile m :
  existsSync host stateFile = true →
  (∃ e, readFileSync host stateFile = Throw e) ∨
  (∃ text e, readFileSync host stateFile = Return text ∧
             JSON_parse host text (heap (mem m)) = Throw e) →
  load host w stateFile m =
  (Return tt,
   set_console (λ l, l ++ [unparsed_line stateFile])
     (record [ExistsSync stateFile; ReadFileSync stateFile] m)).
Proof.
  intros Hyes Hbad. unfold load. unfold bind at 1. rewrite does_eq, Hyes.
  unfold try_catch. unfold bind at 1. rewrite does_eq.
  destruct Hbad as [[e ->]|(text & e & -> & Hparse)].
  - unfold console_warn, modify. by rewrite record_record.
  - unfold bind at 1. unfold parse at 1. simpl. rewrite Hparse.
    unfold console_warn, modify. by rewrite record_record.
Qed.

Lemma load_parsed stateFile m text root h :
  existsSync host stateFile = true →
  readFileSync host stateFile = Return text →
  JSON_parse host text (heap (mem m)) = Return (root, h) →
  let m' := set_mem (λ p, {| heap := h; prevState := root;
                             trace := trace p ++ [ExistsSync stateFile;
                                                  ReadFileSync stateFile] |}) m in
  load host w stateFile m =
  (Return tt,
   match count_repos w m' with
   | (Return count, _) => record [ConsoleLog (loaded_line stateFile count)] m'
   | (Throw _, _) => set_console (λ l, l ++ [unparsed_line stateFile]) m'
   end).
Proof.
  intros Hyes Hread Hparse m'. unfold load. unfold bind at 1. rewrite does_eq, Hyes.
  unfold try_catch. unfold bind at 1. rewrite does_eq, Hread.
  unfold bind at 1. unfold parse at 1. simpl. rewrite Hparse.
  unfold bind at 1.
  assert (set_mem (λ p, {| heap := h; prevState := root; trace := trace p |})
            (record [ReadFileSync stateFile] (record [ExistsSync stateFile] m)) = m')
    as ->.
  { subst m'. unfold record, set_mem, set_trace. simpl. by rewrite <- app_assoc. }
  pose proof (count_repos_state m') as Hsame.
  destruct (count_repos w m') as [[count|e] m'']; simpl in Hsame; by subst m''.
Qed.

(** Loading never fails, and changes nothing on disk. *)
Lemma load_total stateFile m :
  ∃ p0 warned t0,
    load host w stateFile m
    = (Return tt, set_console (λ l, l ++ warned) (set_mem (λ _, p0) m)) ∧
    trace p0 = trace (mem m) ++ t0 ∧ Forall reads_only t0.
Proof.
  destruct (existsSync host stateFile) eqn:Hyes.
  2:{ exists (set_trace (λ t, t ++ [ExistsSync stateFile]) (mem m)), [], [ExistsSync stateFile].
      rewrite (load_absent _ _ Hyes). split; [|split; [done|by repeat constructor]].
      f_equal. destruct m. unfold record, set_console, set_mem. simpl.
      by rewrite app_nil_r. }
  destruct (readFileSync host stateFile) as [text|e] eqn:Hread.
  2:{ exists (set_trace (λ t, t ++ [ExistsSync stateFile; ReadFileSync stateFile]) (mem m)),
        [unparsed_line stateFile], [ExistsSync stateFile; ReadFileSync stateFile].
      rewrite (load_unreadable _ _ Hyes) by (left; by exists e).
      split; [done|]. split; [done|by repeat constructor]. }
  destruct (JSON_parse host text (heap (mem m))) as [[root h]|e] eqn:Hparse.
  2:{ exists (set_trace (λ t, t ++ [ExistsSync stateFile; ReadFileSync stateFile]) (mem m)),
        [unparsed_line stateFile], [ExistsSync stateFile; ReadFileSync stateFile].
      rewrite (load_unreadable _ _ Hyes) by (right; by exists text, e).
      split; [done|]. split; [done|by repeat constructor]. }
  rewrite (load_parsed _ _ _ _ _ Hyes Hread Hparse). cbn zeta.
  destruct (count_repos _ _) as [[count|e] m'].
  - exists {| heap := h; prevState := root;
              trace := trace (mem m) ++
                [ExistsSync stateFile; ReadFileSync stateFile;
                 ConsoleLog (loaded_line stateFile count)] |}, [],
      [ExistsSync stateFile; ReadFileSync stateFile;
       ConsoleLog (loaded_line stateFile count)].
    split; [|split; [done|by repeat constructor]].
    f_equal. destruct m. unfold record, set_console, set_mem, set_trace. simpl.
    by rewrite app_nil_r, <- app_assoc.
  - eexists {| heap := h; prevState := root; trace := _ |}, [unparsed_line stateFile], _.
    split; [done|]. split; [done|by repeat constructor].
Qed.

Lemma fetch_eq opts m :
  fetch host w opts m =
  match filter_of host (Cli.repoFilter opts) with
  | Return test => scrapeOrg w (config_of opts test) (prevState (mem m)) m
  | Throw e => (Throw e, m)
  end.
Proof.
  unfold fetch, filter_of, compile, config_of.
  destruct (Cli.repoFilter opts) as [source|]; [|done].
  destruct (truthy source); [|done].
  unfold bind at 1. unfold bind at 1. unfold await.
  by destruct (RegExp host source).
Qed.

(** A run, piece by piece: the process [p0] that loading leaves, the run
    of [scrapeOrg] on its heap, and what is attempted of [save]. *)
Lemma run_loaded opts n p0 warned :
  load host w (Cli.stateFile opts) (boot declared n)
  = (Return tt, set_console (λ l, l ++ warned) (set_mem (λ _, p0) (boot declared n))) →
  match filter_of host (Cli.repoFilter opts) with
  | Throw e =>
      (run host w opts n).1 = Throw e ∧
      trace (mem (run host w opts n).2) = trace p0 ∧
      calls (run host w opts n).2 = []
  | Return test =>
      let r := Ref.run w (config_of opts test) (prevState p0) (heap p0) n in
      calls (run host w opts n).2 = calls r.2 ∧
      console (run host w opts n).2 = warned ++ console r.2 ∧
      progress (run host w opts n).2 = progress r.2 ∧
      match r.1 with
      | Throw e =>
          (run host w opts n).1 = Throw e ∧
          trace (mem (run host w opts n).2)
            = trace p0 ++ flat_map onProgress (progress r.2)
      | Return (files, state) =>
          let a := attempted (save_events host opts files
                                (JSON_stringify host (mem r.2) state)) in
          (run host w opts n).1 = a.1 ∧
          trace (mem (run host w opts n).2)
            = trace p0 ++ flat_map onProgress (progress r.2) ++ a.2
      end
  end.
Proof.
  intros Hload.
  set (m1 := set_console (λ l, l ++ warned) (set_mem (λ _, p0) (boot declared n))) in *.
  assert (run host w opts n =
          match filter_of host (Cli.repoFilter opts) with
          | Return test =>
              match scrapeOrg w (config_of opts test) (prevState p0) m1 with
              | (Return r, m2) => save host opts r.1 r.2 m2
              | (Throw e, m2) => (Throw e, m2)
              end
          | Throw e => (Throw e, m1)
          end) as ->.
  { unfold run, runScrape. unfold bind at 1. rewrite Hload.
    unfold bind at 1. rewrite fetch_eq.
    by destruct (filter_of host (Cli.repoFilter opts)). }
  destruct (filter_of host (Cli.repoFilter opts)) as [test|e]; [|done].
  unfold scrapeOrg. subst m1.
  cbn [mem set_console set_mem boot reads calls console progress heap].
  cbn zeta.
  destruct (Ref.run w (config_of opts test) (prevState p0) (heap p0) n)
    as [[[files state]|e] mr]; [|done].
  cbn [fst snd]. rewrite save_eq. cbn zeta.
  cbn [fst snd mem heap record set_mem set_trace trace calls console progress].
  do 4 (split; [done|]). symmetry. apply app_assoc.
Qed.

(** What loading leaves when there is no state to read. *)
Lemma load_no_state stateFile n :
  no_state host stateFile →
  ∃ t0,
    load host w stateFile (boot declared n)
    = (Return tt,
       set_console
         (λ l, l ++ if existsSync host stateFile then [unparsed_line stateFile] else [])
         (set_mem (λ _, set_trace (λ _, t0) declared) (boot declared n))).
Proof.
  intros [Hno|Hbad].
  - exists [ExistsSync stateFile]. rewrite (load_absent _ _ Hno), Hno. done.
  - destruct (existsSync host stateFile) eqn:Hyes.
    + exists [ExistsSync stateFile; ReadFileSync stateFile].
      by rewrite (load_unreadable _ (boot declared n) Hyes Hbad).
    + exists [ExistsSync stateFile]. by rewrite (load_absent _ _ Hyes).
Qed.

Lemma declared_rep : Ref.rep_state (heap declared) (prevState declared) empty_state.
Proof.
  exists 1%positive, ∅. split; [reflexivity|]. split; [reflexivity|].
  apply map_Forall2_empty.
Qed.

Lemma rep_state_count h root prev :
  Ref.rep_state h root prev →
  ∃ repos lastScrape props,
    h !! root = Some (Ref.OState repos lastScrape) ∧
    h !! repos = Some (Ref.ODict props) ∧
    size props = size (ScrapeState.repos prev).
Proof.
  intros (repos & props & Hroot & Hrepos & Hall).
  exists repos, (ScrapeState.lastScrape prev), props. split; [done|]. split; [done|].
  by rewrite <- !size_dom, (map_Forall2_dom_L _ _ _ Hall).
Qed.

(** The save events end with the write of the state file and the line
    that confirms it: an operation that is rejected is that write or
    comes before it. *)
Lemma save_events_rejected opts files text done ev rest e :
  save_events host opts files text = done ++ ev :: rest →
  answer ev = Throw e →
  ∃ rest', ev :: rest = rest' ++ [WriteFileSync (Cli.stateFile opts) text;
                                  ConsoleLog (saved_line (Cli.stateFile opts))].
Proof.
  unfold save_events. intros Heq Hev.
  set (docs := flat_map (doc_events host (Cli.scrape_docsDir opts)) files) in *.
  set (wrote := ConsoleLog (wrote_line (length files) (Cli.scrape_docsDir opts))) in *.
  set (write := WriteFileSync (Cli.stateFile opts) text) in *.
  set (saved := ConsoleLog (saved_line (Cli.stateFile opts))) in *.
  destruct rest as [|x rest _] using rev_ind.
  { change (docs ++ [wrote; write; saved]) with (docs ++ [wrote; write] ++ [saved]) in Heq.
    rewrite !app_assoc in Heq. apply app_inj_tail in Heq as [_ <-]. done. }
  change (docs ++ [wrote; write; saved]) with (docs ++ [wrote; write] ++ [saved]) in Heq.
  rewrite app_comm_cons in Heq. rewrite !app_assoc in Heq.
  apply app_inj_tail in Heq as [Heq <-].
  destruct rest as [|y rest _] using rev_ind.
  { change (docs ++ [wrote; write]) with (docs ++ [wrote] ++ [write]) in Heq.
    rewrite !app_assoc in Heq. apply app_inj_tail in Heq as [_ <-]. by exists []. }
  change (docs ++ [wrote; write]) with (docs ++ [wrote] ++ [write]) in Heq.
  rewrite app_comm_cons in Heq. rewrite !app_assoc in Heq.
  apply app_inj_tail in Heq as [_ <-].
  exists (ev :: rest). simpl. by rewrite <- app_assoc.
Qed.

Lemma onProgress_reads_only events : Forall reads_only (flat_map onProgress events).
Proof.
  induction events as [|p events IH]; [done|].
  simpl. apply Forall_app. split; [|done]. unfold onProgress.
  apply Forall_app. split.
  - destruct (ScrapeProgress.message p) as [message|]; [|done].
    destruct (truthy message); by repeat constructor.
  - destruct (ScrapeProgress.phase p); by repeat constructor.
Qed.

(** X13.  A run of the command that returns.  [scrapeOrg] has returned;
    loading changed nothing on disk; the callback wrote the message of
    each event; then, for each record in order, the directory of
    [join(docsDir, repo, path)] was made and the content written there,
    the count was printed, the new store was written to the state file
    and the confirmation printed.  Every operation was fulfilled, and
    nothing else was done. *)
Theorem runScrape_writes_then_saves opts n :
  (run host w opts n).1 = Return tt →
  ∃ p0 test files state mr,
    filter_of host (Cli.repoFilter opts) = Return test ∧
    Ref.run w (config_of opts test) (prevState p0) (heap p0) n
      = (Return (files, state), mr) ∧
    Forall reads_only (trace p0) ∧
    trace (mem (run host w opts n).2)
      = trace p0 ++ flat_map onProgress (progress mr) ++
        save_events host opts files (JSON_stringify host (mem mr) state) ∧
    Forall (λ ev, answer ev = Return tt)
      (save_events host opts files (JSON_stringify host (mem mr) state)).
Proof.
  intros Hrun.
  destruct (load_total (Cli.stateFile opts) (boot declared n))
    as (p0 & warned & t0 & Hload & Htrace & Hreads).
  pose proof (run_loaded opts n p0 warned Hload) as Hspec.
  destruct (filter_of host (Cli.repoFilter opts)) as [test|e].
  2:{ destruct Hspec as [Hthrow _]. congruence. }
  cbn zeta in Hspec. destruct Hspec as (_ & _ & _ & Hspec).
  destruct (Ref.run w (config_of opts test) (prevState p0) (heap p0) n)
    as [[[files state]|e] mr] eqn:Hscrape; simpl in Hspec.
  2:{ destruct Hspec as [Hthrow _]. congruence. }
  destruct Hspec as [Hout Htr]. rewrite Hrun in Hout. symmetry in Hout.
  destruct (attempted_Return _ Hout) as [Hall Hok].
  exists p0, test, files, state, mr. split; [done|]. split; [done|].
  split; [by rewrite Htrace|]. split; [by rewrite Htr, Hall|done].
Qed.

(** X14.  A run of the command that is rejected.  Either nothing was
    changed on disk (the filter did not compile, or [scrapeOrg] was
    rejected), or [scrapeOrg] had returned and what was attempted of the
    save events stops at the operation [ev] that was rejected, with the
    error of the run: [ev] is the write of the state file or comes before
    it.  So the state file is not replaced, and the confirmation is not
    printed, unless every record was written. *)
Theorem runScrape_rejected_keeps_state opts n e :
  (run host w opts n).1 = Throw e →
  Forall reads_only (trace (mem (run host w opts n).2)) ∨
  ∃ p0 test files state mr done ev rest rest',
    filter_of host (Cli.repoFilter opts) = Return test ∧
    Ref.run w (config_of opts test) (prevState p0) (heap p0) n
      = (Return (files, state), mr) ∧
    Forall reads_only (trace p0) ∧
    trace (mem (run host w opts n).2)
      = trace p0 ++ flat_map onProgress (progress mr) ++ done ++ [ev] ∧
    answer ev = Throw e ∧
    Forall (λ ev, answer ev = Return tt) done ∧
    save_events host opts files (JSON_stringify host (mem mr) state)
      = done ++ ev :: rest ∧
    ev :: rest = rest' ++ [WriteFileSync (Cli.stateFile opts)
                             (JSON_stringify host (mem mr) state);
                           ConsoleLog (saved_line (Cli.stateFile opts))].
Proof.
  intros Hrun.
  destruct (load_total (Cli.stateFile opts) (boot declared n))
    as (p0 & warned & t0 & Hload & Htrace & Hreads).
  assert (Forall reads_only (trace p0)) as Hp0 by by rewrite Htrace.
  pose proof (run_loaded opts n p0 warned Hload) as Hspec.
  destruct (filter_of host (Cli.repoFilter opts)) as [test|e'].
  2:{ left. destruct Hspec as (_ & -> & _). done. }
  cbn zeta in Hspec. destruct Hspec as (_ & _ & _ & Hspec).
  destruct (Ref.run w (config_of opts test) (prevState p0) (heap p0) n)
    as [[[files state]|e'] mr] eqn:Hscrape; simpl in Hspec.
  2:{ left. destruct Hspec as [_ ->]. apply Forall_app. split; [done|].
      apply onProgress_reads_only. }
  destruct Hspec as [Hout Htr]. rewrite Hrun in Hout. symmetry in Hout.
  destruct (attempted_Throw _ _ Hout) as (done & ev & rest & Heq & Hdone & Hev & Hok).
  destruct (save_events_rejected _ _ _ _ _ _ _ Heq Hev) as [rest' Hrest].
  right. exists p0, test, files, state, mr, done, ev, rest, rest'.
  split; [done|]. split; [done|]. split; [done|].
  split; [by rewrite Htr, Hdone|]. done.
Qed.

(** X15.  Without a state to read (the state file is absent, cannot be
    read, or does not hold JSON), the command scrapes as a first run does:
    its requests are those of [scrapeOrg] without a previous store, so the
    content of every markdown file of every retained repository is
    requested.  It has warned that it starts fresh exactly when the file
    exists. *)
Theorem runScrape_without_state opts n test :
  no_state host (Cli.stateFile opts) →
  filter_of host (Cli.repoFilter opts) = Return test →
  let config := config_of opts test in
  let m := (run host w opts n).2 in
  calls m = calls (Val.run w config empty_state n).2 ∧
  List.filter is_content_call (calls m)
    = (λ rt, content_call rt.1 rt.2) <$> walked w (octokit_of config) (repos_of w config) ∧
  console m = (if existsSync host (Cli.stateFile opts)
               then [unparsed_line (Cli.stateFile opts)] else []) ++
              console (Val.run w config empty_state n).2.
Proof.
  intros Hno Hfilter config m. subst m.
  destruct (load_no_state (Cli.stateFile opts) n Hno) as [t0 Hload].
  pose proof (run_loaded opts n _ _ Hload) as Hspec.
  rewrite Hfilter in Hspec. cbn zeta in Hspec. fold config in Hspec.
  destruct Hspec as (Hcalls & Hconsole & _).
  destruct (RefSim.run_sim w config _ _ _ n declared_rep) as (h & Hm & _).
  change (prevState (set_trace _ declared)) with (prevState declared) in Hcalls, Hconsole.
  change (heap (set_trace _ declared)) with (heap declared) in Hcalls, Hconsole.
  rewrite Hm in Hcalls, Hconsole.
  unfold Ref.with_mem in Hcalls, Hconsole. cbn [calls console set_mem] in Hcalls, Hconsole.
  split; [done|]. split; [|done].
  rewrite Hcalls, run_calls_always. cbn [List.filter is_content_call].
  rewrite content_calls_of. apply request_of_empty_state.
Qed.

(** X16.  With a state file that holds a store, the command resumes from
    it: it prints the number of repositories the store has, and its
    requests and warnings are those of [scrapeOrg] with that store as the
    previous one, so the content of an entry is requested only when the
    entry is new or its fingerprint has changed. *)
Theorem runScrape_resumes opts n test text root h prev :
  existsSync host (Cli.stateFile opts) = true →
  readFileSync host (Cli.stateFile opts) = Return text →
  JSON_parse host text (heap declared) = Return (root, h) →
  Ref.rep_state h root prev →
  filter_of host (Cli.repoFilter opts) = Return test →
  let config := config_of opts test in
  let m := (run host w opts n).2 in
  calls m = calls (Val.run w config prev n).2 ∧
  List.filter is_content_call (calls m)
    = flat_map (request_of prev) (walked w (octokit_of config) (repos_of w config)) ∧
  console m = console (Val.run w config prev n).2 ∧
  ∃ t, trace (mem m)
       = [ ExistsSync (Cli.stateFile opts); ReadFileSync (Cli.stateFile opts);
           ConsoleLog (loaded_line (Cli.stateFile opts) (size (ScrapeState.repos prev))) ]
         ++ t.
Proof.
  intros Hyes Hread Hparse Hrep Hfilter config m. subst m.
  pose proof (load_parsed (Cli.stateFile opts) (boot declared n) text root h
                Hyes Hread Hparse) as Hload.
  cbn zeta in Hload.
  destruct (rep_state_count h root prev Hrep)
    as (repos & lastScrape & props & Hroot & Hrepos & Hsize).
  unfold count_repos in Hload. simpl in Hload. rewrite Hroot in Hload.
  simpl in Hload. rewrite Hrepos in Hload. simpl in Hload. rewrite Hsize in Hload.
  pose proof (run_loaded opts n
    {| heap := h; prevState := root;
       trace := [ ExistsSync (Cli.stateFile opts); ReadFileSync (Cli.stateFile opts);
                  ConsoleLog (loaded_line (Cli.stateFile opts)
                                (size (ScrapeState.repos prev))) ] |} []) as Hspec.
  rewrite Hfilter in Hspec. cbn zeta in Hspec. fold config in Hspec.
  destruct Hspec as (Hcalls & Hconsole & _ & Hrest); [by rewrite Hload|].
  destruct (RefSim.run_sim w config h root prev n Hrep) as (h' & Hm & _).
  cbn [heap prevState trace] in Hcalls, Hconsole, Hrest. rewrite Hm in Hcalls, Hconsole.
  unfold Ref.with_mem in Hcalls, Hconsole. cbn [calls console set_mem] in Hcalls, Hconsole.
  split; [done|]. split; [|split; [done|]].
  - rewrite Hcalls, run_calls_always. cbn [List.filter is_content_call].
    apply content_calls_of.
  - destruct (Ref.run w config root h n).1 as [[files state]|e].
    + destruct Hrest as [_ ->]. by eexists.
    + destruct Hrest as [_ ->]. by eexists.
Qed.

(** X17.  With a state file that holds JSON for an object without
    [repos], the variable [prevState] keeps that object: the assignment
    precedes the count that fails in [try].  The command warns that it
    starts fresh, and does not: once the organisation is listed and a
    retained repository has a markdown file, the run is rejected at the
    first entry it walks, with the [TypeError] the engine raises for
    reading the full name of that entry's repository from
    [prevState.repos]; it has requested no content and changed nothing on
    disk. *)
Theorem runScrape_state_without_repos opts n test text root h o allRepos repo t :
  existsSync host (Cli.stateFile opts) = true →
  readFileSync host (Cli.stateFile opts) = Return text →
  JSON_parse host text (heap declared) = Return (root, h) →
  h !! root = Some o →
  no_repos o →
  filter_of host (Cli.repoFilter opts) = Return test →
  let config := config_of opts test in
  listOrgRepos (github w) (octokit_of config) (ScrapeConfig.org config) = Return allRepos →
  head (walked w (octokit_of config) (retained config allRepos)) = Some (repo, t) →
  let r := run host w opts n in
  r.1 = Throw (typeError w (Reading "prevState.repos" (Repo.full_name repo))) ∧
  head (console r.2) = Some (unparsed_line (Cli.stateFile opts)) ∧
  List.filter is_content_call (calls r.2) = [] ∧
  Forall reads_only (trace (mem r.2)).
Proof.
  intros Hyes Hread Hparse Hroot Hno Hfilter config Hlist Hwalked r. subst r.
  pose proof (load_parsed (Cli.stateFile opts) (boot declared n) text root h
                Hyes Hread Hparse) as Hload.
  cbn zeta in Hload.
  unfold count_repos in Hload. simpl in Hload. rewrite Hroot in Hload.
  simpl in Hload. unfold no_repos in Hno. rewrite Hno in Hload.
  pose proof (run_loaded opts n _ _ Hload) as Hspec.
  rewrite Hfilter in Hspec. cbn zeta in Hspec. fold config in Hspec.
  destruct Hspec as (Hcalls & Hconsole & _ & Hrest).
  destruct (run_unusable w config h root o n allRepos Hroot Hno Hlist)
    as (Hnone & _ & Hthrow).
  cbn [heap prevState trace] in Hcalls, Hconsole, Hrest.
  destruct (walked w (octokit_of config) (retained config allRepos))
    as [|[repo' t'] rest]; [done|].
  injection Hwalked as -> ->.
  rewrite Hthrow in Hrest.
  destruct Hrest as [Hout Htrace].
  split; [done|]. split; [by rewrite Hconsole|]. split; [by rewrite Hcalls|].
  rewrite Htrace. apply Forall_app. split; [by repeat constructor|].
  apply onProgress_reads_only.
Qed.

End Command.
End ScrapeFacts.


Lemma runScrape_writes_then_saves_witness :
  (Scrape.run (test_host None false) (test_world false false false) test_opts 0).1
    = Return tt ∧
  ∃ p0 test files state mr,
    Scrape.filter_of (test_host None false) (Cli.repoFilter test_opts) = Return test ∧
    Ref.run (test_world false false false) (Scrape.config_of test_opts test)
      (Scrape.prevState p0) (Scrape.heap p0) 0 = (Return (files, state), mr) ∧
    Forall Scrape.reads_only (Scrape.trace p0) ∧
    Scrape.trace (mem (Scrape.run (test_host None false) (test_world false false false)
                         test_opts 0).2)
      = Scrape.trace p0 ++ flat_map Scrape.onProgress (progress mr) ++
        Scrape.save_events (test_host None false) test_opts files
          (Scrape.JSON_stringify (test_host None false) (mem mr) state) ∧
    Forall (λ ev, Scrape.answer (test_host None false) ev = Return tt)
      (Scrape.save_events (test_host None false) test_opts files
         (Scrape.JSON_stringify (test_host None false) (mem mr) state)).
Proof.
  assert ((Scrape.run (test_host None false) (test_world false false false)
             test_opts 0).1 = Return tt) as Hrun by (vm_compute; reflexivity).
  split; [exact Hrun|].
  exact (ScrapeFacts.runScrape_writes_then_saves _ _ _ _ Hrun).
Defined.

Lemma runScrape_rejected_keeps_state_witness :
  (Scrape.run (test_host None true) (test_world false false false) test_opts 0).1
    = Throw (Error.mk "ENOSPC: no space left on device") ∧
  (Forall Scrape.reads_only
     (Scrape.trace (mem (Scrape.run (test_host None true) (test_world false false false)
                           test_opts 0).2)) ∨
   ∃ p0 test files state mr done ev rest rest',
     Scrape.filter_of (test_host None true) (Cli.repoFilter test_opts) = Return test ∧
     Ref.run (test_world false false false) (Scrape.config_of test_opts test)
       (Scrape.prevState p0) (Scrape.heap p0) 0 = (Return (files, state), mr) ∧
     Forall Scrape.reads_only (Scrape.trace p0) ∧
     Scrape.trace (mem (Scrape.run (test_host None true) (test_world false false false)
                          test_opts 0).2)
       = Scrape.trace p0 ++ flat_map Scrape.onProgress (progress mr) ++ done ++ [ev] ∧
     Scrape.answer (test_host None true) ev
       = Throw (Error.mk "ENOSPC: no space left on device") ∧
     Forall (λ ev, Scrape.answer (test_host None true) ev = Return tt) done ∧
     Scrape.save_events (test_host None true) test_opts files
       (Scrape.JSON_stringify (test_host None true) (mem mr) state)
       = done ++ ev :: rest ∧
     ev :: rest = rest' ++ [Scrape.WriteFileSync (Cli.stateFile test_opts)
                              (Scrape.JSON_stringify (test_host None true) (mem mr) state);
                            Scrape.ConsoleLog
                              (Scrape.saved_line (Cli.stateFile test_opts))]).
Proof.
  assert ((Scrape.run (test_host None true) (test_world false false false)
             test_opts 0).1 = Throw (Error.mk "ENOSPC: no space left on device"))
    as Hrun by (vm_compute; reflexivity).
  split; [exact Hrun|].
  exact (ScrapeFacts.runScrape_rejected_keeps_state _ _ _ _ _ Hrun).
Defined.

Lemma runScrape_without_state_witness :
  Scrape.no_state (test_host (Some "not JSON") false) (Cli.stateFile test_opts) ∧
  length (List.filter is_content_call
            (calls (Scrape.run (test_host (Some "not JSON") false)
                      (test_world false false false) test_opts 0).2)) = 3 ∧
  head (console (Scrape.run (test_host (Some "not JSON") false)
                   (test_world false false false) test_opts 0).2)
    = Some (Scrape.unparsed_line "scrape-state.json").
Proof.
  assert (Scrape.no_state (test_host (Some "not JSON") false) (Cli.stateFile test_opts))
    as Hno.
  { right. right. exists "not JSON", (Error.mk "Unexpected token"). by split. }
  split; [exact Hno|].
  destruct (ScrapeFacts.runScrape_without_state (test_host (Some "not JSON") false)
              (test_world false false false) test_opts 0 None Hno eq_refl)
    as (_ & Hcontent & Hconsole).
  split.
  - rewrite Hcontent. vm_compute. reflexivity.
  - rewrite Hconsole. reflexivity.
Defined.

Lemma test_parsed_rep : Ref.rep_state test_parsed 3%positive test_saved.
Proof.
  exists 4%positive, {[ "test-org/repo-a" := 5%positive ]}.
  split; [reflexivity|]. split; [reflexivity|].
  apply map_Forall2_singleton.
  exists 6%positive, {[ "README.md" := 7%positive ]}.
  split; [reflexivity|]. split; [reflexivity|].
  by apply map_Forall2_singleton.
Qed.

Lemma runScrape_resumes_witness :
  Ref.rep_state test_parsed 3%positive test_saved ∧
  List.filter is_content_call
    (calls (Scrape.run (test_host (Some "{ repos: { test-org/repo-a: ... } }") false)
              (test_world false false false) test_opts 0).2)
  = [ CallGetFileContent (Some "test-org") (Some "repo-a") "docs/guide.md";
      CallGetFileContent (Some "test-org") (Some "repo-b") "README.md" ].
Proof.
  split; [exact test_parsed_rep|].
  destruct (ScrapeFacts.runScrape_resumes
              (test_host (Some "{ repos: { test-org/repo-a: ... } }") false)
              (test_world false false false) test_opts 0 None
              "{ repos: { test-org/repo-a: ... } }" 3%positive test_parsed test_saved
              eq_refl eq_refl eq_refl test_parsed_rep eq_refl)
    as (_ & Hcontent & _).
  rewrite Hcontent. vm_compute. reflexivity.
Defined.

Lemma runScrape_state_without_repos_witness :
  (Scrape.run (test_host (Some "{}") false) (test_world false false false) test_opts 0).1
    = Throw (Error.mk "Cannot read properties of undefined (reading 'test-org/repo-a')") ∧
  head (console (Scrape.run (test_host (Some "{}") false)
                   (test_world false false false) test_opts 0).2)
    = Some (Scrape.unparsed_line "scrape-state.json") ∧
  Forall Scrape.reads_only
    (Scrape.trace (mem (Scrape.run (test_host (Some "{}") false)
                          (test_world false false false) test_opts 0).2)).
Proof.
  destruct (ScrapeFacts.runScrape_state_without_repos (test_host (Some "{}") false)
              (test_world false false false) test_opts 0 None "{}" 3%positive
              (<[3%positive := Ref.ODict ∅]> (Scrape.heap Scrape.declared))
              (Ref.ODict ∅) [repo_a; repo_b] repo_a readme_a
              eq_refl eq_refl eq_refl eq_refl eq_refl eq_refl eq_refl eq_refl)
    as (Hout & Hconsole & _ & Htrace).
  by repeat split.
Defined.

(** * The form of the web page *)

Module OrgScraperFacts.
Import OrgScraper.

Section Handler.
Variable host : Host.
Variable w : World.

Lemma handler_record_record evs evs' (m : Machine Process) :
  record evs' (record evs m) = record (evs ++ evs') m.
Proof. unfold record, set_mem, set_trace. simpl. by rewrite app_assoc. Qed.

Lemma handler_does_eq {A} ev (a : outcome A) m : does ev a m = (a, record [ev] m).
Proof. reflexivity. Qed.

(** Reading the stored state never fails. *)
Lemma handler_load_total m :
  ∃ p0,
    load host m = (Return tt, set_mem (λ _, p0) m) ∧
    trace p0 = trace (mem m) ++ [GetItem STATE_KEY].
Proof.
  unfold load, try_catch, localStorage_getItem. unfold bind at 1.
  rewrite handler_does_eq.
  destruct (getItem host STATE_KEY) as [[raw|]|e].
  - destruct (truthy raw).
    + unfold parse. cbn [mem record set_mem set_trace heap].
      destruct (JSON_parse host raw (heap (mem m))) as [[root h]|e].
      * eexists {| heap := h; prevState := root; trace := _ |}. by split.
      * exists (set_trace (λ t, t ++ [GetItem STATE_KEY]) (mem m)). by split.
    + exists (set_trace (λ t, t ++ [GetItem STATE_KEY]) (mem m)). by split.
  - exists (set_trace (λ t, t ++ [GetItem STATE_KEY]) (mem m)). by split.
  - exists (set_trace (λ t, t ++ [GetItem STATE_KEY]) (mem m)). by split.
Qed.

Lemma handler_load_no_state m :
  heap (mem m) = heap declared →
  no_state host →
  load host m = (Return tt, record [GetItem STATE_KEY] m).
Proof.
  intros Hheap Hno.
  unfold load, try_catch, localStorage_getItem. unfold bind at 1.
  rewrite handler_does_eq.
  destruct Hno as [->|[->|[[e ->]|(raw & e & -> & Hparse)]]]; try done.
  destruct (truthy raw); [|done].
  unfold parse. cbn [mem record set_mem set_trace heap]. by rewrite Hheap, Hparse.
Qed.

Lemma handler_load_parsed m raw root h :
  getItem host STATE_KEY = Return (Some raw) →
  truthy raw = true →
  JSON_parse host raw (heap (mem m)) = Return (root, h) →
  load host m =
  (Return tt,
   set_mem (λ p, {| heap := h; prevState := root;
                    trace := trace p ++ [GetItem STATE_KEY] |}) m).
Proof.
  intros Hget Hraw Hparse.
  unfold load, try_catch, localStorage_getItem. unfold bind at 1.
  rewrite handler_does_eq, Hget, Hraw.
  unfold parse. cbn [mem record set_mem set_trace heap]. by rewrite Hparse.
Qed.

(** What [scrape] leaves, by the outcome of [scrapeOrg] and of the write
    of the new state: it never fails. *)
Lemma scrape_eq org token m :
  let r := Ref.run w (config_of host org token) (prevState (mem m)) (heap (mem m))
             (reads m) in
  (scrape host w org token m).1 = Return tt ∧
  calls (scrape host w org token m).2 = calls m ++ calls r.2 ∧
  console (scrape host w org token m).2 = console m ++ console r.2 ∧
  progress (scrape host w org token m).2 = progress m ++ progress r.2 ∧
  trace (mem (scrape host w org token m).2) = trace (mem m) ++
    match r.1 with
    | Return (files, state) =>
        SetItem STATE_KEY (JSON_stringify host (mem r.2) state) ::
        match setItem host STATE_KEY (JSON_stringify host (mem r.2) state) with
        | Return _ => [OnDone files]
        | Throw e => [SetError (Some (Error.message e)); OnDone []]
        end
    | Throw e => [SetError (Some (Error.message e)); OnDone []]
    end.
Proof.
  intros r. subst r.
  unfold scrape, try_catch, scrapeOrg, localStorage_setItem, does, bind, gets, modify,
    await, record. cbn zeta.
  destruct (Ref.run w (config_of host org token) (prevState (mem m)) (heap (mem m))
              (reads m)) as [[[files state]|e] mr].
  - cbn [fst snd mem heap set_mem set_trace].
    destruct (setItem host STATE_KEY (JSON_stringify host (mem mr) state)) as [[]|e];
      cbn [fst snd mem set_mem set_trace trace calls console progress];
      rewrite <- ?app_assoc; done.
  - cbn [fst snd mem set_mem set_trace trace calls console progress].
    rewrite <- ?app_assoc. done.
Qed.

(** The machine when the stored state is about to be read. *)
Lemma handleSubmit_accepted org token n :
  accepted host org token →
  run host w org token n =
  bind (load host) (λ _, scrape host w org token)
    (record ([ PreventDefault; SetError None; OnStart;
               SetItem "doc-slurp:org" (trim host org) ] ++
             if truthy token then [SetItem "doc-slurp:token" token] else [])
       (boot declared n)).
Proof.
  intros (Horg & Hset & Htoken).
  unfold run, handleSubmit. unfold bind at 1. rewrite handler_does_eq, Horg.
  cbn [negb]. unfold bind at 1. rewrite handler_does_eq.
  unfold bind at 1. rewrite handler_does_eq.
  unfold bind at 1. unfold localStorage_setItem at 1. rewrite handler_does_eq, Hset.
  unfold bind at 1. rewrite !handler_record_record.
  destruct (truthy token).
  - unfold localStorage_setItem. rewrite handler_does_eq, Htoken by done.
    by rewrite handler_record_record.
  - unfold ret. by rewrite app_nil_r.
Qed.

(** A submission that is accepted, given what reading the stored state
    leaves. *)
Lemma handleSubmit_loaded org token n p0 :
  accepted host org token →
  load host (record ([ PreventDefault; SetError None; OnStart;
                       SetItem "doc-slurp:org" (trim host org) ] ++
                     if truthy token then [SetItem "doc-slurp:token" token] else [])
               (boot declared n))
  = (Return tt,
     set_mem (λ _, p0)
       (record ([ PreventDefault; SetError None; OnStart;
                  SetItem "doc-slurp:org" (trim host org) ] ++
                if truthy token then [SetItem "doc-slurp:token" token] else [])
          (boot declared n))) →
  let r := Ref.run w (config_of host org token) (prevState p0) (heap p0) n in
  (run host w org token n).1 = Return tt ∧
  calls (run host w org token n).2 = calls r.2 ∧
  console (run host w org token n).2 = console r.2 ∧
  trace (mem (run host w org token n).2) = trace p0 ++
    match r.1 with
    | Return (files, state) =>
        SetItem STATE_KEY (JSON_stringify host (mem r.2) state) ::
        match setItem host STATE_KEY (JSON_stringify host (mem r.2) state) with
        | Return _ => [OnDone files]
        | Throw e => [SetError (Some (Error.message e)); OnDone []]
        end
    | Throw e => [SetError (Some (Error.message e)); OnDone []]
    end.
Proof.
  intros Hok Hload r. rewrite (handleSubmit_accepted org token n Hok).
  unfold bind. rewrite Hload.
  destruct (scrape_eq org token
              (set_mem (λ _, p0)
                 (record ([ PreventDefault; SetError None; OnStart;
                            SetItem "doc-slurp:org" (trim host org) ] ++
                          if truthy token then [SetItem "doc-slurp:token" token] else [])
                    (boot declared n)))) as (Hout & Hcalls & Hconsole & _ & Htrace).
  done.
Qed.

(** X18.  A submission of the form that is accepted (the organisation is
    not blank, and [localStorage] takes the organisation and the token)
    is never rejected, and calls [onDone] exactly once, last.  When
    [scrapeOrg] returns, the new state is written to [localStorage] and
    [onDone] is given the files; when that write is rejected, the message
    of its error is shown and [onDone] is given no file.  When [scrapeOrg]
    is rejected, the message of its error is shown, [onDone] is given no
    file, and the stored state is not written. *)
Theorem handleSubmit_settles org token n :
  accepted host org token →
  ∃ p0,
    trace p0 = opening host org token ∧
    let r := Ref.run w (config_of host org token) (prevState p0) (heap p0) n in
    (run host w org token n).1 = Return tt ∧
    trace (mem (run host w org token n).2) = opening host org token ++
      match r.1 with
      | Return (files, state) =>
          SetItem STATE_KEY (JSON_stringify host (mem r.2) state) ::
          match setItem host STATE_KEY (JSON_stringify host (mem r.2) state) with
          | Return _ => [OnDone files]
          | Throw e => [SetError (Some (Error.message e)); OnDone []]
          end
      | Throw e => [SetError (Some (Error.message e)); OnDone []]
      end.
Proof.
  intros Hok.
  destruct (handler_load_total
              (record ([ PreventDefault; SetError None; OnStart;
                         SetItem "doc-slurp:org" (trim host org) ] ++
                       if truthy token then [SetItem "doc-slurp:token" token] else [])
                 (boot declared n))) as (p0 & Hload & Htrace).
  assert (trace p0 = opening host org token) as Hp0.
  { rewrite Htrace. unfold opening. simpl. by rewrite <- ?app_assoc. }
  exists p0. split; [done|].
  destruct (handleSubmit_loaded org token n p0 Hok Hload) as (Hout & _ & _ & Htr).
  cbn zeta. split; [done|]. by rewrite <- Hp0.
Qed.

(** X19.  When [localStorage] rejects the organisation or the token (it
    is full, or not available), the handler is rejected with that error
    after [onStart] and before any request: [onDone] is never called. *)
Theorem handleSubmit_storage_rejects org token n e :
  truthy (trim host org) = true →
  setItem host "doc-slurp:org" (trim host org) = Throw e ∨
  (setItem host "doc-slurp:org" (trim host org) = Return tt ∧
   truthy token = true ∧ setItem host "doc-slurp:token" token = Throw e) →
  let r := run host w org token n in
  r.1 = Throw e ∧
  OnStart ∈ trace (mem r.2) ∧
  List.filter is_done (trace (mem r.2)) = [] ∧
  calls r.2 = [].
Proof.
  intros Horg Hfail r. subst r.
  unfold run, handleSubmit. unfold bind at 1 3 5 7. rewrite handler_does_eq, Horg.
  cbn [negb]. unfold bind at 1 3 5 7. rewrite handler_does_eq.
  unfold bind at 1 3 5 7. rewrite handler_does_eq.
  unfold bind at 1 3 5 7. unfold localStorage_setItem at 1 3 5 7.
  rewrite handler_does_eq.
  destruct Hfail as [->|(-> & Htoken & Hset)].
  - cbn. split; [done|]. split; [|done]. set_solver.
  - unfold bind at 1 3 5 7. rewrite Htoken. unfold localStorage_setItem.
    rewrite handler_does_eq, Hset.
    cbn. split; [done|]. split; [|done]. set_solver.
Qed.

(** X20.  Without a stored state (there is none, it is empty, or
    [localStorage] or [JSON.parse] throws), an accepted submission scrapes
    as a first run does: its requests are those of [scrapeOrg] without a
    previous store, so the content of every markdown file of every
    repository is requested. *)
Theorem handleSubmit_without_state org token n :
  accepted host org token →
  no_state host →
  let config := config_of host org token in
  let m := (run host w org token n).2 in
  calls m = calls (Val.run w config empty_state n).2 ∧
  List.filter is_content_call (calls m)
    = (λ rt, content_call rt.1 rt.2) <$> walked w (octokit_of config) (repos_of w config).
Proof.
  intros Hok Hno config m. subst m.
  pose proof (handler_load_no_state
                (record ([ PreventDefault; SetError None; OnStart;
                           SetItem "doc-slurp:org" (trim host org) ] ++
                         if truthy token then [SetItem "doc-slurp:token" token] else [])
                   (boot declared n)) eq_refl Hno) as Hload.
  destruct (handleSubmit_loaded org token n _ Hok Hload) as (_ & Hcalls & _).
  fold config in Hcalls.
  destruct (RefSim.run_sim w config (heap declared) (prevState declared) empty_state n)
    as (h & Hm & _).
  { exists 1%positive, ∅. split; [reflexivity|]. split; [reflexivity|].
    apply map_Forall2_empty. }
  change (Ref.run w config _ _ n) with
    (Ref.run w config (prevState declared) (heap declared) n) in Hcalls.
  rewrite Hm in Hcalls. unfold Ref.with_mem in Hcalls. cbn [calls set_mem] in Hcalls.
  split; [done|].
  rewrite Hcalls, run_calls_always. cbn [List.filter is_content_call].
  rewrite content_calls_of. apply request_of_empty_state.
Qed.

(** X21.  With a stored state that holds a store, an accepted submission
    resumes from it: its requests are those of [scrapeOrg] with that store
    as the previous one, so the content of an entry is requested only
    when the entry is new or its fingerprint has changed. *)
Theorem handleSubmit_resumes org token n raw root h prev :
  accepted host org token →
  getItem host STATE_KEY = Return (Some raw) →
  truthy raw = true →
  JSON_parse host raw (heap declared) = Return (root, h) →
  Ref.rep_state h root prev →
  let config := config_of host org token in
  let m := (run host w org token n).2 in
  calls m = calls (Val.run w config prev n).2 ∧
  List.filter is_content_call (calls m)
    = flat_map (request_of prev) (walked w (octokit_of config) (repos_of w config)).
Proof.
  intros Hok Hget Hraw Hparse Hrep config m. subst m.
  pose proof (handler_load_parsed
                (record ([ PreventDefault; SetError None; OnStart;
                           SetItem "doc-slurp:org" (trim host org) ] ++
                         if truthy token then [SetItem "doc-slurp:token" token] else [])
                   (boot declared n)) raw root h Hget Hraw Hparse) as Hload.
  destruct (handleSubmit_loaded org token n
              {| heap := h; prevState := root;
                 trace := ([ PreventDefault; SetError None; OnStart;
                             SetItem "doc-slurp:org" (trim host org) ] ++
                           if truthy token then [SetItem "doc-slurp:token" token]
                           else []) ++ [GetItem STATE_KEY] |} Hok)
    as (_ & Hcalls & _); [by rewrite Hload|].
  fold config in Hcalls. cbn [heap prevState] in Hcalls.
  destruct (RefSim.run_sim w config h root prev n Hrep) as (h' & Hm & _).
  rewrite Hm in Hcalls. unfold Ref.with_mem in Hcalls. cbn [calls set_mem] in Hcalls.
  split; [done|].
  rewrite Hcalls, run_calls_always. cbn [List.filter is_content_call].
  apply content_calls_of.
Qed.

(** X22.  With a stored state that holds JSON for an object without
    [repos], once the organisation is listed and a repository has a
    markdown file, an accepted submission shows the message of the
    [TypeError] the engine raises for reading the full name of the first
    repository walked from [prevState.repos], and gives [onDone] no file,
    having requested no content; the stored state is not written, so the
    next submission meets the same object. *)
Theorem handleSubmit_state_without_repos org token n raw root h o allRepos repo t :
  accepted host org token →
  getItem host STATE_KEY = Return (Some raw) →
  truthy raw = true →
  JSON_parse host raw (heap declared) = Return (root, h) →
  h !! root = Some o →
  no_repos o →
  let config := config_of host org token in
  listOrgRepos (github w) (octokit_of config) (ScrapeConfig.org config) = Return allRepos →
  head (walked w (octokit_of config) (retained config allRepos)) = Some (repo, t) →
  let m := (run host w org token n).2 in
  trace (mem m) = opening host org token ++
    [ SetError (Some (Error.message
                        (typeError w (Reading "prevState.repos" (Repo.full_name repo)))));
      OnDone [] ] ∧
  List.filter writes_state (trace (mem m)) = [] ∧
  List.filter is_content_call (calls m) = [].
Proof.
  intros Hok Hget Hraw Hparse Hroot Hno config Hlist Hwalked m. subst m.
  pose proof (handler_load_parsed
                (record ([ PreventDefault; SetError None; OnStart;
                           SetItem "doc-slurp:org" (trim host org) ] ++
                         if truthy token then [SetItem "doc-slurp:token" token] else [])
                   (boot declared n)) raw root h Hget Hraw Hparse) as Hload.
  destruct (handleSubmit_loaded org token n
              {| heap := h; prevState := root;
                 trace := ([ PreventDefault; SetError None; OnStart;
                             SetItem "doc-slurp:org" (trim host org) ] ++
                           if truthy token then [SetItem "doc-slurp:token" token]
                           else []) ++ [GetItem STATE_KEY] |} Hok)
    as (_ & Hcalls & _ & Htrace); [by rewrite Hload|].
  fold config in Hcalls, Htrace. cbn [heap prevState trace] in Hcalls, Htrace.
  destruct (run_unusable w config h root o n allRepos Hroot Hno Hlist)
    as (Hnone & _ & Hthrow).
  destruct (walked w (octokit_of config) (retained config allRepos))
    as [|[repo' t'] rest]; [done|].
  injection Hwalked as -> ->.
  rewrite Hthrow in Htrace.
  assert (trace (mem (run host w org token n).2) = opening host org token ++
            [ SetError (Some (Error.message (repos_undefined w repo)));
              OnDone [] ]) as Heq.
  { rewrite Htrace. unfold opening. simpl. by rewrite <- ?app_assoc. }
  split; [done|]. split; [|by rewrite Hcalls].
  rewrite Heq. unfold opening. by destruct (truthy token).
Qed.

End Handler.
End OrgScraperFacts.


Lemma test_browser_accepted state :
  OrgScraper.accepted (test_browser state false) "test-org" "".
Proof. split; [reflexivity|]. split; [reflexivity|]. intros [=]. Qed.

Lemma handleSubmit_settles_witness :
  OrgScraper.accepted (test_browser None false) "test-org" "" ∧
  (OrgScraper.run (test_browser None false) (test_world true false false)
     "test-org" "" 0).1 = Return tt ∧
  last (OrgScraper.trace
          (mem (OrgScraper.run (test_browser None false) (test_world true false false)
                  "test-org" "" 0).2))
  = Some (OrgScraper.OnDone []).
Proof.
  split; [apply test_browser_accepted|].
  destruct (OrgScraperFacts.handleSubmit_settles (test_browser None false)
              (test_world true false false) "test-org" "" 0
              (test_browser_accepted None)) as (p0 & _ & Hout & Htrace).
  split; [exact Hout|]. vm_compute. reflexivity.
Defined.

Lemma handleSubmit_storage_rejects_witness :
  (OrgScraper.run (test_browser None true) (test_world false false false)
     "test-org" "" 0).1 = Throw (Error.mk "QuotaExceededError") ∧
  List.filter OrgScraper.is_done
    (OrgScraper.trace
       (mem (OrgScraper.run (test_browser None true) (test_world false false false)
               "test-org" "" 0).2)) = [].
Proof.
  destruct (OrgScraperFacts.handleSubmit_storage_rejects (test_browser None true)
              (test_world false false false) "test-org" "" 0
              (Error.mk "QuotaExceededError") eq_refl (or_introl eq_refl))
    as (Hout & _ & Hdone & _).
  by split.
Defined.

Lemma handleSubmit_without_state_witness :
  OrgScraper.no_state (test_browser None false) ∧
  length (List.filter is_content_call
            (calls (OrgScraper.run (test_browser None false)
                      (test_world false false false) "test-org" "" 0).2)) = 3.
Proof.
  assert (OrgScraper.no_state (test_browser None false)) as Hno by by left.
  split; [exact Hno|].
  destruct (OrgScraperFacts.handleSubmit_without_state (test_browser None false)
              (test_world false false false) "test-org" "" 0
              (test_browser_accepted None) Hno) as [_ Hcontent].
  rewrite Hcontent. vm_compute. reflexivity.
Defined.

Lemma handleSubmit_resumes_witness :
  Ref.rep_state test_parsed 3%positive test_saved ∧
  List.filter is_content_call
    (calls (OrgScraper.run
              (test_browser (Some "{ repos: { test-org/repo-a: ... } }") false)
              (test_world false false false) "test-org" "" 0).2)
  = [ CallGetFileContent (Some "test-org") (Some "repo-a") "docs/guide.md";
      CallGetFileContent (Some "test-org") (Some "repo-b") "README.md" ].
Proof.
  split; [exact test_parsed_rep|].
  destruct (OrgScraperFacts.handleSubmit_resumes
              (test_browser (Some "{ repos: { test-org/repo-a: ... } }") false)
              (test_world false false false) "test-org" "" 0
              "{ repos: { test-org/repo-a: ... } }" 3%positive test_parsed test_saved
              (test_browser_accepted _) eq_refl eq_refl eq_refl test_parsed_rep)
    as [_ Hcontent].
  rewrite Hcontent. vm_compute. reflexivity.
Defined.

Lemma handleSubmit_state_without_repos_witness :
  OrgScraper.trace
    (mem (OrgScraper.run (test_browser (Some "{}") false)
            (test_world false false false) "test-org" "" 0).2)
    = OrgScraper.opening (test_browser (Some "{}") false) "test-org" "" ++
      [ OrgScraper.SetError
          (Some "Cannot read properties of undefined (reading 'test-org/repo-a')");
        OrgScraper.OnDone [] ] ∧
  List.filter OrgScraper.writes_state
    (OrgScraper.trace
       (mem (OrgScraper.run (test_browser (Some "{}") false)
               (test_world false false false) "test-org" "" 0).2)) = [].
Proof.
  destruct (OrgScraperFacts.handleSubmit_state_without_repos
              (test_browser (Some "{}") false) (test_world false false false)
              "test-org" "" 0 "{}" 3%positive
              (<[3%positive := Ref.ODict ∅]> (OrgScraper.heap OrgScraper.declared))
              (Ref.ODict ∅) [repo_a; repo_b] repo_a readme_a
              (test_browser_accepted _) eq_refl eq_refl eq_refl eq_refl eq_refl eq_refl
              eq_refl)
    as (Htrace & Hstate & _).
  split; [|exact Hstate]. rewrite Htrace. reflexivity.
Defined.

(** * The [github] module *)

Section GithubFacts.
Variable rest : Rest.t.

Lemma getRepoTree_outcome {S} octokit owner repo branch (m : Machine S) :
  (GithubTs.getRepoTree rest octokit owner repo branch m).1 =
  match Rest.getTree rest octokit owner repo branch with
  | Return data =>
      Return (GithubTs.entry_of <$> List.filter GithubTs.md_blob (Rest.tree data))
  | Throw e => Throw e
  end.
Proof.
  unfold GithubTs.getRepoTree, bind, await.
  destruct (Rest.getTree rest octokit owner repo branch) as [data|e]; [|done].
  by destruct (Rest.truncated data).
Qed.

Lemma getRepoTree_console {S} octokit owner repo branch (m : Machine S) :
  console (GithubTs.getRepoTree rest octokit owner repo branch m).2 =
  console m ++
  match Rest.getTree rest octokit owner repo branch with
  | Return data =>
      if Rest.truncated data then [GithubTs.truncated_line owner repo] else []
  | Throw _ => []
  end.
Proof.
  unfold GithubTs.getRepoTree, bind, await.
  destruct (Rest.getTree rest octokit owner repo branch) as [data|e];
    [|by rewrite app_nil_r].
  destruct (Rest.truncated data); simpl; by rewrite ?app_nil_r.
Qed.

Lemma elem_of_md_blobs (items : list Rest.TreeItem) (t : TreeEntry.t) :
  t ∈ GithubTs.entry_of <$> List.filter GithubTs.md_blob items ↔
  endsWith (TreeEntry.path t) ".md" = true ∧ TreeEntry.type t = "blob" ∧
  {| Rest.path := Some (TreeEntry.path t); Rest.sha := TreeEntry.sha t;
     Rest.type := Some (TreeEntry.type t) |} ∈ items.
Proof.
  rewrite list_elem_of_fmap. split.
  - intros ([path sha type] & -> & [Hin Hkeep]%list_elem_of_In%filter_In).
    apply list_elem_of_In in Hin.
    unfold GithubTs.md_blob in Hkeep. simpl in Hkeep.
    apply andb_true_iff in Hkeep as [->%bool_decide_eq_true Hpath].
    destruct path as [path|]; [|done]. by simpl in *.
  - intros (Hmd & Hblob & Hin). eexists. split; [|apply list_elem_of_In, filter_In].
    2:{ split; [by apply list_elem_of_In|]. unfold GithubTs.md_blob. simpl.
        by rewrite Hblob, Hmd. }
    by destruct t.
Qed.

Lemma tree_of_world clock iso engine octokit repo :
  tree_of (GithubTs.world rest clock iso engine) octokit repo =
  let '(owner, repoName) := destructure_full_name (Repo.full_name repo) in
  match Rest.getTree rest octokit owner repoName (Repo.default_branch repo) with
  | Return data =>
      Return (GithubTs.entry_of <$> List.filter GithubTs.md_blob (Rest.tree data))
  | Throw e => Throw e
  end.
Proof.
  unfold tree_of. destruct (destructure_full_name _) as [owner repoName].
  simpl. apply getRepoTree_outcome.
Qed.

Lemma walked_world clock iso engine octokit (repos : list Repo.t) repo t :
  (repo, t) ∈ walked (GithubTs.world rest clock iso engine) octokit repos →
  endsWith (TreeEntry.path t) ".md" = true ∧ TreeEntry.type t = "blob".
Proof.
  intros (_ & mdFiles & Htree & Ht)%elem_of_walked.
  rewrite tree_of_world in Htree.
  destruct (destructure_full_name _) as [owner repoName].
  destruct (Rest.getTree rest octokit owner repoName (Repo.default_branch repo))
    as [data|e]; [|done].
  injection Htree as <-. apply elem_of_md_blobs in Ht as (? & ? & _). done.
Qed.

(** X23.  [getRepoTree] returns the items of the tree that are blobs
    with a path ending in [.md], and only those, in the order of the tree,
    each with its path and fingerprint; an item without a path or a type is
    left out.  A truncated tree is not an error: the function warns once and
    returns the Markdown blobs of the part it was given.  A rejected
    request is rejected on, without a warning. *)
Theorem getRepoTree_markdown_blobs {S} octokit owner repo branch (m : Machine S) :
  (∀ e, Rest.getTree rest octokit owner repo branch = Throw e →
     GithubTs.getRepoTree rest octokit owner repo branch m = (Throw e, m)) ∧
  (∀ data, Rest.getTree rest octokit owner repo branch = Return data →
     ∃ mdFiles,
       (GithubTs.getRepoTree rest octokit owner repo branch m).1 = Return mdFiles ∧
       (∀ t, t ∈ mdFiles ↔
          endsWith (TreeEntry.path t) ".md" = true ∧ TreeEntry.type t = "blob" ∧
          {| Rest.path := Some (TreeEntry.path t); Rest.sha := TreeEntry.sha t;
             Rest.type := Some (TreeEntry.type t) |} ∈ Rest.tree data) ∧
       mdFiles `sublist_of` GithubTs.entry_of <$> Rest.tree data ∧
       console (GithubTs.getRepoTree rest octokit owner repo branch m).2 =
         console m ++
         (if Rest.truncated data then [GithubTs.truncated_line owner repo] else [])).
Proof.
  split.
  - intros e He. unfold GithubTs.getRepoTree, bind, await. by rewrite He.
  - intros data Hdata. eexists. split; [|split; [|split]].
    + rewrite getRepoTree_outcome, Hdata. done.
    + apply elem_of_md_blobs.
    + apply fmap_sublist. induction (Rest.tree data) as [|item items IH]; [done|].
      simpl. destruct (GithubTs.md_blob item); by constructor.
    + by rewrite getRepoTree_console, Hdata.
Qed.

(** X24.  Over this module, a run of [scrapeOrg] that returns has asked
    for the content of paths ending in [.md] only, and every record it
    returns has such a path; so has every entry of the new store, when the
    retained repositories have distinct full names. *)
Theorem scrapeOrg_only_markdown clock iso engine config prevState n files st m :
  let w := GithubTs.world rest clock iso engine in
  run w config prevState n = (Return (files, st), m) →
  (∀ owner repo path,
     CallGetFileContent owner repo path ∈ calls m → endsWith path ".md" = true) ∧
  (∀ f, f ∈ files → endsWith (ScrapedFile.path f) ".md" = true) ∧
  (NoDup (Repo.full_name <$> repos_of w config) →
   ∀ full_name path, path ∈ dom (bucket st full_name) → endsWith path ".md" = true).
Proof.
  intros w Hrun.
  destruct (run_requests_records _ _ _ _ _ _ _ Hrun) as [Hreq _].
  destruct (run_fetched _ _ _ _ _ _ _ Hrun) as [_ Hrec].
  simpl in Hreq, Hrec. split; [|split].
  - intros owner repoName path Hcall.
    assert (CallGetFileContent owner repoName path
              ∈ List.filter is_content_call (calls m)) as Hc.
    { apply list_elem_of_In, filter_In. split; [by apply list_elem_of_In|done]. }
    rewrite Hreq in Hc.
    apply list_elem_of_In, in_flat_map in Hc as ([repo t] & Hin%list_elem_of_In & Hc).
    apply walked_world in Hin as [Hmd _].
    unfold request_of, content_call in Hc. destruct (decide _); [|done].
    destruct (destructure_full_name _). by destruct Hc as [[= _ _ <-]|[]].
  - intros f Hf.
    destruct (Hrec f Hf) as (repo & t & Hin & _ & _ & _ & -> & _).
    by apply walked_world in Hin as [? _].
  - intros Hnd full_name path Hpath.
    unfold bucket in Hpath.
    destruct (ScrapeState.repos st !! full_name) as [cache|] eqn:Hcache;
      simpl in Hpath; [|by rewrite dom_empty_L, elem_of_empty in Hpath].
    destruct (run_inv_post _ _ _ _ _ _ _ Hrun) as (allRepos & Hlist & Hrepos & Hpost).
    destruct (decide (Exists (λ repo, Repo.full_name repo = full_name ∧
                                tree_listed w (octokit_of config) repo = true)
                        (repos_of w config))) as [Hex|Hno].
    + apply Exists_exists in Hex as (repo & Hrepo & <- & Hlisted).
      unfold tree_listed in Hlisted.
      destruct (tree_of w (octokit_of config) repo) as [mdFiles|] eqn:Htree; [|done].
      destruct (run_bucket_of w config prevState n repo mdFiles Hnd Hrepo Htree)
        as (files' & st' & m' & cache' & Hrun' & _ & Hcache' & _ & Hdom & _).
      rewrite Hrun in Hrun'. injection Hrun' as <- <- <-.
      rewrite Hcache in Hcache'. injection Hcache' as <-.
      rewrite Hdom, elem_of_list_to_set, list_elem_of_fmap in Hpath.
      destruct Hpath as (t & -> & Ht).
      assert ((repo, t) ∈ walked w (octokit_of config) (repos_of w config)) as Hin
        by (apply elem_of_walked; eauto).
      by apply walked_world in Hin as [? _].
    + exfalso. rewrite Hrepos in Hno.
      rewrite (run_absent _ _ _ _ _ _ _ _ Hpost full_name) in Hcache; [done|].
      intros repo Hrepo Hname. unfold octokit_of in *.
      destruct (tree_of w _ repo) as [mdFiles|e] eqn:Htree; [|by eexists].
      destruct Hno. apply Exists_exists. exists repo. split; [done|]. split; [done|].
      unfold tree_listed. by rewrite Htree.
Qed.

Lemma retained_repo_of config (l : list Rest.Repository) :
  retained config (GithubTs.repo_of <$> l)
  = GithubTs.repo_of <$> List.filter (GithubTs.kept config) l.
Proof.
  unfold retained, GithubTs.kept. destruct (ScrapeConfig.repoFilter config) as [test|].
  - induction l as [|r l IH]; [done|]. simpl.
    destruct (test (Rest.name r)); simpl; [f_equal|]; exact IH.
  - induction l as [|r l IH]; [done|]. simpl. f_equal. exact IH.
Qed.

Lemma tree_call_repo_of (r : Rest.Repository) :
  tree_call (GithubTs.repo_of r) = GithubTs.tree_request r.
Proof. done. Qed.

(** X25.  Over this module, [scrapeOrg] rejects exactly when the
    pagination of the repositories stops on an error, with that error,
    whatever the pages received before it, and it then lists no tree.
    Otherwise it returns, having listed the tree of every repository of
    every page that passes the filter, once and in order, at its default
    branch, or at [HEAD] when it has none. *)
Theorem scrapeOrg_walks_every_page clock iso engine config prevState n :
  let w := GithubTs.world rest clock iso engine in
  let outcome := (run w config prevState n).1 in
  let requests := calls (run w config prevState n).2 in
  match Rest.listForOrg rest (octokit_of config) (ScrapeConfig.org config) with
  | (pages, Some e) =>
      outcome = Throw e ∧ List.filter is_tree_call requests = []
  | (pages, None) =>
      (∃ files st, outcome = Return (files, st)) ∧
      List.filter is_tree_call requests
        = GithubTs.tree_request <$> List.filter (GithubTs.kept config) (concat pages)
  end.
Proof.
  intros w outcome requests. subst outcome requests.
  assert (listOrgRepos (github w) (octokit_of config) (ScrapeConfig.org config)
          = GithubTs.listOrgRepos rest (octokit_of config) (ScrapeConfig.org config))
    as Hlist by done.
  assert (List.filter is_tree_call (calls (run w config prevState n).2)
          = tree_call <$> repos_of w config) as Hcalls.
  { rewrite run_calls_always. cbn [List.filter is_tree_call]. apply tree_calls_of. }
  rewrite Hcalls. unfold repos_of. rewrite Hlist. clear Hcalls.
  unfold GithubTs.listOrgRepos in *.
  destruct (Rest.listForOrg rest (octokit_of config) (ScrapeConfig.org config))
    as [pages [e|]].
  - split; [|done]. by rewrite (run_Throw w config prevState n e Hlist).
  - split.
    + destruct (run_Return w config prevState n _ Hlist)
        as (files & st & m & Hrun & _). rewrite Hrun. by eexists _, _.
    + rewrite retained_repo_of, <- list_fmap_compose.
      apply list_fmap_ext. intros _ r _. apply tree_call_repo_of.
Qed.

(** X26.  Over this module, when the content of a walked entry that is
    new or changed turns out to be a directory listing, or to have a type
    other than [file] (a symbolic link, a submodule), the run still
    returns; it has warned [Failed to fetch R/P: Expected a file at P in
    owner/repo], and no record it returns has the repository and path of
    the entry. *)
Theorem scrapeOrg_skips_what_is_not_a_file clock iso engine config prevState n repo
    owner
    repoName mdFiles t data files st m :
  let w := GithubTs.world rest clock iso engine in
  run w config prevState n = (Return (files, st), m) →
  repo ∈ repos_of w config →
  destructure_full_name (Repo.full_name repo) = (owner, repoName) →
  tree_of w (octokit_of config) repo = Return mdFiles →
  t ∈ mdFiles →
  to_fetch (bucket prevState (Repo.full_name repo)) t →
  Rest.getContent rest (octokit_of config) owner repoName (TreeEntry.path t)
    = Return data →
  (∀ content, data ≠ Rest.Item "file" content) →
  failed_line repo t (GithubTs.not_a_file owner repoName (TreeEntry.path t))
    ∈ console m ∧
  ∀ f, f ∈ files →
    ¬ (ScrapedFile.repo f = Repo.full_name repo ∧
       ScrapedFile.path f = TreeEntry.path t).
Proof.
  intros w Hrun Hrepo Hsplit Htree Ht Hfetch Hdata Hkind.
  assert (content_of w (octokit_of config) repo t
          = Throw (GithubTs.not_a_file owner repoName (TreeEntry.path t))) as Hcontent.
  { unfold content_of. rewrite Hsplit. simpl. unfold GithubTs.getFileContent.
    rewrite Hdata. destruct data as [|type content]; [done|].
    destruct (decide (type = "file")) as [->|]; [|done]. by destruct (Hkind content). }
  split.
  - pose proof (scrapeOrg_console_always w config prevState n) as Hcons.
    rewrite Hrun in Hcons. simpl in Hcons. rewrite Hcons.
    apply list_elem_of_In, in_flat_map. exists repo.
    split; [by apply list_elem_of_In|].
    unfold repo_warnings. rewrite Htree.
    apply in_flat_map. exists (repo, t).
    split; [apply list_elem_of_In, list_elem_of_fmap; eauto|].
    unfold file_warnings. rewrite decide_True by done. rewrite Hcontent. by left.
  - destruct (run_fetched _ _ _ _ _ _ _ Hrun) as [_ Hrec]. simpl in Hrec.
    intros f Hf [Hname Hpath].
    destruct (Hrec f Hf) as (repo' & t' & _ & _ & Hc & Hname' & Hpath' & _).
    unfold content_of in Hc, Hcontent.
    rewrite <- Hname', Hname, <- Hpath', Hpath in Hc. congruence.
Qed.
End GithubFacts.

Lemma scrapeOrg_only_markdown_witness :
  ∃ files st m,
    run test_rest_world (test_config None) empty_state 0 = (Return (files, st), m) ∧
    ScrapedFile.path <$> files = ["README.md"; "docs/guide.md"; "README.md"] ∧
    ∀ f, f ∈ files → endsWith (ScrapedFile.path f) ".md" = true.
Proof.
  do 3 eexists.
  match goal with
  | |- ?eq ∧ _ => assert eq as Hrun by (vm_compute; reflexivity)
  end.
  split; [exact Hrun|]. split; [reflexivity|].
  by destruct (scrapeOrg_only_markdown test_rest _ _ _ _ _ _ _ _ _ Hrun) as (_ & ? & _).
Defined.

Lemma scrapeOrg_skips_what_is_not_a_file_witness :
  ∃ files st m,
    run test_rest_world (test_config None) empty_state 0 = (Return (files, st), m) ∧
    failed_line repo_a (TreeEntry.mk "docs/link.md" "sha-docs/link.md" "blob")
      (Error.mk "Expected a file at docs/link.md in test-org/repo-a")
      ∈ console m.
Proof.
  do 3 eexists.
  match goal with
  | |- ?eq ∧ _ => assert eq as Hrun by (vm_compute; reflexivity)
  end.
  split; [exact Hrun|].
  destruct (scrapeOrg_skips_what_is_not_a_file test_rest _ _ _ (test_config None)
              empty_state 0 repo_a (Some "test-org") (Some "repo-a")
              [ TreeEntry.mk "README.md" "sha-README.md" "blob";
                TreeEntry.mk "docs/guide.md" "sha-docs/guide.md" "blob";
                TreeEntry.mk "docs/link.md" "sha-docs/link.md" "blob" ]
              (TreeEntry.mk "docs/link.md" "sha-docs/link.md" "blob")
              (Rest.Item "symlink" "") _ _ _ Hrun) as [Hwarned _].
  - apply list_elem_of_In. simpl. tauto.
  - reflexivity.
  - reflexivity.
  - apply list_elem_of_In. simpl. tauto.
  - apply to_fetch_empty_state.
  - reflexivity.
  - done.
  - exact Hwarned.
Defined.

(** * The list of scraped files *)

Module RepoListFacts.
Import RepoList.

Lemma insert_sorted_Permutation {A} (compare : A → A → Z) x (l : list A) :
  insert_sorted compare x l ≡ₚ x :: l.
Proof.
  induction l as [|y l IH]; [done|].
  simpl. destruct (_ <? _)%Z; [done|]. by rewrite IH, Permutation_swap.
Qed.

Lemma sort_Permutation {A} (compare : A → A → Z) (l : list A) :
  sort compare l ≡ₚ l.
Proof.
  unfold sort.
  assert (∀ acc, foldl (λ sorted x, insert_sorted compare x sorted) acc l ≡ₚ acc ++ l)
    as Hgen.
  { induction l as [|x l IH]; intros acc; simpl; [by rewrite app_nil_r|].
    rewrite IH, insert_sorted_Permutation. simpl. apply Permutation_middle. }
  apply (Hgen []).
Qed.

Section Sorted.
Context {A : Type}.
Variable compare : A → A → Z.
Hypothesis compare_flip : ∀ a b, (0 ≤ compare a b → compare b a ≤ 0)%Z.
Hypothesis compare_trans :
  ∀ a b c, (compare a b ≤ 0 → compare b c ≤ 0 → compare a c ≤ 0)%Z.

Lemma insert_sorted_sorted x (l : list A) :
  StronglySorted (λ a b, (compare a b ≤ 0)%Z) l →
  StronglySorted (λ a b, (compare a b ≤ 0)%Z) (insert_sorted compare x l).
Proof.
  induction 1 as [|y l Hl IH Hy]; simpl.
  - repeat constructor.
  - destruct (compare x y <? 0)%Z eqn:Hlt.
    + apply Z.ltb_lt in Hlt. constructor; [by constructor|].
      constructor; [lia|].
      eapply Forall_impl; [exact Hy|]. intros z Hz.
      apply (compare_trans x y z); [lia|done].
    + apply Z.ltb_ge in Hlt. constructor; [done|].
      rewrite insert_sorted_Permutation. constructor; [by apply compare_flip|done].
Qed.

Lemma sort_sorted (l : list A) :
  StronglySorted (λ a b, (compare a b ≤ 0)%Z) (sort compare l).
Proof.
  unfold sort.
  assert (∀ acc, StronglySorted (λ a b, (compare a b ≤ 0)%Z) acc →
            StronglySorted (λ a b, (compare a b ≤ 0)%Z)
              (foldl (λ sorted x, insert_sorted compare x sorted) acc l)) as Hgen.
  { induction l as [|x l IH]; intros acc Hacc; simpl; [done|].
    by apply IH, insert_sorted_sorted. }
  apply Hgen. constructor.
Qed.
End Sorted.

Lemma assoc_push f (map : list (string * list ScrapedFile.t)) r :
  assoc r (push f map) =
  if decide (r = ScrapedFile.repo f) then Some (default [] (assoc r map) ++ [f])
  else assoc r map.
Proof.
  induction map as [|[r0 fs0] map IH]; simpl.
  - destruct (decide (ScrapedFile.repo f = r)) as [<-|Hne].
    + by rewrite decide_True.
    + by rewrite decide_False by done.
  - destruct (decide (r0 = ScrapedFile.repo f)) as [->|Hne]; simpl.
    + destruct (decide (ScrapedFile.repo f = r)) as [<-|Hr].
      * by rewrite decide_True.
      * by rewrite decide_False by done.
    + destruct (decide (r0 = r)) as [->|Hr].
      * by rewrite decide_False by done.
      * apply IH.
Qed.

Lemma keys_push f (map : list (string * list ScrapedFile.t)) :
  (push f map).*1 =
  if decide (ScrapedFile.repo f ∈ map.*1) then map.*1 else map.*1 ++ [ScrapedFile.repo f].
Proof.
  induction map as [|[r0 fs0] map IH].
  - destruct (decide _) as [H|H]; [by apply elem_of_nil in H|done].
  - cbn [push]. rewrite (fmap_cons fst (r0, fs0) map). cbn [fst].
    destruct (decide (r0 = ScrapedFile.repo f)) as [->|Hne].
    + rewrite fmap_cons. cbn [fst]. clear IH.
      destruct (decide _) as [H|H]; [done|]. destruct H. by left.
    + rewrite fmap_cons, IH. cbn [fst]. clear IH.
      destruct (decide (ScrapedFile.repo f ∈ map.*1)) as [Hin|Hin].
      * destruct (decide _) as [H|H]; [done|]. destruct H. by right.
      * destruct (decide _) as [H|H]; [|done].
        by apply elem_of_cons in H as [?|?].
Qed.

Lemma assoc_elem_of (map : list (string * list ScrapedFile.t)) r fs :
  NoDup map.*1 → ((r, fs) ∈ map ↔ assoc r map = Some fs).
Proof.
  induction map as [|[r0 fs0] map IH]; simpl; intros Hnd.
  - split; [by intros ?%elem_of_nil|done].
  - apply NoDup_cons in Hnd as [Hfresh Hnd].
    destruct (decide (r0 = r)) as [->|Hne].
    + split.
      * intros [[= ->]|Hin]%elem_of_cons; [done|].
        destruct Hfresh. apply list_elem_of_fmap. by exists (r, fs).
      * intros [= ->]. by left.
    + rewrite <- (IH Hnd). split.
      * intros [[= ? ?]|Hin]%elem_of_cons; [done|done].
      * by right.
Qed.

(** The map after the loop has seen [files]. *)
Lemma grouped_spec (files : list ScrapedFile.t) :
  NoDup (grouped files).*1 ∧
  ∀ r, assoc r (grouped files) =
       match filter (λ f, ScrapedFile.repo f = r) files with
       | [] => None
       | fs => Some fs
       end.
Proof.
  unfold grouped. induction files as [|f files [IHnd IH]] using rev_ind.
  - split; [constructor|done].
  - rewrite foldl_snoc. split.
    + rewrite keys_push. destruct (decide _) as [Hin|Hin]; [done|].
      apply NoDup_app. split; [done|]. split; [|apply NoDup_singleton].
      intros r Hr ->%list_elem_of_singleton. done.
    + intros r. rewrite assoc_push, IH, filter_app, filter_cons, filter_nil.
      destruct (decide (r = ScrapedFile.repo f)) as [->|Hne].
      * rewrite decide_True by done.
        destruct (filter _ files) as [|f0 fs]; done.
      * rewrite decide_False by done. by rewrite app_nil_r.
Qed.

Lemma groups_of_sorted localeCompare files :
  groupByRepo localeCompare files ≡ₚ
  (λ entry, {| repo := entry.1; files := entry.2 |}) <$> grouped files.
Proof. unfold groupByRepo. by rewrite sort_Permutation. Qed.

(** X27.  [groupByRepo] partitions the files by repository, whatever the
    order [localeCompare] gives: no two groups have the same repository, no
    group is empty, and the group of a repository holds the files of that
    repository, all of them, in the order in which they were given. *)
Theorem groupByRepo_partitions localeCompare files :
  let groups := groupByRepo localeCompare files in
  NoDup (repo <$> groups) ∧
  ∀ g, g ∈ groups ↔
    RepoList.files g ≠ [] ∧
    RepoList.files g = filter (λ f, ScrapedFile.repo f = repo g) files.
Proof.
  destruct (grouped_spec files) as [Hnd Hassoc]. simpl. split.
  - rewrite groups_of_sorted, <- list_fmap_compose. exact Hnd.
  - intros [r fs]. rewrite groups_of_sorted, list_elem_of_fmap. simpl. split.
    + intros ([r' fs'] & [= -> ->] & Hin). simpl in *.
      apply (assoc_elem_of _ _ _ Hnd) in Hin. rewrite Hassoc in Hin.
      destruct (filter _ files) as [|f0 fs0]; [done|]. by injection Hin as <-.
    + intros [Hne ->]. exists (r, filter (λ f, ScrapedFile.repo f = r) files).
      split; [done|]. apply (assoc_elem_of _ _ _ Hnd). rewrite Hassoc.
      by destruct (filter _ files).
Qed.

(** X28.  When [localeCompare] orders strings consistently (the sign of
    [b.localeCompare(a)] is opposite to that of [a.localeCompare(b)], and
    "at most" is transitive), the groups [groupByRepo] returns are in
    ascending order of repository. *)
Theorem groupByRepo_sorted localeCompare files :
  (∀ a b, 0 ≤ localeCompare a b → localeCompare b a ≤ 0)%Z →
  (∀ a b c, localeCompare a b ≤ 0 → localeCompare b c ≤ 0 → localeCompare a c ≤ 0)%Z →
  StronglySorted (λ g1 g2, (localeCompare (repo g1) (repo g2) ≤ 0)%Z)
    (groupByRepo localeCompare files).
Proof.
  intros Hflip Htrans. unfold groupByRepo.
  pose proof (sort_sorted (λ a b : string * list ScrapedFile.t, localeCompare a.1 b.1))
    as Hsorted.
  specialize (Hsorted (λ a b, Hflip a.1 b.1) (λ a b c, Htrans a.1 b.1 c.1)
                (grouped files)).
  induction Hsorted as [|entry entries _ IH Hall]; simpl; constructor; [done|].
  apply Forall_fmap. by eapply Forall_impl.
Qed.

Lemma ascii_compare_trans (a b c : ascii) :
  Ascii.compare a b ≠ Gt → Ascii.compare b c ≠ Gt → Ascii.compare a c ≠ Gt.
Proof.
  unfold Ascii.compare. rewrite !N.compare_le_iff. lia.
Qed.

Lemma byte_order_flip a b : (0 ≤ byte_order a b → byte_order b a ≤ 0)%Z.
Proof.
  unfold byte_order. rewrite (String.compare_antisym b a).
  destruct (String.compare a b); simpl; lia.
Qed.

Lemma string_compare_trans (a b c : string) :
  String.compare a b ≠ Gt → String.compare b c ≠ Gt → String.compare a c ≠ Gt.
Proof.
  revert b c. induction a as [|x a IH]; intros [|y b] [|z c]; simpl; try done.
  destruct (Ascii.compare x y) eqn:Hxy; [|intros _|done].
  - apply Ascii.compare_eq_iff in Hxy as ->.
    destruct (Ascii.compare y z); [apply IH|done|done].
  - destruct (Ascii.compare y z) eqn:Hyz; [|intros _|done].
    + apply Ascii.compare_eq_iff in Hyz as <-. by rewrite Hxy.
    + pose proof (ascii_compare_trans x y z) as Ht. rewrite Hxy, Hyz in Ht.
      destruct (Ascii.compare x z) eqn:Hxz; [|done|by destruct Ht].
      apply Ascii.compare_eq_iff in Hxz as ->.
      rewrite Ascii.compare_antisym, Hyz in Hxy. done.
Qed.

Lemma byte_order_trans a b c :
  (byte_order a b ≤ 0 → byte_order b c ≤ 0 → byte_order a c ≤ 0)%Z.
Proof.
  unfold byte_order. pose proof (string_compare_trans a b c) as Ht.
  destruct (String.compare a b), (String.compare b c), (String.compare a c);
    try lia; by destruct Ht.
Qed.
End RepoListFacts.

Lemma groupByRepo_sorted_witness :
  RepoList.repo <$>
    RepoList.groupByRepo byte_order
      [ ScrapedFile.mk "org/b" "README.md" "" "1";
        ScrapedFile.mk "org/a" "README.md" "" "2";
        ScrapedFile.mk "org/b" "docs/x.md" "" "3" ]
  = ["org/a"; "org/b"] ∧
  StronglySorted (λ g1 g2, (byte_order (RepoList.repo g1) (RepoList.repo g2) ≤ 0)%Z)
    (RepoList.groupByRepo byte_order
      [ ScrapedFile.mk "org/b" "README.md" "" "1";
        ScrapedFile.mk "org/a" "README.md" "" "2";
        ScrapedFile.mk "org/b" "docs/x.md" "" "3" ]).
Proof.
  split; [vm_compute; reflexivity|].
  apply RepoListFacts.groupByRepo_sorted.
  - apply RepoListFacts.byte_order_flip.
  - apply RepoListFacts.byte_order_trans.
Defined.
